(** * hypodisc: the parallel pattern-growth engine (hypodisc/core/parallel.py)

    A shallow embedding of [init_root_patterns], [compute_root_patterns],
    [compute_candidates], [generate_df] and [generate_bf], and the
    properties of the specification that concern them.

    Conventions of the embedding.
    - A Python [set] is a duplicate-free list; [set.add] and [|=] keep the
      elements already present and append the new ones.
    - A Python [dict] is a [gmap], a [Counter] the list of its items in
      order of first occurrence; keys of more than one Python type are
      values of [PyVal].
    - A raised exception is the [Raise] case of [Result].
    - [random()] reads the next draw of a stream; the shared [visited] list,
      the lock and the standard output live in a [World] that is threaded
      through the workers and the drivers.
    - Thresholds and supports are integers; probabilities are rationals. *)

From Stdlib Require Import QArith.
From stdpp Require Import base option list sorting gmap strings.

Local Open Scope Z_scope.

(** ** Terms, variables, assertions and graph patterns *)

(** rdf.terms: an IRI reference or a literal; [value] is the attribute
    [.value] of both. *)
Inductive Resource :=
| IRIRef (iri : string)
| Literal (lexical : string) (datatype : string).

Definition value (r : Resource) : string :=
  match r with
  | IRIRef v => v
  | Literal v _ => v
  end.

#[global] Instance Resource_eq_dec : EqDecision Resource.
Proof. solve_decision. Defined.

#[global] Instance Resource_countable : Countable Resource.
Proof.
  refine (inj_countable'
            (λ r, match r with
                  | IRIRef v => inl v
                  | Literal v d => inr (v, d)
                  end)
            (λ s, match s with
                  | inl v => IRIRef v
                  | inr (v, d) => Literal v d
                  end) _).
  by intros [].
Defined.

(** hypodisc.core.structures: the typed variables, and a bound constant as
    the other kind of right-hand side. *)
Inductive Term :=
| ObjectTypeVariable (type : Resource)
| DataTypeVariable (type : Resource)
| MultiModalNumericVariable (type : Resource) (cluster : string)
| MultiModalStringVariable (type : Resource) (cluster : string)
| Constant (node : Resource).

#[global] Instance Term_eq_dec : EqDecision Term.
Proof. solve_decision. Defined.

(** [isinstance(t, ObjectTypeVariable)] *)
Definition isinstance_ObjectTypeVariable (t : Term) : bool :=
  match t with
  | ObjectTypeVariable _ => true
  | _ => false
  end.

(** [t.value]: the class or datatype a variable stands for. *)
Definition term_value (t : Term) : Resource :=
  match t with
  | ObjectTypeVariable r | DataTypeVariable r
  | MultiModalNumericVariable r _ | MultiModalStringVariable r _
  | Constant r => r
  end.

Record Assertion := mkAssertion {
  lhs : Term;
  predicate : Resource;
  rhs : Term
}.

#[global] Instance Assertion_eq_dec : EqDecision Assertion.
Proof. solve_decision. Defined.

(** The attributes of a [GraphPattern] that parallel.py reads:
    [pattern.root], [pattern.assertion], [pattern.distances] (the
    assertions introduced at each depth) and [pattern.support]. *)
Record GraphPattern := mkGraphPattern {
  root : Term;
  assertion : Assertion;
  distances : list (list Assertion);
  support : Z
}.

#[global] Instance GraphPattern_eq_dec : EqDecision GraphPattern.
Proof. solve_decision. Defined.

(** The Root Pattern Index: class name to its depth-0 patterns. *)
Abbreviation RootPatterns := (gmap Resource (list GraphPattern)).

(** An accepted candidate: [(endpoint, extension)]. *)
Abbreviation Candidate := (Term * Assertion)%type.

(** ** Python containers *)

Module Py.

(** [s.add(x)] *)
Definition set_add {A} `{EqDecision A} (x : A) (s : list A) : list A :=
  if bool_decide (x ∈ s) then s else s ++ [x].

(** [s |= t] *)
Definition set_union {A} `{EqDecision A} (s t : list A) : list A :=
  foldl (λ acc x, set_add x acc) s t.

(** [set(l)] *)
Definition set_of {A} `{EqDecision A} (l : list A) : list A :=
  set_union [] l.

(** [s & t] *)
Definition set_inter {A} `{EqDecision A} (s t : list A) : list A :=
  List.filter (λ x, bool_decide (x ∈ t)) s.

(** [dict(pairs)]: a later pair overrides an earlier one. *)
Definition dict_of `{Countable K} {V} (pairs : list (K * V)) : gmap K V :=
  foldl (λ m kv, <[kv.1 := kv.2]> m) ∅ pairs.

End Py.

(** ** Exceptions and the world of a run *)

Inductive Exn := IndexError | KeyError | TypeError.

Inductive Result (X : Type) :=
| Ok (x : X)
| Raise (e : Exn).
Arguments Ok {X} x.
Arguments Raise {X} e.

(** The two progress lines of a depth iteration: [Exploring] when the
    frontier of a class is submitted to the pool, with the content of the
    shared list at that moment, and [Discovered] when the derivatives of
    the iteration are counted. *)
Inductive Event :=
| Exploring (name : Resource) (depth : nat)
            (frontier submitted : list GraphPattern) (shared : list Z)
| Discovered (name : Resource) (depth : nat)
             (derivatives : list GraphPattern).

Record World := mkWorld {
  draws : nat;          (* calls of random() so far *)
  locks : nat;          (* acquisitions of the lock so far *)
  visited : list Z;     (* the shared list of pattern hashes *)
  hashed : list (GraphPattern * Candidate);
                        (* the arguments of predict_hash so far *)
  log : list Event      (* the progress lines so far *)
}.

Definition M (X : Type) : Type := World → Result X * World.

#[global] Instance M_ret : MRet M := λ X x w, (Ok x, w).

#[global] Instance M_bind : MBind M := λ X Y f m w,
  match m w with
  | (Ok x, w') => f x w'
  | (Raise e, w') => (Raise e, w')
  end.

Definition lift {X} (r : Result X) : M X := λ w, (r, w).

Definition tell (ev : Event) : M () := λ w,
  (Ok (), mkWorld (draws w) (locks w) (visited w) (hashed w)
                  (log w ++ [ev])).

(** Nothing drawn, nothing locked, nothing printed yet. *)
Definition start : World := mkWorld 0 0 [] [] [].

(** [post m w Q E]: from [w], [m] returns a value and a world that satisfy
    [Q], or raises in a world that satisfies [E]. *)
Definition post {X} (m : M X) (w : World)
    (Q : X → World → Prop) (E : World → Prop) : Prop :=
  match m w with
  | (Ok x, w') => Q x w'
  | (Raise _, w') => E w'
  end.

(** The arguments that [m], run from [w], hands to [predict_hash]. *)
Definition pairs_considered {X} (m : M X) (w : World)
  : list (GraphPattern * Candidate) :=
  drop (length (hashed w)) (hashed (m w).2).

(** [for x in l: acc = body(acc, x)] *)
Fixpoint for_each {A B} (body : B → A → M B) (l : list A) (acc : B) : M B :=
  match l with
  | [] => mret acc
  | x :: l' => acc' ← body acc x; for_each body l' acc'
  end.

(** [[f(x) for x in l]] *)
Fixpoint map_each {A B} (f : A → M B) (l : list A) : M (list B) :=
  match l with
  | [] => mret []
  | x :: l' => y ← f x; ys ← map_each f l'; mret (y :: ys)
  end.

(** [a < b] on rationals *)
Definition Qltb (a b : Q) : bool := negb (Qle_bool b a).

(** ** The Candidate Generator: [compute_candidates] *)

Section CandidateGenerator.

(** The successive results of [random()], each in [0, 1). *)
Variable rnd : nat → Q.

(** The hashes that the other workers of the pool append to the shared
    list before this run acquires the lock for the n-th time. *)
Variable interleaved : nat → list Z.

(** hypodisc.core.utils.predict_hash and GraphPattern.contains_at_depth. *)
Variable predict_hash : GraphPattern → Term → Assertion → Z.
Variable contains_at_depth : GraphPattern → Assertion → nat → bool.

(** [random()] *)
Definition random : M Q := λ w,
  (Ok (rnd (draws w)),
   mkWorld (S (draws w)) (locks w) (visited w) (hashed w) (log w)).

(** Lines 299-307: the endpoints of [pattern] at [depth]. A depth
    without an entry in [pattern.distances] raises. *)
Definition endpoints_of (pattern : GraphPattern) (depth : nat)
  : Result (list Term) :=
  if bool_decide (depth ≤ 0)%nat then Ok [root pattern]
  else match distances pattern !! (depth - 1)%nat with
       | Some introduced =>
           Ok (Py.set_of
                 (rhs <$> filter (λ a, isinstance_ObjectTypeVariable (rhs a))
                                 introduced))
       | None => Raise KeyError
       end.

(** Lines 333-339: the critical section. The list it sees is the shared
    list with what the other workers appended meanwhile; it answers
    [skip]. *)
Definition seen_under_lock (w : World) : list Z :=
  visited w ++ interleaved (locks w).

Definition locked_check (pattern : GraphPattern) (extension : Assertion)
    (depth : nat) (pattern_hash : Z) : M bool := λ w,
  let seen := seen_under_lock w in
  let skip := bool_decide (pattern_hash ∈ seen)
              || contains_at_depth pattern extension depth in
  (Ok skip,
   mkWorld (draws w) (S (locks w))
           (if skip then seen else seen ++ [pattern_hash])
           (hashed w) (log w)).

(** Lines 329-331. *)
Definition hash_of (pattern : GraphPattern) (endpoint : Term)
    (extension : Assertion) : M Z := λ w,
  (Ok (predict_hash pattern endpoint extension),
   mkWorld (draws w) (locks w) (visited w)
           (hashed w ++ [(pattern, (endpoint, extension))]) (log w)).

(** Lines 329-344: one pair that survived the sampling. *)
Definition consider (pattern : GraphPattern) (depth : nat)
    (endpoint : Term) (extension : Assertion)
    (candidates : list Candidate) : M (list Candidate) :=
  pattern_hash ← hash_of pattern endpoint extension;
  skip ← locked_check pattern extension depth pattern_hash;
  if skip : bool then mret candidates
  else mret (Py.set_add (endpoint, extension) candidates).

(** Lines 321-344: the body of the loop over the base patterns. *)
Definition try_extension (pattern : GraphPattern) (depth : nat)
    (p_extend : Q) (endpoint : Term)
    (candidates : list Candidate) (base_pattern : GraphPattern)
  : M (list Candidate) :=
  r ← random;
  if Qltb p_extend r then mret candidates
  else consider pattern depth endpoint (assertion base_pattern) candidates.

(** Lines 310-344: the body of the loop over the endpoints. *)
Definition try_endpoint (root_patterns : RootPatterns)
    (pattern : GraphPattern) (depth : nat) (p_explore p_extend : Q)
    (candidates : list Candidate) (endpoint : Term)
  : M (list Candidate) :=
  match root_patterns !! term_value endpoint with
  | None => mret candidates
  | Some base_patterns =>
      r ← random;
      if Qltb p_explore r then mret candidates
      else for_each (try_extension pattern depth p_extend endpoint)
                    base_patterns candidates
  end.

Definition compute_candidates (root_patterns : RootPatterns)
    (pattern : GraphPattern) (depth : nat) (p_explore p_extend : Q)
  : M (GraphPattern * list Candidate) :=
  endpoints ← lift (endpoints_of pattern depth);
  candidates ← for_each (try_endpoint root_patterns pattern depth
                                      p_explore p_extend) endpoints [];
  mret (pattern, candidates).

(** Every endpoint of [pattern] at [depth] paired with the assertion of
    every root pattern of its class, in the order of the two loops. *)
Definition all_pairs (root_patterns : RootPatterns)
    (pattern : GraphPattern) (depth : nat)
  : list (GraphPattern * Candidate) :=
  match endpoints_of pattern depth with
  | Ok endpoints =>
      endpoint ← endpoints;
      match root_patterns !! term_value endpoint with
      | Some base_patterns =>
          (λ b, (pattern, (endpoint, assertion b))) <$> base_patterns
      | None => []
      end
  | Raise _ => []
  end.

(** The world after one draw. *)
Definition drawn (w : World) : World :=
  mkWorld (S (draws w)) (locks w) (visited w) (hashed w) (log w).

(** The answer of the critical section for a pair, and the world after
    the pair has been considered. *)
Definition skipped (pattern : GraphPattern) (depth : nat) (c : Candidate)
    (w : World) : bool :=
  bool_decide (predict_hash pattern c.1 c.2 ∈ seen_under_lock w)
  || contains_at_depth pattern c.2 depth.

Definition considered (pattern : GraphPattern) (depth : nat) (c : Candidate)
    (w : World) : World :=
  mkWorld (draws w) (S (locks w))
          (if skipped pattern depth c w then seen_under_lock w
           else seen_under_lock w ++ [predict_hash pattern c.1 c.2])
          (hashed w ++ [(pattern, c)]) (log w).

End CandidateGenerator.

(** ** The Growth Driver: [generate_df] and [generate_bf] *)

Inductive Strategy := BFS | DFS.

Section GrowthDriver.

Variable rnd : nat → Q.
Variable interleaved : nat → list Z.
Variable predict_hash : GraphPattern → Term → Assertion → Z.
Variable contains_at_depth : GraphPattern → Assertion → nat → bool.

(** hypodisc.core.sequential.explore, the Pattern Extension step, and
    hypodisc.data.utils.write_query, which returns the new count. *)
Variable explore :
  GraphPattern → list Candidate → Z → Z → Z → list GraphPattern.
Variable write_query : GraphPattern → Z → Z.

(** [len(pattern)] and [pattern.width()] *)
Variable len : GraphPattern → nat.
Variable width : GraphPattern → Z.

(** The order [sorted] puts on class names. *)
Variable name_le : Resource → Resource → bool.

(** The arguments of [generate]; [out] says that both [out_writer] and
    [out_prefix_map] are given. *)
Variable root_patterns : RootPatterns.
Variable depths_stop : nat.
Variable min_support : Z.
Variable p_explore p_extend : Q.
Variable max_length max_width : Z.
Variable out : bool.

(** [sorted(list(d.keys()))] *)
Definition sorted_names (d : RootPatterns) : list Resource :=
  merge_sort (λ a b, name_le a b) (elements (dom d)).

(** [d[name]] *)
Definition item (d : RootPatterns) (name : Resource)
  : Result (list GraphPattern) :=
  match d !! name with
  | Some patterns => Ok patterns
  | None => Raise KeyError
  end.

(** [visited = manager.list()] *)
Definition new_visited : M () := λ w,
  (Ok (), mkWorld (draws w) (locks w) [] (hashed w) (log w)).

(** The condition of lines 149-150 and 244-245. *)
Definition extendable (pattern : GraphPattern) : bool :=
  bool_decide (Z.of_nat (len pattern) < max_length)
  && bool_decide (width pattern < max_width).

(** Lines 133-139 and 225-234: the derivatives an iteration starts with. *)
Definition seeds (depth : nat) (patterns : list GraphPattern)
  : list GraphPattern :=
  if bool_decide (depth ≤ 0)%nat
  then Py.set_of
         (filter (λ p, isinstance_ObjectTypeVariable (rhs (assertion p)))
                 patterns)
  else [].

Definition submit (name : Resource) (depth : nat)
    (patterns submitted : list GraphPattern) : M () := λ w,
  (Ok (), mkWorld (draws w) (locks w) (visited w) (hashed w)
                  (log w ++ [Exploring name depth patterns submitted
                                        (visited w)])).

(** Lines 167-173 and 262-268. *)
Definition write_all (extensions : list GraphPattern) (num_patterns : Z)
  : Z :=
  if out then foldl (λ n pattern, write_query pattern n)
                    num_patterns extensions
  else num_patterns.

(** Lines 141-173 and 236-268: one process pool. The workers are run to
    completion one after the other, in the order of submission. *)
Definition pool (name : Resource) (depth : nat)
    (patterns derivatives : list GraphPattern) (num_patterns : Z)
  : M (list GraphPattern * Z) :=
  let submitted := List.filter extendable patterns in
  _ ← submit name depth patterns submitted;
  fcandidates ← map_each
                  (λ pattern,
                     compute_candidates rnd interleaved predict_hash
                       contains_at_depth root_patterns pattern depth
                       p_explore p_extend)
                  submitted;
  let fextensions :=
    (λ pc : GraphPattern * list Candidate,
       explore pc.1 pc.2 max_length max_width min_support)
      <$> fcandidates in
  mret (foldl (λ acc extensions,
                 (Py.set_union acc.1 extensions,
                  write_all extensions acc.2))
              (derivatives, num_patterns) fextensions).

(** Lines 126-181: the loop over the depths of one class, with
    [remaining] iterations to go. *)
Fixpoint df_depths (remaining depth : nat) (name : Resource)
    (patterns : list GraphPattern) (num_patterns : Z) : M Z :=
  match remaining with
  | O => mret num_patterns
  | S remaining' =>
      patterns ← (if bool_decide (depth = 0)%nat
                   then lift (item root_patterns name)
                   else mret patterns);
      r ← pool name depth patterns (seeds depth patterns) num_patterns;
      _ ← tell (Discovered name depth r.1);
      if bool_decide (0 < length r.1)%nat
      then df_depths remaining' (S depth) name r.1 r.2
      else mret r.2
  end.

(** Lines 122-181: [visited] is created once for each class. The header
    line of line 123, [type name], is printed once for each class and is
    not recorded in the log, which holds the two lines of a depth
    iteration only. *)
Definition df_class (num_patterns : Z) (name : Resource) : M Z :=
  _ ← new_visited;
  df_depths depths_stop 0 name [] num_patterns.

Definition generate_df : M Z :=
  for_each df_class (sorted_names root_patterns) 0.

(** Lines 223-270: one class at one depth. *)
Definition bf_class (depth : nat) (parents : RootPatterns)
    (acc : RootPatterns * Z) (name : Resource) : M (RootPatterns * Z) :=
  patterns ← lift (item parents name);
  r ← pool name depth patterns (seeds depth patterns) acc.2;
  _ ← tell (Discovered name depth r.1);
  mret (<[name := r.1]> acc.1, r.2).

(** Lines 214-274: the loop over the depths; [visited] is created once
    for each depth. The header line of line 215, [exploring depth d / stop],
    is printed once for each depth and is not recorded in the log, which
    holds the two lines of a class at a depth only. *)
Fixpoint bf_depths (remaining depth : nat) (parents : RootPatterns)
    (num_patterns : Z) : M Z :=
  match remaining with
  | O => mret num_patterns
  | S remaining' =>
      let parents := if bool_decide (depth = 0)%nat
                     then root_patterns else parents in
      _ ← new_visited;
      r ← for_each (bf_class depth parents) (sorted_names parents)
                   (∅, num_patterns);
      bf_depths remaining' (S depth)
                (filter (λ kv, (0 < length kv.2)%nat) r.1) r.2
  end.

Definition generate_bf : M Z := bf_depths depths_stop 0 ∅ 0.

Definition generate (strategy : Strategy) : M Z :=
  match strategy with
  | BFS => generate_bf
  | DFS => generate_df
  end.

End GrowthDriver.

(** ** The Root Pattern Builder: [init_root_patterns] and
       [compute_root_patterns] *)

#[global] Instance Result_ret : MRet Result := λ X x, Ok x.

#[global] Instance Result_bind : MBind Result := λ X Y f r,
  match r with
  | Ok x => f x
  | Raise e => Raise e
  end.

(** The Graph Index (hypodisc.data.graph.KnowledgeGraph) as parallel.py
    reads it: [A p] holds the (row, col) entries of the adjacency matrix of
    relation [p], one entry of weight one for every edge; the index tables
    are defined on every identifier. *)
Record KnowledgeGraph := mkKnowledgeGraph {
  num_relations : nat;
  A : nat → list (nat * nat);
  r2i : gmap Resource nat;
  i2r : nat → Resource;
  i2n : nat → Resource;
  i2a : nat → Resource;
  ni2ai : gmap nat nat
}.

Inductive Mode := mode_A | mode_AT | mode_T.

(** ["A" in mode] and ["T" in mode] *)
Definition has_A (mode : Mode) : bool :=
  match mode with mode_A | mode_AT => true | mode_T => false end.

Definition has_T (mode : Mode) : bool :=
  match mode with mode_T | mode_AT => true | mode_A => false end.

(** The values that serve as keys of [o_freqs] and [o_value_idx_map]: a
    node index, a term, or the value of a literal. *)
Inductive PyVal :=
| PyIdx (i : nat)
| PyNode (r : Resource)
| PyStr (s : string).

#[global] Instance PyVal_eq_dec : EqDecision PyVal.
Proof. solve_decision. Defined.

#[global] Instance PyVal_countable : Countable PyVal.
Proof.
  refine (inj_countable'
            (λ v, match v with
                  | PyIdx i => inl i
                  | PyNode r => inr (inl r)
                  | PyStr s => inr (inr s)
                  end)
            (λ s, match s with
                  | inl i => PyIdx i
                  | inr (inl r) => PyNode r
                  | inr (inr s) => PyStr s
                  end) _).
  by intros [].
Defined.

Definition RDF_type : Resource :=
  IRIRef "http://www.w3.org/1999/02/22-rdf-syntax-ns#type".

Module Np.

(** [l[i]], [l[0]] and [l[-1]] *)
Definition at_index {X} (l : list X) (i : nat) : Result X :=
  match l !! i with
  | Some x => Ok x
  | None => Raise IndexError
  end.

Definition first {X} (l : list X) : Result X := at_index l 0.

Definition final {X} (l : list X) : Result X :=
  match last l with
  | Some x => Ok x
  | None => Raise IndexError
  end.

(** [{i for i, x in enumerate(l) if test(x)}] *)
Definition positions {X} (test : X → bool) (l : list X) : list nat :=
  fst <$> List.filter (λ ix : nat * X, test ix.2)
                      (zip (seq 0 (length l)) l).

(** [Counter(l)]: the distinct elements in order of first occurrence,
    each with its number of occurrences. *)
Definition Counter {X} `{EqDecision X} (l : list X) : list (X * nat) :=
  (λ k, (k, length (filter (λ x, x = k) l))) <$> Py.set_of l.

(** [[f(x) for x in l]] where [f] may raise. *)
Fixpoint traverse {X Y} (f : X → Result Y) (l : list X)
  : Result (list Y) :=
  match l with
  | [] => Ok []
  | x :: l' => y ← f x; ys ← traverse f l'; mret (y :: ys)
  end.

(** [for x in l: acc = body(acc, x)] where [body] may raise. *)
Fixpoint fold {X B} (body : B → X → Result B) (l : list X) (acc : B)
  : Result B :=
  match l with
  | [] => Ok acc
  | x :: l' => acc' ← body acc x; fold body l' acc'
  end.

(** [d[k]] *)
Definition get `{Countable K} {V} (d : gmap K V) (k : K) : Result V :=
  match d !! k with
  | Some v => Ok v
  | None => Raise KeyError
  end.

End Np.

Section RootPatternBuilder.

(** hypodisc.core.sequential: [infer_type] answers [(o_type, is_literal)];
    the three constructors answer a pattern or [None]. *)
Variable infer_type : KnowledgeGraph → nat → nat → Resource * bool.
Variable new_var_graph_pattern :
  Term → Term → list nat → Resource → gmap nat (list nat)
  → option GraphPattern.
Variable new_graph_pattern :
  Term → Resource → PyVal → Resource → list nat → gmap nat (list nat)
  → option GraphPattern.
Variable new_mm_graph_pattern :
  Term → Term → list nat → Resource → gmap nat (list nat)
  → option GraphPattern.

(** hypodisc.multimodal: the clustering of [(o_type, o_values,
    o_idx_list)], which owns the random generator [rng], and the sets of
    datatypes. *)
Variable compute_clusters :
  Resource → list string → list nat → list (list nat * string).
Variable SUPPORTED_XSD_TYPES : list Resource.
Variable XSD_STRING XSD_NUMERIC XSD_DATETIME XSD_DATEFRAG : list Resource.

Definition XSD_TEMPORAL : list Resource :=
  Py.set_union XSD_DATETIME XSD_DATEFRAG.

(** Lines 500-501, 532-533 and 577-579. *)
Definition add_supported (min_support : Z) (pattern : option GraphPattern)
    (root_patterns : list GraphPattern) : list GraphPattern :=
  match pattern with
  | Some pattern =>
      if bool_decide (min_support ≤ support pattern)
      then Py.set_add pattern root_patterns
      else root_patterns
  | None => root_patterns
  end.

(** Lines 460-465: the edges of [p_idx] that leave a class member. *)
Definition masked (kg : KnowledgeGraph) (p_idx : nat)
    (class_members_idx : list nat) : list (nat * nat) :=
  List.filter (λ e : nat * nat, bool_decide (e.1 ∈ class_members_idx))
              (A kg p_idx).

Definition s_idx_list (kg : KnowledgeGraph) (p_idx : nat)
    (class_members_idx : list nat) : list nat :=
  fst <$> masked kg p_idx class_members_idx.

Definition o_idx_list (kg : KnowledgeGraph) (p_idx : nat)
    (class_members_idx : list nat) : list nat :=
  snd <$> masked kg p_idx class_members_idx.

(** Lines 477-479. *)
Definition inverse_map (subjects objects : list nat)
  : gmap nat (list nat) :=
  Py.dict_of
    ((λ o_idx,
        (o_idx,
         Py.set_of
           (fst <$> List.filter (λ so : nat * nat, bool_decide (so.2 = o_idx))
                                (zip subjects objects))))
       <$> objects).

(** Lines 480-498: the pattern with a variable as object, if any, and
    the value of [o_type] afterwards. *)
Definition typed_pattern (kg : KnowledgeGraph) (generate_Tbox : bool)
    (rdf_type_idx : nat) (root_var : Term) (p : Resource)
    (subjects : list nat) (o_idx : nat) (o_type : Resource)
    (inv_assertion_map : gmap nat (list nat))
  : option GraphPattern * Resource :=
  match (if generate_Tbox then ni2ai kg !! o_idx else None) with
  | Some a_idx =>
      let o_type := i2a kg a_idx in
      (new_var_graph_pattern root_var (DataTypeVariable o_type)
         (Py.set_of subjects) p inv_assertion_map, o_type)
  | None =>
      let o_type_idx :=
        snd <$> List.filter (λ e : nat * nat, bool_decide (e.1 = o_idx))
                            (A kg rdf_type_idx) in
      match o_type_idx with
      | t :: _ =>
          let o_type := i2n kg t in
          (new_var_graph_pattern root_var (ObjectTypeVariable o_type)
             (Py.set_of subjects) p inv_assertion_map, o_type)
      | [] => (None, o_type)
      end
  end.

(** Lines 506-515: [o_freqs] and [o_value_idx_map]. *)
Definition bound_tables (kg : KnowledgeGraph) (multimodal is_literal : bool)
    (objects : list nat) : list (PyVal * nat) * gmap PyVal (list nat) :=
  if multimodal && is_literal then
    let o_freqs :=
      Np.Counter ((λ i, PyStr (value (i2n kg i))) <$> objects) in
    (o_freqs,
     Py.dict_of
       ((λ vf : PyVal * nat,
           (vf.1,
            Np.positions
              (λ o_idx, bool_decide (PyStr (value (i2n kg o_idx)) = vf.1))
              objects))
          <$> o_freqs))
  else
    let counted := Np.Counter objects in
    ((λ kf : nat * nat, (PyIdx kf.1, kf.2)) <$> counted,
     Py.dict_of
       ((λ kf : nat * nat,
           (PyNode (i2n kg kf.1),
            Np.positions (λ o_idx, bool_decide (kf.1 = o_idx)) objects))
          <$> counted)).

(** Lines 517-533: the body of the loop over [o_freqs.items()]. *)
Definition bound_pattern (kg : KnowledgeGraph) (min_support : Z)
    (is_literal : bool) (root_var : Term) (p o_type : Resource)
    (subjects objects : list nat)
    (o_value_idx_map : gmap PyVal (list nat))
    (root_patterns : list GraphPattern) (entry : PyVal * nat)
  : Result (list GraphPattern) :=
  if bool_decide (Z.of_nat entry.2 < min_support) then Ok root_patterns
  else
    o_value ← (if is_literal then Ok entry.1
               else match entry.1 with
                    | PyIdx k => Ok (PyNode (i2n kg k))
                    | _ => Raise TypeError
                    end);
    places ← Np.get o_value_idx_map o_value;
    members ← Np.traverse (Np.at_index subjects) places;
    let domain := Py.set_of members in
    keys ← Np.traverse (Np.at_index objects) places;
    let inv_assertion_map := Py.dict_of ((λ o, (o, domain)) <$> keys) in
    Ok (add_supported min_support
          (new_graph_pattern root_var p o_value o_type domain
                             inv_assertion_map)
          root_patterns).

(** Lines 562-579: the body of the loop over the clusters. *)
Definition cluster_pattern (min_support : Z) (root_var : Term)
    (p o_type : Resource) (os_idx_map : gmap nat nat)
    (root_patterns : list GraphPattern) (c : list nat * string)
  : Result (list GraphPattern) :=
  let var_o :=
    if bool_decide
         (o_type ∈ Py.set_union (Py.set_union XSD_NUMERIC XSD_DATETIME)
                                XSD_DATEFRAG)
    then MultiModalNumericVariable o_type c.2
    else MultiModalStringVariable o_type c.2 in
  members ← Np.traverse (Np.get os_idx_map) c.1;
  let domain := Py.set_of members in
  let inv_assertion_map := Py.dict_of ((λ o, (o, domain)) <$> c.1) in
  Ok (add_supported min_support
        (new_mm_graph_pattern root_var var_o domain p inv_assertion_map)
        root_patterns).

(** Lines 535-579. *)
Definition clustered_patterns (kg : KnowledgeGraph) (min_support : Z)
    (textual_support numerical_support temporal_support : bool)
    (root_var : Term) (p : Resource) (subjects objects : list nat)
    (root_patterns : list GraphPattern) : Result (list GraphPattern) :=
  o_idx ← Np.first objects;
  match ni2ai kg !! o_idx with
  | None => Ok root_patterns
  | Some a_idx =>
      let o_type := i2a kg a_idx in
      if negb (bool_decide (o_type ∈ SUPPORTED_XSD_TYPES))
      then Ok root_patterns
      else if negb textual_support && bool_decide (o_type ∈ XSD_STRING)
      then Ok root_patterns
      else if negb numerical_support && bool_decide (o_type ∈ XSD_NUMERIC)
      then Ok root_patterns
      else if negb temporal_support && bool_decide (o_type ∈ XSD_TEMPORAL)
      then Ok root_patterns
      else
        let o_values := (λ i, value (i2n kg i)) <$> objects in
        if bool_decide (min_support ≤ Z.of_nat (length o_values))
        then
          let os_idx_map := Py.dict_of (zip objects subjects) in
          Np.fold (cluster_pattern min_support root_var p o_type os_idx_map)
                  (compute_clusters o_type o_values objects)
                  root_patterns
        else Ok root_patterns
  end.

Definition compute_root_patterns (kg : KnowledgeGraph) (min_support : Z)
    (mode : Mode)
    (textual_support numerical_support temporal_support : bool)
    (p_idx rdf_type_idx : nat) (root_var : Term)
    (class_members_idx : list nat) : Result (list GraphPattern) :=
  let generate_Abox := has_A mode in
  let generate_Tbox := has_T mode in
  let multimodal :=
    textual_support || numerical_support || temporal_support in
  let p := i2r kg p_idx in
  let subjects := s_idx_list kg p_idx class_members_idx in
  let objects := o_idx_list kg p_idx class_members_idx in
  o_last ← Np.final objects;
  let inferred := infer_type kg rdf_type_idx o_last in
  let is_literal := inferred.2 in
  o_idx ← Np.first objects;
  let typed :=
    typed_pattern kg generate_Tbox rdf_type_idx root_var p subjects o_idx
                  inferred.1 (inverse_map subjects objects) in
  let o_type := typed.2 in
  let root_patterns := add_supported min_support typed.1 [] in
  root_patterns ←
    (if generate_Abox then
       let tables := bound_tables kg multimodal is_literal objects in
       Np.fold (bound_pattern kg min_support is_literal root_var p o_type
                              subjects objects tables.2)
               tables.1 root_patterns
     else Ok root_patterns);
  if multimodal
  then clustered_patterns kg min_support textual_support numerical_support
                          temporal_support root_var p subjects objects
                          root_patterns
  else Ok root_patterns.

(** Lines 400-403: the predicates for which [compute_root_patterns] is
    submitted. *)
Definition submitted_predicates (kg : KnowledgeGraph) (min_support : Z)
    (rdf_type_idx : nat) (class_members_idx : list nat) : list nat :=
  List.filter
    (λ p_idx,
       bool_decide (p_idx ≠ rdf_type_idx)
       && bool_decide
            (min_support ≤
             Z.of_nat (length (Py.set_inter
                                 (Py.set_of (fst <$> A kg p_idx))
                                 (Py.set_of class_members_idx)))))
    (seq 0 (num_relations kg)).

(** Lines 378-412: the body of the loop over the classes. *)
Definition class_root_patterns (kg : KnowledgeGraph) (min_support : Z)
    (mode : Mode)
    (textual_support numerical_support temporal_support : bool)
    (rdf_type_idx : nat) (root_patterns : RootPatterns) (class_idx : nat)
  : Result RootPatterns :=
  let A_type := A kg rdf_type_idx in
  let with_class :=
    List.filter (λ e : nat * nat, bool_decide (e.2 = class_idx)) A_type in
  let support := Z.of_nat (length with_class) in
  if bool_decide (support < min_support) then Ok root_patterns
  else
    let class_name := i2n kg class_idx in
    let class_members_idx := fst <$> with_class in
    let root_var := ObjectTypeVariable class_name in
    results ← Np.traverse
                (λ p_idx,
                   compute_root_patterns kg min_support mode textual_support
                     numerical_support temporal_support p_idx rdf_type_idx
                     root_var class_members_idx)
                (submitted_predicates kg min_support rdf_type_idx
                                      class_members_idx);
    let tree := foldl Py.set_union [] results in
    if bool_decide (length tree ≤ 0)%nat
    then Ok (delete class_name root_patterns)
    else Ok (<[class_name := tree]> root_patterns).

Definition init_root_patterns (kg : KnowledgeGraph) (min_support : Z)
    (mode : Mode)
    (textual_support numerical_support temporal_support : bool)
  : Result RootPatterns :=
  rdf_type_idx ← Np.get (r2i kg) RDF_type;
  let class_idx_list :=
    merge_sort Nat.le (Py.set_of (snd <$> A kg rdf_type_idx)) in
  Np.fold (class_root_patterns kg min_support mode textual_support
             numerical_support temporal_support rdf_type_idx)
          class_idx_list ∅.

End RootPatternBuilder.

(** ** Sample inputs *)

Module Sample.

Definition Person : Resource := IRIRef "Person".
Definition knows : Resource := IRIRef "knows".
Definition age : Resource := IRIRef "age".
Definition xsd_integer : Resource := IRIRef "xsd:integer".

Definition person : Term := ObjectTypeVariable Person.
Definition knows_person : Assertion := mkAssertion person knows person.
Definition has_age : Assertion :=
  mkAssertion person age (DataTypeVariable xsd_integer).

Definition knows_pattern : GraphPattern :=
  mkGraphPattern person knows_person [[knows_person]] 20.
Definition age_pattern : GraphPattern :=
  mkGraphPattern person has_age [[has_age]] 10.

(** [Person --knows--> Person --age--> integer] *)
Definition chain_pattern : GraphPattern :=
  mkGraphPattern person has_age [[knows_person]; [has_age]] 8.

Definition root_patterns : RootPatterns :=
  {[ Person := [knows_pattern; age_pattern] ]}.

(** Stand-ins for the helpers that parallel.py imports: a hash of the
    three arguments, membership in [pattern.distances[depth]], the
    number of assertions, the longest level, an extension step that adds
    each candidate one level below the last and loses one match, and a
    writer that counts. *)
Definition predict_hash (pattern : GraphPattern) (endpoint : Term)
    (extension : Assertion) : Z :=
  support pattern
  + 31 * Z.of_nat (String.length (value (term_value endpoint)))
  + 961 * Z.of_nat (String.length (value (predicate extension)))
  + 29791 * Z.of_nat (length (distances pattern)).

Definition contains_at_depth (pattern : GraphPattern)
    (extension : Assertion) (depth : nat) : bool :=
  bool_decide (extension ∈ default [] (distances pattern !! depth)).

Definition len (pattern : GraphPattern) : nat :=
  length (concat (distances pattern)).

Definition width (pattern : GraphPattern) : Z :=
  Z.of_nat (foldr Nat.max 0%nat (length <$> distances pattern)).

Definition explore (pattern : GraphPattern) (candidates : list Candidate)
    (max_length max_width min_support : Z) : list GraphPattern :=
  if bool_decide (min_support ≤ support pattern - 1
                  ∧ Z.of_nat (len pattern) + 1 < max_length)
  then (λ c : Candidate,
          mkGraphPattern (root pattern) c.2 (distances pattern ++ [[c.2]])
                         (support pattern - 1))
         <$> candidates
  else [].

Definition write_query (pattern : GraphPattern) (num_patterns : Z) : Z :=
  num_patterns + 1.

Definition name_le (a b : Resource) : bool :=
  String.leb (value a) (value b).

(** Every draw is 0, and no other worker touches the shared list. *)
Definition rnd (i : nat) : Q := 0%Q.
Definition interleaved (n : nat) : list Z := [].

(** Draws of 0.5 and a worker that adds 7 before every acquisition. *)
Definition rnd' (i : nat) : Q := (1 # 2)%Q.
Definition interleaved' (n : nat) : list Z := [7].

(** Two depths, [min_support = 5], [p_explore = p_extend = 1],
    [max_length = max_width = 4], with a writer. *)
Definition run (strategy : Strategy) : Result Z * World :=
  generate rnd interleaved predict_hash contains_at_depth explore
           write_query len width name_le root_patterns 2 5 1%Q 1%Q 4 4
           true strategy start.

Definition candidates_at (depth : nat) (pattern : GraphPattern) (w : World)
  : Result (GraphPattern * list Candidate) * World :=
  compute_candidates rnd interleaved predict_hash contains_at_depth
                     root_patterns pattern depth 1%Q 1%Q w.

(** A root pattern whose [distances] has no entry, and an index that
    holds it alone. *)
Definition bare_pattern : GraphPattern :=
  mkGraphPattern person knows_person [] 20.

Definition bare_roots : RootPatterns := {[ Person := [bare_pattern] ]}.

(** A second class, whose one root pattern leads to a Person, and the
    index of the two classes. *)
Definition Robot : Resource := IRIRef "Robot".
Definition robot : Term := ObjectTypeVariable Robot.
Definition serves : Assertion :=
  mkAssertion robot (IRIRef "serves") person.

Definition serves_pattern : GraphPattern :=
  mkGraphPattern robot serves [[serves]] 12.

Definition two_roots : RootPatterns :=
  {[ Person := [knows_pattern; age_pattern]; Robot := [serves_pattern] ]}.

(** The sample run over another index, another number of depths, with or
    without a writer. *)
Definition run_on (roots : RootPatterns) (depths_stop : nat) (out : bool)
    (strategy : Strategy) : Result Z * World :=
  generate rnd interleaved predict_hash contains_at_depth explore
           write_query len width name_le roots depths_stop 5 1%Q 1%Q 4 4
           out strategy start.

End Sample.

(** ** Sample graphs *)

Module SampleGraph.

Definition Person : Resource := IRIRef "Person".
Definition age : Resource := IRIRef "age".
Definition knows : Resource := IRIRef "knows".
Definition xsd_integer : Resource := IRIRef "xsd:integer".
Definition xsd_string : Resource := IRIRef "xsd:string".

(** Scenario B of the specification: the persons 0 to 9, the class
    Person at 10, the literals 30 at 11 and 40 at 12; six persons of age
    30 and four of age 40. Relation 0 is rdf:type, relation 1 is age. *)
Definition ages : KnowledgeGraph := {|
  num_relations := 2;
  A := λ p, match p with
            | 0%nat => (λ i, (i, 10%nat)) <$> seq 0 10
            | 1%nat => ((λ i, (i, 11%nat)) <$> seq 0 6)
                       ++ ((λ i, (i, 12%nat)) <$> seq 6 4)
            | _ => []
            end;
  r2i := {[ RDF_type := 0%nat; age := 1%nat ]};
  i2r := λ p, match p with 0%nat => RDF_type | _ => age end;
  i2n := λ i, match i with
              | 10%nat => Person
              | 11%nat => Literal "30" "xsd:integer"
              | 12%nat => Literal "40" "xsd:integer"
              | _ => IRIRef "person"
              end;
  i2a := λ _, xsd_integer;
  ni2ai := {[ 11%nat := 0%nat; 12%nat := 0%nat ]}
|}.

(** Two persons 0 and 1 of class 2; person 0 knows both, person 1 knows
    nobody. Relation 0 is rdf:type, relation 1 is knows. *)
Definition acquaintances : KnowledgeGraph := {|
  num_relations := 2;
  A := λ p, match p with
            | 0%nat => [(0, 2); (1, 2)]%nat
            | 1%nat => [(0, 0); (0, 1)]%nat
            | _ => []
            end;
  r2i := {[ RDF_type := 0%nat; knows := 1%nat ]};
  i2r := λ p, match p with 0%nat => RDF_type | _ => knows end;
  i2n := λ i, match i with
              | 2%nat => Person
              | _ => IRIRef "person"
              end;
  i2a := λ _, xsd_string;
  ni2ai := ∅
|}.

(** Alice 0 and Bob 1 of class 2; Alice knows both, Bob knows himself.
    Relation 0 is rdf:type, relation 1 is knows. *)
Definition friends : KnowledgeGraph := {|
  num_relations := 2;
  A := λ p, match p with
            | 0%nat => [(0, 2); (1, 2)]%nat
            | 1%nat => [(0, 0); (0, 1); (1, 1)]%nat
            | _ => []
            end;
  r2i := {[ RDF_type := 0%nat; knows := 1%nat ]};
  i2r := λ p, match p with 0%nat => RDF_type | _ => knows end;
  i2n := λ i, match i with
              | 0%nat => IRIRef "alice"
              | 1%nat => IRIRef "bob"
              | _ => Person
              end;
  i2a := λ _, xsd_string;
  ni2ai := ∅
|}.

(** Stand-ins for the helpers that parallel.py imports: a node is a
    literal when it has a datatype; a pattern made of one assertion is
    supported by its domain; all literals of a predicate fall in one
    cluster. *)
Definition infer_type (kg : KnowledgeGraph) (rdf_type_idx o_idx : nat)
  : Resource * bool :=
  match ni2ai kg !! o_idx with
  | Some a_idx => (i2a kg a_idx, true)
  | None => (IRIRef "rdfs:Class", false)
  end.

Definition single (root_var : Term) (p : Resource) (object : Term)
    (domain : list nat) : option GraphPattern :=
  let a := mkAssertion root_var p object in
  Some (mkGraphPattern root_var a [[a]] (Z.of_nat (length domain))).

Definition new_var_graph_pattern (root_var var_o : Term)
    (domain : list nat) (p : Resource)
    (inv_assertion_map : gmap nat (list nat)) : option GraphPattern :=
  single root_var p var_o domain.

Definition new_graph_pattern (root_var : Term) (p : Resource)
    (o_value : PyVal) (o_type : Resource) (domain : list nat)
    (inv_assertion_map : gmap nat (list nat)) : option GraphPattern :=
  match o_value with
  | PyNode r => single root_var p (Constant r) domain
  | PyStr v => single root_var p (Constant (Literal v (value o_type))) domain
  | PyIdx _ => None
  end.

Definition new_mm_graph_pattern (root_var var_o : Term)
    (domain : list nat) (p : Resource)
    (inv_assertion_map : gmap nat (list nat)) : option GraphPattern :=
  single root_var p var_o domain.

Definition compute_clusters (o_type : Resource) (o_values : list string)
    (o_idx_list : list nat) : list (list nat * string) :=
  [(o_idx_list, "all")].

Definition root_patterns_of (kg : KnowledgeGraph) (min_support : Z)
    (mode : Mode)
    (textual_support numerical_support temporal_support : bool)
    (p_idx rdf_type_idx : nat) (class_name : Resource)
    (class_members_idx : list nat) : Result (list GraphPattern) :=
  compute_root_patterns infer_type new_var_graph_pattern new_graph_pattern
    new_mm_graph_pattern compute_clusters [xsd_integer; xsd_string]
    [xsd_string] [xsd_integer] [] []
    kg min_support mode textual_support numerical_support temporal_support
    p_idx rdf_type_idx (ObjectTypeVariable class_name) class_members_idx.

Definition index_of (kg : KnowledgeGraph) (min_support : Z) (mode : Mode)
    (textual_support numerical_support temporal_support : bool)
  : Result RootPatterns :=
  init_root_patterns infer_type new_var_graph_pattern new_graph_pattern
    new_mm_graph_pattern compute_clusters [xsd_integer; xsd_string]
    [xsd_string] [xsd_integer] [] []
    kg min_support mode textual_support numerical_support temporal_support.

End SampleGraph.

(** ** The shape of the progress log *)

Definition event_name (ev : Event) : Resource :=
  match ev with
  | Exploring name _ _ _ _ | Discovered name _ _ => name
  end.

Definition event_depth (ev : Event) : nat :=
  match ev with
  | Exploring _ depth _ _ _ | Discovered _ depth _ => depth
  end.

(** The progress lines of one class. *)
Definition events_of (name : Resource) (evs : list Event) : list Event :=
  filter (λ ev, event_name ev = name) evs.

(** The depths at which a frontier was submitted. *)
Definition explored (evs : list Event) : list nat :=
  omap (λ ev, match ev with
              | Exploring _ depth _ _ _ => Some depth
              | Discovered _ _ _ => None
              end) evs.

(** The contents of the shared list at the submissions of depth [d]. *)
Definition shared_at (d : nat) (evs : list Event) : list (list Z) :=
  omap (λ ev, match ev with
              | Exploring _ depth _ _ shared =>
                  if bool_decide (depth = d) then Some shared else None
              | Discovered _ _ _ => None
              end) evs.

Section Traces.

Variable len : GraphPattern → nat.
Variable width : GraphPattern → Z.
Variable root_patterns : RootPatterns.
Variable max_length max_width : Z.

Local Abbreviation extendable := (extendable len width max_length max_width).

(** The progress lines of one class from [depth] on, with at most
    [remaining] iterations to go: an iteration submits the extendable
    patterns of its frontier, which at depth 0 is the root set of the
    class, and counts derivatives that include the seeds; the next
    iteration exists only if some derivative was counted. *)
Inductive class_trace (name : Resource) : nat → nat → list Event → Prop :=
| trace_end depth remaining : class_trace name depth remaining []
| trace_raised depth remaining frontier shared :
    (depth = 0%nat → root_patterns !! name = Some frontier) →
    class_trace name depth (S remaining)
      [Exploring name depth frontier (List.filter extendable frontier)
                 shared]
| trace_step depth remaining frontier shared derivatives rest :
    (depth = 0%nat → root_patterns !! name = Some frontier) →
    seeds depth frontier ⊆ derivatives →
    (derivatives = [] → rest = []) →
    class_trace name (S depth) remaining rest →
    class_trace name depth (S remaining)
      (Exploring name depth frontier (List.filter extendable frontier)
                 shared
       :: Discovered name depth derivatives :: rest).

(** The same for the depth-first driver, where the shared list of an
    iteration is the one the previous iteration of the class left:
    [held] is its content when the iteration starts. *)
Inductive df_trace (name : Resource)
  : nat → nat → list Z → list Event → Prop :=
| df_trace_end depth remaining held : df_trace name depth remaining held []
| df_trace_raised depth remaining held frontier :
    (depth = 0%nat → root_patterns !! name = Some frontier) →
    df_trace name depth (S remaining) held
      [Exploring name depth frontier (List.filter extendable frontier)
                 held]
| df_trace_step depth remaining held held' frontier derivatives rest :
    (depth = 0%nat → root_patterns !! name = Some frontier) →
    seeds depth frontier ⊆ derivatives →
    held ⊆ held' →
    (derivatives = [] → rest = []) →
    df_trace name (S depth) remaining held' rest →
    df_trace name depth (S remaining) held
      (Exploring name depth frontier (List.filter extendable frontier)
                 held
       :: Discovered name depth derivatives :: rest).

End Traces.

(** ** Outcomes with the exception in view *)

(** [outcome m w Q E]: from [w], [m] returns a value and a world that
    satisfy [Q], or raises an exception in a world that satisfy [E]. *)
Definition outcome {X} (m : M X) (w : World)
    (Q : X → World → Prop) (E : Exn → World → Prop) : Prop :=
  match m w with
  | (Ok x, w') => Q x w'
  | (Raise e, w') => E e w'
  end.

(** * Properties *)

(** ** Facts about the containers *)

Module PyFacts.
Import Py.

Lemma elem_of_set_add {A} `{EqDecision A} (x y : A) (s : list A) :
  y ∈ set_add x s ↔ y = x ∨ y ∈ s.
Proof.
  unfold set_add. case_bool_decide as Hx.
  - split; [by right|]. intros [->|?]; done.
  - rewrite elem_of_app, list_elem_of_singleton. tauto.
Qed.

Lemma elem_of_set_union {A} `{EqDecision A} (y : A) (t s : list A) :
  y ∈ set_union s t ↔ y ∈ s ∨ y ∈ t.
Proof.
  unfold set_union. revert s.
  induction t as [|x t IH]; intros s; simpl.
  - rewrite elem_of_nil. tauto.
  - rewrite IH, elem_of_set_add, elem_of_cons. tauto.
Qed.

Lemma elem_of_set_of {A} `{EqDecision A} (y : A) (l : list A) :
  y ∈ set_of l ↔ y ∈ l.
Proof.
  unfold set_of. rewrite elem_of_set_union, elem_of_nil. tauto.
Qed.

Lemma NoDup_set_add {A} `{EqDecision A} (x : A) (s : list A) :
  NoDup s → NoDup (set_add x s).
Proof.
  intros Hs. unfold set_add. case_bool_decide as Hx; [done|].
  apply NoDup_app. split_and!; [done| |apply NoDup_singleton].
  intros y Hy ->%list_elem_of_singleton. done.
Qed.

Lemma NoDup_set_union {A} `{EqDecision A} (t s : list A) :
  NoDup s → NoDup (set_union s t).
Proof.
  unfold set_union. revert s.
  induction t as [|x t IH]; intros s Hs; simpl; [done|].
  by apply IH, NoDup_set_add.
Qed.

Lemma NoDup_set_of {A} `{EqDecision A} (l : list A) : NoDup (set_of l).
Proof. apply NoDup_set_union, NoDup_nil_2. Qed.

Lemma elem_of_set_inter {A} `{EqDecision A} (y : A) (s t : list A) :
  y ∈ set_inter s t ↔ y ∈ s ∧ y ∈ t.
Proof.
  unfold set_inter. rewrite !list_elem_of_In, filter_In, <- !list_elem_of_In.
  rewrite bool_decide_eq_true. tauto.
Qed.

Lemma NoDup_set_inter {A} `{EqDecision A} (s t : list A) :
  NoDup s → NoDup (set_inter s t).
Proof.
  intros Hs. unfold set_inter. apply NoDup_ListNoDup, List.NoDup_filter.
  by apply NoDup_ListNoDup.
Qed.

Lemma set_union_nil_inv {A} `{EqDecision A} (s t : list A) :
  set_union s t = [] → s = [] ∧ t = [].
Proof.
  intros Hu.
  assert (Hno : ∀ y, y ∈ s ∨ y ∈ t → False).
  { intros y Hy. apply (elem_of_set_union y t s) in Hy.
    rewrite Hu in Hy. by apply elem_of_nil in Hy. }
  split.
  - destruct s as [|a s]; [done|]. destruct (Hno a). left. left.
  - destruct t as [|a t]; [done|]. destruct (Hno a). right. left.
Qed.

End PyFacts.

Lemma Qltb_lt a b : Qltb a b = true ↔ (a < b)%Q.
Proof.
  unfold Qltb. rewrite negb_true_iff, <- not_true_iff_false, Qle_bool_iff.
  split; [apply Qnot_le_lt | apply Qlt_not_le].
Qed.

(** ** Reasoning about runs *)

Module Run.

Lemma post_ret {X} (x : X) w (Q : X → World → Prop) E :
  Q x w → post (mret x) w Q E.
Proof. done. Qed.

Lemma post_lift {X} (r : Result X) w (Q : X → World → Prop) (E : World → Prop) :
  match r with Ok x => Q x w | Raise _ => E w end → post (lift r) w Q E.
Proof. unfold post, lift. by destruct r. Qed.

Lemma post_bind {X Y} (m : M X) (f : X → M Y) w (Q : Y → World → Prop) E :
  post m w (λ x w', post (f x) w' Q E) E → post (x ← m; f x) w Q E.
Proof.
  unfold post, mbind, M_bind. destruct (m w) as [[x|e] w']; done.
Qed.

Lemma post_mono {X} (m : M X) w (Q Q' : X → World → Prop) (E E' : World → Prop) :
  post m w Q E → (∀ x w', Q x w' → Q' x w') → (∀ w', E w' → E' w') →
  post m w Q' E'.
Proof.
  unfold post. destruct (m w) as [[x|e] w']; eauto.
Qed.

(** The rule of a [for] loop: [I past acc] holds when the elements
    [past] have been processed. *)
Lemma post_for_each {X Y} (I : list X → Y → World → Prop) (E : World → Prop)
    (body : Y → X → M Y) (l : list X) (acc : Y) w :
  I [] acc w →
  (∀ past x rest acc w, l = past ++ x :: rest → I past acc w →
     post (body acc x) w (I (past ++ [x])) E) →
  post (for_each body l acc) w (I l) E.
Proof.
  intros H0 Hbody.
  enough (Hgen : ∀ rest past acc w, l = past ++ rest → I past acc w →
            post (for_each body rest acc) w (I l) E).
  { by apply (Hgen l []). }
  induction rest as [|x rest IH]; intros past acc' w' Hl HI; simpl.
  - apply post_ret. rewrite app_nil_r in Hl. by subst.
  - apply post_bind.
    apply (post_mono _ _ (I (past ++ [x])) _ E E); [|  |done].
    + by apply (Hbody past x rest).
    + intros acc'' w'' HI'. apply (IH (past ++ [x])); [|done].
      by rewrite <- app_assoc.
Qed.

Lemma post_map_each {X Y} (I : World → Prop) (R : X → Y → Prop)
    (f : X → M Y) (l : list X) w :
  I w →
  (∀ x w, x ∈ l → I w → post (f x) w (λ y w', R x y ∧ I w') I) →
  post (map_each f l) w (λ ys w', Forall2 R l ys ∧ I w') I.
Proof.
  revert w. induction l as [|x l IH]; intros w HI Hf; simpl.
  - by apply post_ret.
  - apply post_bind. eapply post_mono; [apply Hf; [left|done]| |done].
    intros y w' [Hy HI']. simpl. apply post_bind.
    eapply post_mono; [apply IH; [done|]| |done].
    + intros x' w'' Hx'. apply Hf. by right.
    + intros ys w'' [Hys HI'']. simpl. apply post_ret. split; [|done].
      by constructor.
Qed.

End Run.

Import Run PyFacts.

(** ** The Candidate Generator *)

Lemma never_skipped (p r : Q) : (p == 1)%Q → (r < 1)%Q → Qltb p r = false.
Proof.
  intros Hp Hr. destruct (Qltb p r) eqn:Hlt; [|done].
  apply Qltb_lt in Hlt. rewrite Hp in Hlt.
  destruct (Qlt_irrefl 1). by apply Qlt_trans with r.
Qed.

Section CandidateFacts.

Variable rnd : nat → Q.
Variable interleaved : nat → list Z.
Variable predict_hash : GraphPattern → Term → Assertion → Z.
Variable contains_at_depth : GraphPattern → Assertion → nat → bool.

Local Abbreviation candidates_of :=
  (compute_candidates rnd interleaved predict_hash contains_at_depth).
Local Abbreviation seen_by := (seen_under_lock interleaved).
Local Abbreviation skips :=
  (skipped interleaved predict_hash contains_at_depth).
Local Abbreviation after :=
  (considered interleaved predict_hash contains_at_depth).

Lemma consider_eq pattern depth e x cands w :
  consider interleaved predict_hash contains_at_depth pattern depth e x
           cands w
  = (Ok (if skips pattern depth (e, x) w then cands
         else Py.set_add (e, x) cands),
     after pattern depth (e, x) w).
Proof.
  unfold consider, considered, skipped, mbind, M_bind, hash_of,
    locked_check, seen_under_lock; simpl.
  by destruct (_ || _).
Qed.

(** An invariant of the two loops is an invariant of the run. *)
Lemma candidates_rule (I : list Candidate → World → Prop)
    root_patterns pattern depth p_explore p_extend endpoints w :
  endpoints_of pattern depth = Ok endpoints →
  (∀ cands w, I cands w → I cands (drawn w)) →
  (∀ cands w e b base_patterns,
     e ∈ endpoints → root_patterns !! term_value e = Some base_patterns →
     b ∈ base_patterns → I cands w →
     I (if skips pattern depth (e, assertion b) w then cands
        else Py.set_add (e, assertion b) cands)
       (after pattern depth (e, assertion b) w)) →
  I [] w →
  post (candidates_of root_patterns pattern depth p_explore p_extend) w
       (λ r w', r.1 = pattern ∧ I r.2 w') (λ _, False).
Proof.
  intros Heps Hdraw Hpair H0. unfold compute_candidates.
  apply post_bind, post_lift. rewrite Heps. apply post_bind.
  eapply post_mono;
    [apply (post_for_each (λ _ cands w, I cands w) (λ _, False))| |done].
  - done.
  - intros past e rest cands w1 Hl HI. unfold try_endpoint.
    assert (He : e ∈ endpoints).
    { rewrite Hl, elem_of_app, elem_of_cons. tauto. }
    destruct (root_patterns !! term_value e) as [bases|] eqn:Hbases;
      [|by apply post_ret].
    apply post_bind. unfold post at 1, random. simpl.
    destruct (Qltb p_explore _); [by apply post_ret, Hdraw|].
    apply (post_for_each (λ _ cands w, I cands w) (λ _, False));
      [by apply Hdraw|].
    intros past' b rest' cands' w2 Hl' HI'. unfold try_extension.
    assert (Hb : b ∈ bases).
    { rewrite Hl', elem_of_app, elem_of_cons. tauto. }
    apply post_bind. unfold post at 1, random. simpl.
    destruct (Qltb p_extend _); [by apply post_ret, Hdraw|].
    unfold post. rewrite consider_eq. eapply Hpair; eauto.
  - intros cands w' HI. by apply post_ret.
Qed.

Lemma candidates_raise root_patterns pattern depth p_explore p_extend e w :
  endpoints_of pattern depth = Raise e →
  candidates_of root_patterns pattern depth p_explore p_extend w
  = (Raise e, w).
Proof.
  intros Heps. unfold compute_candidates, mbind, M_bind, lift.
  by rewrite Heps.
Qed.

Local Abbreviation hash_in pattern :=
  (λ c : Candidate, predict_hash pattern c.1 c.2).

Lemma seen_by_visited w : visited w ⊆ seen_by w.
Proof. intros h Hh. unfold seen_under_lock. apply elem_of_app. by left. Qed.

Lemma considered_visited pattern depth c w :
  visited w ⊆ visited (after pattern depth c w).
Proof.
  intros h Hh%seen_by_visited. simpl.
  destruct (skips _ _ _ _); [done|]. apply elem_of_app. by left.
Qed.

(** Whatever a run accepts was not in the shared list when the run
    started and is in it when the run ends; the list only grows; the
    progress log is left alone. *)
Lemma accepted_fresh root_patterns pattern depth p_explore p_extend w r w' :
  candidates_of root_patterns pattern depth p_explore p_extend w
  = (Ok r, w') →
  r.1 = pattern ∧ visited w ⊆ visited w' ∧ log w' = log w ∧
  ∀ c, c ∈ r.2 →
       hash_in pattern c ∈ visited w' ∧ hash_in pattern c ∉ visited w.
Proof.
  intros Hrun.
  destruct (endpoints_of pattern depth) as [eps|e] eqn:Heps;
    [|by rewrite (candidates_raise _ _ _ _ _ e) in Hrun].
  pose proof (candidates_rule
    (λ cands w1, visited w ⊆ visited w1 ∧ log w1 = log w ∧
                 ∀ c, c ∈ cands → hash_in pattern c ∈ visited w1
                                  ∧ hash_in pattern c ∉ visited w)
    root_patterns pattern depth p_explore p_extend eps w Heps) as Hrule.
  unfold post in Hrule. rewrite Hrun in Hrule.
  destruct Hrule as (? & ? & ? & ?); try done.
  - intros cands w1 e b bases _ _ _ (Hsub & Hlog & Hc).
    pose proof (considered_visited pattern depth (e, assertion b) w1)
      as Hgrow.
    split_and!; [by etrans|done|].
    intros c Hin.
    destruct (skips pattern depth (e, assertion b) w1) eqn:Hskip.
    + destruct (Hc c Hin). split; [|done]. by apply Hgrow.
    + apply elem_of_set_add in Hin as [->|Hin].
      * unfold considered. simpl. rewrite Hskip.
        split; [apply elem_of_app; right; left|].
        intros Hold. unfold skipped in Hskip.
        apply orb_false_iff in Hskip as [Hnew%bool_decide_eq_false _].
        apply Hnew, seen_by_visited, Hsub, Hold.
      * destruct (Hc c Hin). split; [|done]. by apply Hgrow.
  - split_and!; [done..|]. intros c Hin. by apply elem_of_nil in Hin.
Qed.

(** A run only extends the shared list and leaves the progress log
    alone; when it raises, it does so before it has done anything. *)
Lemma candidates_world root_patterns pattern depth p_explore p_extend w :
  post (candidates_of root_patterns pattern depth p_explore p_extend) w
       (λ _ w', visited w ⊆ visited w' ∧ log w' = log w)
       (λ w', w' = w).
Proof.
  unfold post.
  destruct (candidates_of _ _ _ _ _ w) as [[r|exn] w'] eqn:Hrun.
  - apply accepted_fresh in Hrun. tauto.
  - destruct (endpoints_of pattern depth) as [eps|e] eqn:Heps.
    + pose proof (candidates_rule (λ _ _, True) root_patterns pattern depth
                    p_explore p_extend eps w Heps) as Hrule.
      unfold post in Hrule. rewrite Hrun in Hrule. by destruct Hrule.
    + rewrite (candidates_raise _ _ _ _ _ e) in Hrun by done.
      by injection Hrun.
Qed.


(** With both probabilities at one no draw skips anything. *)
Section Unsampled.

Hypothesis rnd_below_one : ∀ i, (rnd i < 1)%Q.
Variables p_explore p_extend : Q.
Hypothesis explore_all : (p_explore == 1)%Q.
Hypothesis extend_all : (p_extend == 1)%Q.

Lemma extensions_hashed pattern depth e base_patterns cands w :
  post (for_each (try_extension rnd interleaved predict_hash
                    contains_at_depth pattern depth p_extend e)
                 base_patterns cands) w
       (λ _ w', hashed w' =
                hashed w ++ ((λ b, (pattern, (e, assertion b)))
                               <$> base_patterns))
       (λ _, False).
Proof.
  eapply post_mono;
    [apply (post_for_each
              (λ past _ w', hashed w' =
                 hashed w ++ ((λ b, (pattern, (e, assertion b)))
                                <$> past))
              (λ _, False))|done|done].
  - simpl. by rewrite app_nil_r.
  - intros past b rest cands' w1 _ Hw1. unfold try_extension.
    apply post_bind. unfold post at 1, random. simpl.
    rewrite never_skipped by done.
    unfold post. rewrite consider_eq. simpl.
    by rewrite Hw1, fmap_app, app_assoc.
Qed.

Lemma hashed_all_pairs root_patterns pattern depth w :
  hashed (candidates_of root_patterns pattern depth p_explore p_extend w).2
  = hashed w ++ all_pairs root_patterns pattern depth.
Proof.
  unfold all_pairs.
  destruct (endpoints_of pattern depth) as [eps|e] eqn:Heps;
    [|by rewrite (candidates_raise _ _ _ _ _ e), app_nil_r].
  pose (expand := λ endpoint : Term,
          match root_patterns !! term_value endpoint with
          | Some base_patterns =>
              (λ b, (pattern, (endpoint, assertion b))) <$> base_patterns
          | None => []
          end).
  assert (Hloop :
    post (for_each
            (try_endpoint rnd interleaved predict_hash contains_at_depth
                          root_patterns pattern depth p_explore p_extend)
            eps []) w
         (λ _ w', hashed w' = hashed w ++ (eps ≫= expand))
         (λ _, False)).
  { eapply post_mono;
      [apply (post_for_each
                (λ past (_ : list Candidate) w',
                   hashed w' = hashed w ++ (past ≫= expand))
                (λ _, False))|done|done].
    - simpl. by rewrite app_nil_r.
    - intros past x rest cands' w1 _ Hw1. unfold try_endpoint.
      rewrite bind_app, bind_singleton. unfold expand at 2.
      destruct (root_patterns !! term_value x) as [bases|];
        [|apply post_ret; by rewrite app_nil_r].
      apply post_bind. unfold post at 1, random. simpl.
      rewrite never_skipped by done.
      eapply post_mono; [apply extensions_hashed| |done].
      intros ? w2 Hw2. simpl in Hw2. by rewrite Hw2, Hw1, app_assoc. }
  unfold compute_candidates, mbind at 1 2, M_bind, lift. rewrite Heps.
  unfold post in Hloop.
  by destruct (for_each _ eps [] w) as [[cands|exn] w'].
Qed.

End Unsampled.

(** An accepted endpoint is one of the endpoints of the pattern. *)
Lemma accepted_endpoint root_patterns pattern depth p_explore p_extend
    w r w' :
  candidates_of root_patterns pattern depth p_explore p_extend w
  = (Ok r, w') →
  ∃ endpoints, endpoints_of pattern depth = Ok endpoints
               ∧ ∀ c, c ∈ r.2 → c.1 ∈ endpoints.
Proof.
  intros Hrun.
  destruct (endpoints_of pattern depth) as [eps|e] eqn:Heps;
    [|by rewrite (candidates_raise _ _ _ _ _ e) in Hrun].
  exists eps. split; [done|].
  pose proof (candidates_rule
    (λ cands _, ∀ c, c ∈ cands → c.1 ∈ eps)
    root_patterns pattern depth p_explore p_extend eps w Heps) as Hrule.
  unfold post in Hrule. rewrite Hrun in Hrule.
  destruct Hrule as [_ Hr]; try done.
  - intros cands w1 e b bases He _ _ Hc c Hin.
    destruct (skips _ _ _ _); [by apply Hc|].
    apply elem_of_set_add in Hin as [->|Hin]; [done|by apply Hc].
  - intros c Hin. by apply elem_of_nil in Hin.
Qed.

End CandidateFacts.

Lemma isinstance_ObjectTypeVariable_spec (t : Term) :
  isinstance_ObjectTypeVariable t ↔ ∃ class, t = ObjectTypeVariable class.
Proof.
  destruct t; simpl; split; try done; eauto; by intros [? [=]].
Qed.

Lemma endpoints_of_introduced pattern depth introduced :
  (0 < depth)%nat → distances pattern !! (depth - 1)%nat = Some introduced →
  ∃ endpoints,
    endpoints_of pattern depth = Ok endpoints ∧ NoDup endpoints
    ∧ ∀ e, e ∈ endpoints ↔
           (∃ class, e = ObjectTypeVariable class)
           ∧ ∃ a, a ∈ introduced ∧ rhs a = e.
Proof.
  intros Hd Hlook. unfold endpoints_of.
  rewrite bool_decide_eq_false_2 by lia. rewrite Hlook.
  eexists. split; [done|]. split.
  { apply NoDup_set_union, NoDup_nil_2. }
  intros e. rewrite elem_of_set_of, list_elem_of_fmap.
  setoid_rewrite list_elem_of_filter.
  setoid_rewrite isinstance_ObjectTypeVariable_spec.
  split.
  - intros (a & -> & Hotv & Ha). eauto.
  - intros (Hotv & a & Ha & <-). eauto.
Qed.

(** C5. The endpoints of a pattern at depth 0 are its root variable alone;
    at a depth d > 0 they are exactly the ObjectTypeVariables on the
    right-hand side of the assertions introduced at depth d - 1 (a depth
    without such an entry raises); hence every endpoint of a candidate that
    [compute_candidates] accepts at a depth above 0 is an ObjectTypeVariable
    of that kind, never a DataTypeVariable or a multimodal variable. *)
Theorem leaf_closure (pattern : GraphPattern) :
  endpoints_of pattern 0 = Ok [root pattern]
  ∧ (∀ depth, (0 < depth)%nat →
       match distances pattern !! (depth - 1)%nat with
       | Some introduced =>
           ∃ endpoints,
             endpoints_of pattern depth = Ok endpoints ∧ NoDup endpoints
             ∧ ∀ e, e ∈ endpoints ↔
                    (∃ class, e = ObjectTypeVariable class)
                    ∧ ∃ a, a ∈ introduced ∧ rhs a = e
       | None => endpoints_of pattern depth = Raise KeyError
       end)
  ∧ (∀ rnd interleaved predict_hash contains_at_depth root_patterns depth
       p_explore p_extend w r w',
       (0 < depth)%nat →
       compute_candidates rnd interleaved predict_hash contains_at_depth
         root_patterns pattern depth p_explore p_extend w = (Ok r, w') →
       ∀ c, c ∈ r.2 →
         ∃ class introduced a,
           c.1 = ObjectTypeVariable class
           ∧ distances pattern !! (depth - 1)%nat = Some introduced
           ∧ a ∈ introduced ∧ rhs a = c.1).
Proof.
  split_and!.
  - done.
  - intros depth Hd.
    destruct (distances pattern !! (depth - 1)%nat) as [introduced|] eqn:Hlook.
    + by apply endpoints_of_introduced.
    + unfold endpoints_of. rewrite bool_decide_eq_false_2 by lia.
      by rewrite Hlook.
  - intros rnd il ph cad rp depth pe px w r w' Hd Hrun c Hc.
    destruct (accepted_endpoint _ _ _ _ _ _ _ _ _ _ _ _ Hrun)
      as (eps & Heps & Hin).
    destruct (distances pattern !! (depth - 1)%nat) as [introduced|] eqn:Hlook.
    + destruct (endpoints_of_introduced _ _ _ Hd Hlook)
        as (eps' & Heps' & _ & Hchar).
      rewrite Heps in Heps'. injection Heps' as <-.
      apply Hin, Hchar in Hc as ([class Hclass] & a & Ha & Hrhs).
      by exists class, introduced, a.
    + unfold endpoints_of in Heps.
      rewrite bool_decide_eq_false_2 in Heps by lia. by rewrite Hlook in Heps.
Qed.

(** C4. With [p_explore = p_extend = 1] and draws below one, the pairs that
    [compute_candidates] hands to [predict_hash], before the shared list is
    consulted, are every endpoint paired with every root pattern of its
    class: the same in any two runs, whatever the draws, the content of
    the shared list and the hashes that other workers add in between. *)
Theorem determinism_at_one
    (rnd1 rnd2 : nat → Q) (interleaved1 interleaved2 : nat → list Z)
    predict_hash contains_at_depth root_patterns pattern depth
    (p_explore p_extend : Q) (w1 w2 : World) :
  (∀ i, (rnd1 i < 1)%Q) → (∀ i, (rnd2 i < 1)%Q) →
  (p_explore == 1)%Q → (p_extend == 1)%Q →
  pairs_considered
    (compute_candidates rnd1 interleaved1 predict_hash contains_at_depth
       root_patterns pattern depth p_explore p_extend) w1
  = all_pairs root_patterns pattern depth
  ∧ pairs_considered
      (compute_candidates rnd2 interleaved2 predict_hash contains_at_depth
         root_patterns pattern depth p_explore p_extend) w2
    = pairs_considered
        (compute_candidates rnd1 interleaved1 predict_hash contains_at_depth
           root_patterns pattern depth p_explore p_extend) w1.
Proof.
  intros Hr1 Hr2 He Hx. unfold pairs_considered.
  rewrite !hashed_all_pairs by done.
  by rewrite !drop_app_length.
Qed.

(** C3. Inside the critical section a pair is accepted exactly when its
    predicted hash is not in the shared list as the lock holder sees it and
    the pattern does not contain the extension at this depth; an accepted
    hash is appended to the list. So every candidate a run returns has its
    hash in the list afterwards, and a second run on the same pattern that
    starts from that list (or a longer one) accepts none of these hashes
    again. *)
Theorem dedup_idempotence
    (rnd1 rnd2 : nat → Q) (interleaved1 interleaved2 : nat → list Z)
    predict_hash contains_at_depth root_patterns pattern depth
    (p_explore p_extend : Q) :
  (∀ e x cands w,
     ∃ skip : bool,
       (locked_check interleaved1 contains_at_depth pattern x depth
                     (predict_hash pattern e x) w).1 = Ok skip
       ∧ (skip = false ↔
          (predict_hash pattern e x ∉ seen_under_lock interleaved1 w)
          ∧ contains_at_depth pattern x depth = false)
       ∧ (consider interleaved1 predict_hash contains_at_depth pattern depth
                   e x cands w).1
         = Ok (if skip then cands else Py.set_add (e, x) cands)
       ∧ visited (consider interleaved1 predict_hash contains_at_depth
                           pattern depth e x cands w).2
         = if skip then seen_under_lock interleaved1 w
           else seen_under_lock interleaved1 w ++ [predict_hash pattern e x])
  ∧ (∀ w1 r1 w1' w2 r2 w2',
       compute_candidates rnd1 interleaved1 predict_hash contains_at_depth
         root_patterns pattern depth p_explore p_extend w1 = (Ok r1, w1') →
       visited w1' ⊆ visited w2 →
       compute_candidates rnd2 interleaved2 predict_hash contains_at_depth
         root_patterns pattern depth p_explore p_extend w2 = (Ok r2, w2') →
       (∀ c, c ∈ r1.2 → predict_hash pattern c.1 c.2 ∈ visited w1')
       ∧ (∀ c, c ∈ r2.2 →
            (predict_hash pattern c.1 c.2 ∉ visited w1')
            ∧ ∀ c1, c1 ∈ r1.2 →
                    predict_hash pattern c.1 c.2
                    ≠ predict_hash pattern c1.1 c1.2)).
Proof.
  split.
  - intros e x cands w.
    exists (skipped interleaved1 predict_hash contains_at_depth pattern depth
                    (e, x) w).
    rewrite consider_eq. unfold skipped. simpl. split_and!; try done.
    rewrite orb_false_iff, bool_decide_eq_false. tauto.
  - intros w1 r1 w1' w2 r2 w2' Hrun1 Hsub Hrun2.
    apply accepted_fresh in Hrun1 as (_ & _ & _ & H1).
    apply accepted_fresh in Hrun2 as (_ & _ & _ & H2).
    split; [intros c Hc; by apply H1|].
    intros c Hc. destruct (H2 c Hc) as [_ Hnew].
    split; [by intros ?%Hsub|].
    intros c1 Hc1 Heq. apply Hnew, Hsub. rewrite Heq. by apply H1.
Qed.

(** ** The Growth Driver *)

Section DriverFacts.

Variable rnd : nat → Q.
Variable interleaved : nat → list Z.
Variable predict_hash : GraphPattern → Term → Assertion → Z.
Variable contains_at_depth : GraphPattern → Assertion → nat → bool.
Variable explore :
  GraphPattern → list Candidate → Z → Z → Z → list GraphPattern.
Variable write_query : GraphPattern → Z → Z.
Variable len : GraphPattern → nat.
Variable width : GraphPattern → Z.
Variable name_le : Resource → Resource → bool.
Variable root_patterns : RootPatterns.
Variable depths_stop : nat.
Variable min_support : Z.
Variable p_explore p_extend : Q.
Variable max_length max_width : Z.
Variable out : bool.

Local Abbreviation extendable :=
  (extendable len width max_length max_width).
Local Abbreviation pool :=
  (pool rnd interleaved predict_hash contains_at_depth explore write_query
        len width root_patterns min_support p_explore p_extend max_length
        max_width out).
Local Abbreviation df_depths :=
  (df_depths rnd interleaved predict_hash contains_at_depth explore
             write_query len width root_patterns min_support p_explore
             p_extend max_length max_width out).
Local Abbreviation df_class :=
  (df_class rnd interleaved predict_hash contains_at_depth explore
            write_query len width root_patterns depths_stop min_support
            p_explore p_extend max_length max_width out).
Local Abbreviation generate_df :=
  (generate_df rnd interleaved predict_hash contains_at_depth explore
               write_query len width name_le root_patterns depths_stop
               min_support p_explore p_extend max_length max_width out).
Local Abbreviation bf_class :=
  (bf_class rnd interleaved predict_hash contains_at_depth explore
            write_query len width root_patterns min_support p_explore
            p_extend max_length max_width out).
Local Abbreviation bf_depths :=
  (bf_depths rnd interleaved predict_hash contains_at_depth explore
             write_query len width name_le root_patterns min_support
             p_explore p_extend max_length max_width out).
Local Abbreviation generate_bf :=
  (generate_bf rnd interleaved predict_hash contains_at_depth explore
               write_query len width name_le root_patterns depths_stop
               min_support p_explore p_extend max_length max_width out).
Local Abbreviation class_trace :=
  (class_trace len width root_patterns max_length max_width).
Local Abbreviation df_trace :=
  (df_trace len width root_patterns max_length max_width).

Lemma derivatives_kept (fextensions : list (list GraphPattern))
    (derivatives : list GraphPattern) (num_patterns : Z) :
  derivatives ⊆
    (foldl (λ acc extensions,
              (Py.set_union acc.1 extensions,
               write_all write_query out extensions acc.2))
           (derivatives, num_patterns) fextensions).1.
Proof.
  revert derivatives num_patterns.
  induction fextensions as [|exts l IH]; intros derivs n; simpl; [done|].
  etrans; [|apply IH]. intros p Hp. simpl. apply elem_of_set_union.
  by left.
Qed.

(** One pool writes one [Exploring] line, with the shared list as it
    finds it, only extends that list, and keeps the derivatives it was
    given. *)
Lemma pool_spec name depth patterns derivatives num_patterns w :
  post (pool name depth patterns derivatives num_patterns) w
       (λ r w',
          log w' = log w ++ [Exploring name depth patterns
                               (List.filter extendable patterns)
                               (visited w)]
          ∧ visited w ⊆ visited w' ∧ derivatives ⊆ r.1)
       (λ w',
          log w' = log w ++ [Exploring name depth patterns
                               (List.filter extendable patterns)
                               (visited w)]).
Proof.
  unfold pool. apply post_bind. unfold post at 1, submit.
  set (ws := mkWorld _ _ _ _ _).
  apply post_bind.
  eapply post_mono;
    [apply (post_map_each
              (λ w1, log w1 = log ws ∧ visited ws ⊆ visited w1)
              (λ _ _, True))| |].
  - done.
  - intros pattern w1 _ [Hlog Hvis].
    eapply post_mono; [apply candidates_world| |].
    + intros r w2 [Hvis2 Hlog2]. split; [done|].
      split; [congruence|by etrans].
    + by intros w2 ->.
  - intros fcandidates w1 (_ & Hlog & Hvis). apply post_ret.
    split_and!; [done..|apply derivatives_kept].
  - by intros w1 [Hlog _].
Qed.

(** *** Depth first *)

Lemma df_depths_trace remaining : ∀ depth name patterns num_patterns w,
  let shape w' :=
    ∃ evs, log w' = log w ++ evs
           ∧ df_trace name depth remaining (visited w) evs in
  post (df_depths remaining depth name patterns num_patterns) w
       (λ _, shape) shape.
Proof.
  induction remaining as [|remaining IH];
    intros depth name patterns num_patterns w shape; simpl.
  { apply post_ret. exists []. rewrite app_nil_r. split; [done|constructor]. }
  assert (Hiter : ∀ frontier,
    (depth = 0%nat → root_patterns !! name = Some frontier) →
    post (r ← pool name depth frontier (seeds depth frontier) num_patterns;
          _ ← tell (Discovered name depth r.1);
          if bool_decide (0 < length r.1)%nat
          then df_depths remaining (S depth) name r.1 r.2
          else mret r.2) w (λ _, shape) shape).
  { intros frontier Hfrontier. apply post_bind.
    eapply post_mono; [apply pool_spec| |].
    - intros r w1 (Hlog & Hvis & Hseeds). apply post_bind.
      unfold post at 1, tell. set (w2 := mkWorld _ _ _ _ _).
      case_bool_decide as Hlen.
      + assert (Hrest : ∀ w',
          (∃ evs, log w' = log w2 ++ evs
                  ∧ df_trace name (S depth) remaining (visited w2) evs) →
          shape w').
        { intros w' (evs & Hlog2 & Htrace).
          exists (Exploring name depth frontier
                    (List.filter extendable frontier) (visited w)
                  :: Discovered name depth r.1 :: evs).
          split.
          - rewrite Hlog2. simpl. by rewrite Hlog, <- !app_assoc.
          - eapply df_trace_step; eauto.
            intros Hnil. rewrite Hnil in Hlen. simpl in Hlen. lia. }
        pose proof (IH (S depth) name r.1 r.2 w2) as IH'. cbv zeta in IH'.
        eapply post_mono; [exact IH'| |]; intros; by apply Hrest.
      + apply post_ret.
        exists [Exploring name depth frontier
                  (List.filter extendable frontier) (visited w);
                Discovered name depth r.1].
        split.
        * simpl. rewrite Hlog, <- app_assoc. reflexivity.
        * eapply df_trace_step; eauto. constructor.
    - intros w1 Hlog. eexists. split; [exact Hlog|]. by constructor. }
  apply post_bind. case_bool_decide as Hdepth.
  - apply post_lift. unfold item.
    destruct (root_patterns !! name) as [frontier|] eqn:Hlook.
    + by apply Hiter.
    + exists []. rewrite app_nil_r. split; [done|constructor].
  - apply post_ret. apply Hiter. by intros ?.
Qed.

Lemma df_class_trace num_patterns name w :
  let shape w' :=
    ∃ evs, log w' = log w ++ evs ∧ df_trace name 0 depths_stop [] evs in
  post (df_class num_patterns name) w (λ _, shape) shape.
Proof.
  intros shape. unfold df_class. apply post_bind.
  unfold post at 1, new_visited.
  apply (df_depths_trace depths_stop 0 name [] num_patterns
           (mkWorld (draws w) (locks w) [] (hashed w) (log w))).
Qed.

Lemma df_trace_idle (names : list Resource) :
  Forall2 (λ n evs, df_trace n 0 depths_stop [] evs) names
          (replicate (length names) []).
Proof. induction names; simpl; constructor; [constructor|done]. Qed.

Lemma concat_replicate_nil {X} n : concat (replicate n (@nil X)) = [].
Proof. induction n; simpl; done. Qed.

(** The log of [generate_df] is the traces of the classes, one after
    the other. *)
Lemma generate_df_traces w :
  let shape w' :=
    ∃ evss, log w' = log w ++ concat evss
            ∧ Forall2 (λ n evs, df_trace n 0 depths_stop [] evs)
                      (sorted_names name_le root_patterns) evss in
  post generate_df w (λ _, shape) shape.
Proof.
  intros shape. unfold generate_df.
  eapply post_mono;
    [apply (post_for_each
              (λ past (_ : Z) w',
                 ∃ evss, log w' = log w ++ concat evss
                         ∧ Forall2 (λ n evs, df_trace n 0 depths_stop [] evs)
                                   past evss)
              shape)| |done].
  - exists []. simpl. rewrite app_nil_r. split; [done|constructor].
  - intros past name rest acc w1 Hl (evss & Hlog & Hall).
    eapply post_mono; [apply df_class_trace| |].
    + intros ? w2 (evs & Hlog2 & Htrace). exists (evss ++ [evs]).
      split; [|apply Forall2_app; [done|by constructor]].
      rewrite concat_app. simpl.
      by rewrite Hlog2, Hlog, app_nil_r, <- app_assoc.
    + intros w2 (evs & Hlog2 & Htrace).
      exists (evss ++ evs :: replicate (length rest) []). split.
      * rewrite concat_app. simpl.
        by rewrite concat_replicate_nil, Hlog2, Hlog, app_nil_r, <- app_assoc.
      * rewrite Hl. apply Forall2_app; [done|].
        constructor; [done|apply df_trace_idle; done].
  - intros ? w' H. exact H.
Qed.

(** *** What a trace says *)

Lemma df_trace_class_trace name depth remaining held evs :
  df_trace name depth remaining held evs →
  class_trace name depth remaining evs.
Proof. induction 1; econstructor; eauto. Qed.

Lemma class_trace_names name depth remaining evs :
  class_trace name depth remaining evs →
  Forall (λ ev, event_name ev = name) evs.
Proof. induction 1; repeat constructor; done. Qed.

Lemma class_trace_depths name depth remaining evs :
  class_trace name depth remaining evs →
  Forall (λ ev, depth ≤ event_depth ev)%nat evs.
Proof.
  induction 1; repeat constructor; simpl; try lia.
  eapply Forall_impl; [done|]. simpl. intros; lia.
Qed.

Lemma class_trace_explored name depth remaining evs :
  class_trace name depth remaining evs →
  ∃ k, (k ≤ remaining)%nat ∧ explored evs = seq depth k.
Proof.
  induction 1 as [| |depth remaining frontier shared derivs rest
                       Hfr Hseeds Hstop Hrest IH].
  - exists 0%nat. split; [lia|done].
  - exists 1%nat. split; [lia|done].
  - destruct IH as (k & Hk & IH). exists (S k). split; [lia|].
    change (explored (_ :: _ :: rest)) with (depth :: explored rest).
    by rewrite IH.
Qed.

Lemma class_trace_submitted name depth remaining evs n d fr sub sh :
  class_trace name depth remaining evs →
  Exploring n d fr sub sh ∈ evs → sub = List.filter extendable fr.
Proof.
  induction 1; intros Hin.
  - by apply elem_of_nil in Hin.
  - apply list_elem_of_singleton in Hin. by injection Hin as -> -> -> -> ->.
  - apply elem_of_cons in Hin as [Heq|Hin];
      [by injection Heq as -> -> -> -> ->|].
    apply elem_of_cons in Hin as [Heq|Hin]; [done|auto].
Qed.

Lemma class_trace_exhausted name depth remaining evs n d n' d' fr sub sh :
  class_trace name depth remaining evs →
  Discovered n d [] ∈ evs → Exploring n' d' fr sub sh ∈ evs →
  (d' ≤ d)%nat.
Proof.
  induction 1 as [| |depth remaining frontier shared derivs rest
                       Hfr Hseeds Hstop Hrest IH]; intros Hd He.
  - by apply elem_of_nil in Hd.
  - by apply list_elem_of_singleton in Hd.
  - apply elem_of_cons in Hd as [Hd|Hd]; [done|].
    apply elem_of_cons in Hd as [Hd|Hd].
    + injection Hd as -> -> <-. rewrite Hstop in He by done.
      apply elem_of_cons in He as [He|He]; [injection He; lia|].
      apply elem_of_cons in He as [He|He]; [done|].
      by apply elem_of_nil in He.
    + apply elem_of_cons in He as [He|He].
      * injection He as -> -> -> -> ->.
        apply class_trace_depths in Hrest.
        rewrite Forall_forall in Hrest. specialize (Hrest _ Hd).
        simpl in Hrest. lia.
      * apply elem_of_cons in He as [He|He]; [done|auto].
Qed.

Lemma class_trace_seeded name depth remaining evs derivs patterns p :
  class_trace name depth remaining evs →
  Discovered name 0 derivs ∈ evs →
  root_patterns !! name = Some patterns → p ∈ patterns →
  isinstance_ObjectTypeVariable (rhs (assertion p)) →
  p ∈ derivs.
Proof.
  induction 1 as [| |depth remaining frontier shared derivs' rest
                       Hfr Hseeds Hstop Hrest IH]; intros Hd Hlook Hp Hotv.
  - by apply elem_of_nil in Hd.
  - by apply list_elem_of_singleton in Hd.
  - apply elem_of_cons in Hd as [Hd|Hd]; [done|].
    apply elem_of_cons in Hd as [Hd|Hd].
    + injection Hd as <- <-. rewrite Hfr in Hlook by done.
      injection Hlook as ->. apply Hseeds. unfold seeds. simpl.
      apply elem_of_set_of, list_elem_of_filter. done.
    + apply class_trace_depths in Hrest.
      rewrite Forall_forall in Hrest. specialize (Hrest _ Hd).
      simpl in Hrest. lia.
Qed.

Lemma events_of_app name l1 l2 :
  events_of name (l1 ++ l2) = events_of name l1 ++ events_of name l2.
Proof. apply filter_app. Qed.

Lemma events_of_same name evs :
  Forall (λ ev, event_name ev = name) evs → events_of name evs = evs.
Proof.
  induction 1 as [|ev evs Hev _ IH]; [done|]. unfold events_of.
  rewrite filter_cons_True by done. f_equal. apply IH.
Qed.

Lemma events_of_other name n evs :
  Forall (λ ev, event_name ev = n) evs → name ≠ n → events_of name evs = [].
Proof.
  intros Hall Hne. induction Hall as [|ev evs Hev _ IH]; [done|].
  unfold events_of. rewrite filter_cons_False by congruence. apply IH.
Qed.

Lemma elem_of_events_of name ev evs :
  ev ∈ events_of name evs ↔ ev ∈ evs ∧ event_name ev = name.
Proof. unfold events_of. rewrite list_elem_of_filter. tauto. Qed.

Lemma elem_of_sorted_names (d : RootPatterns) name :
  name ∈ sorted_names name_le d ↔ is_Some (d !! name).
Proof.
  unfold sorted_names. rewrite merge_sort_Permutation, elem_of_elements.
  apply elem_of_dom.
Qed.

Lemma NoDup_sorted_names (d : RootPatterns) :
  NoDup (sorted_names name_le d).
Proof.
  unfold sorted_names. rewrite merge_sort_Permutation. apply NoDup_elements.
Qed.

Lemma df_traces_absent name names evss :
  Forall2 (λ n evs, df_trace n 0 depths_stop [] evs) names evss →
  name ∉ names → events_of name (concat evss) = [].
Proof.
  induction 1 as [|n evs names evss Htrace _ IH]; intros Hname; [done|].
  apply not_elem_of_cons in Hname as [Hne Hname]. simpl.
  rewrite events_of_app, IH, app_nil_r by done.
  eapply events_of_other; [|done].
  eapply class_trace_names, df_trace_class_trace, Htrace.
Qed.

Lemma df_traces_class name names evss :
  Forall2 (λ n evs, df_trace n 0 depths_stop [] evs) names evss →
  NoDup names →
  df_trace name 0 depths_stop [] (events_of name (concat evss)).
Proof.
  induction 1 as [|n evs names evss Htrace Hall IH]; intros Hnodup.
  { constructor. }
  apply NoDup_cons in Hnodup as [Hn Hnodup]. simpl.
  rewrite events_of_app. destruct (decide (name = n)) as [->|Hne].
  - rewrite (df_traces_absent n names evss), app_nil_r by done.
    rewrite events_of_same; [done|].
    eapply class_trace_names, df_trace_class_trace, Htrace.
  - rewrite (events_of_other name n evs); [by apply IH| |done].
    eapply class_trace_names, df_trace_class_trace, Htrace.
Qed.

(** The progress lines of every class in a depth-first run form a
    depth-first trace that starts with an empty shared list. *)
Lemma generate_df_class name :
  df_trace name 0 depths_stop [] (events_of name (log (generate_df start).2)).
Proof.
  pose proof (generate_df_traces start) as Hrun. unfold post in Hrun.
  destruct (generate_df start) as [[r|exn] w'];
    destruct Hrun as (evss & Hlog & Hall); simpl in *; rewrite Hlog;
    (eapply df_traces_class; [exact Hall|apply NoDup_sorted_names]).
Qed.

Lemma df_trace_held name depth remaining held evs n d fr sub sh :
  df_trace name depth remaining held evs →
  Exploring n d fr sub sh ∈ evs →
  held ⊆ sh ∧ (d = depth → sh = held).
Proof.
  induction 1 as [| |depth remaining held held' frontier derivs rest
                       Hfr Hseeds Hheld Hstop Hrest IH]; intros Hin.
  - by apply elem_of_nil in Hin.
  - apply list_elem_of_singleton in Hin. by injection Hin as -> -> -> -> ->.
  - apply elem_of_cons in Hin as [Heq|Hin];
      [by injection Heq as -> -> -> -> ->|].
    apply elem_of_cons in Hin as [Heq|Hin]; [done|].
    destruct (IH Hin) as [Hsub _]. split; [by etrans|].
    intros ->. apply df_trace_class_trace, class_trace_depths in Hrest.
    rewrite Forall_forall in Hrest. specialize (Hrest _ Hin).
    simpl in Hrest. lia.
Qed.

Lemma df_trace_monotone name depth remaining held evs
    n1 d1 fr1 sub1 sh1 n2 d2 fr2 sub2 sh2 :
  df_trace name depth remaining held evs →
  Exploring n1 d1 fr1 sub1 sh1 ∈ evs → Exploring n2 d2 fr2 sub2 sh2 ∈ evs →
  (d1 ≤ d2)%nat → sh1 ⊆ sh2.
Proof.
  induction 1 as [| |depth remaining held held' frontier derivs rest
                       Hfr Hseeds Hheld Hstop Hrest IH]; intros H1 H2 Hle.
  - by apply elem_of_nil in H1.
  - apply list_elem_of_singleton in H1, H2.
    injection H1 as -> -> -> -> ->. by injection H2 as -> -> -> -> ->.
  - apply elem_of_cons in H1 as [Heq1|H1], H2 as [Heq2|H2].
    + injection Heq1 as -> -> -> -> ->. by injection Heq2 as -> -> -> -> ->.
    + injection Heq1 as -> -> -> -> ->.
      apply elem_of_cons in H2 as [?|H2]; [done|].
      destruct (df_trace_held _ _ _ _ _ _ _ _ _ _ Hrest H2) as [Hsub _].
      by etrans.
    + injection Heq2 as -> -> -> -> ->.
      apply elem_of_cons in H1 as [?|H1]; [done|].
      apply df_trace_class_trace, class_trace_depths in Hrest.
      rewrite Forall_forall in Hrest. specialize (Hrest _ H1).
      simpl in Hrest. lia.
    + apply elem_of_cons in H1 as [?|H1]; [done|].
      apply elem_of_cons in H2 as [?|H2]; [done|]. auto.
Qed.

(** *** Breadth first *)

Lemma bf_class_spec depth parents acc n w :
  post (bf_class depth parents acc n) w
       (λ r w',
          ∃ fr derivs,
            parents !! n = Some fr ∧ r.1 = <[n := derivs]> acc.1
            ∧ seeds depth fr ⊆ derivs
            ∧ log w' = log w ++ [Exploring n depth fr
                                   (List.filter extendable fr) (visited w);
                                 Discovered n depth derivs])
       (λ w',
          log w' = log w
          ∨ ∃ fr, parents !! n = Some fr
                  ∧ log w' = log w ++ [Exploring n depth fr
                                         (List.filter extendable fr)
                                         (visited w)]).
Proof.
  unfold bf_class. apply post_bind, post_lift. unfold item.
  destruct (parents !! n) as [fr|] eqn:Hfr; [|by left].
  apply post_bind. eapply post_mono; [apply pool_spec| |].
  - intros r w1 (Hlog & Hvis & Hseeds). apply post_bind.
    unfold post at 1, tell. apply post_ret. exists fr, r.1.
    split_and!; [done..|]. simpl. rewrite Hlog, <- app_assoc. reflexivity.
  - intros w1 Hlog. right. by exists fr.
Qed.

Lemma shared_at_app d l1 l2 :
  shared_at d (l1 ++ l2) = shared_at d l1 ++ shared_at d l2.
Proof. apply omap_app. Qed.

Lemma shared_at_none d evs :
  Forall (λ ev, event_depth ev ≠ d) evs → shared_at d evs = [].
Proof.
  induction 1 as [|ev evs Hev _ IH]; [done|]. unfold shared_at in *.
  destruct ev; simpl in *; [|done]. by rewrite bool_decide_eq_false_2.
Qed.

(** One depth of the breadth-first driver, seen from one class. *)
Lemma bf_round name depth remaining parents num_patterns w :
  (depth = 0%nat → parents = root_patterns) →
  post (for_each (bf_class depth parents) (sorted_names name_le parents)
                 (∅, num_patterns)) w
       (λ acc w',
          ∃ evs, log w' = log w ++ evs
            ∧ Forall (λ ev, event_depth ev = depth) evs
            ∧ (∀ sh, head (shared_at depth evs) = Some sh → sh = visited w)
            ∧ (parents !! name = None → acc.1 !! name = None)
            ∧ match acc.1 !! name with
              | None => events_of name evs = []
              | Some derivs =>
                  ∃ fr sh,
                    events_of name evs
                    = [Exploring name depth fr (List.filter extendable fr) sh;
                       Discovered name depth derivs]
                    ∧ (depth = 0%nat → root_patterns !! name = Some fr)
                    ∧ seeds depth fr ⊆ derivs
              end)
       (λ w',
          ∃ evs, log w' = log w ++ evs
            ∧ Forall (λ ev, event_depth ev = depth) evs
            ∧ (∀ sh, head (shared_at depth evs) = Some sh → sh = visited w)
            ∧ class_trace name depth (S remaining) (events_of name evs)
            ∧ (parents !! name = None → events_of name evs = [])).
Proof.
  intros Hroot.
  pose proof (NoDup_sorted_names parents) as Hnodup.
  eapply post_mono;
    [apply (post_for_each
       (λ past (acc : RootPatterns * Z) w',
          ∃ evs, log w' = log w ++ evs
            ∧ Forall (λ ev, event_depth ev = depth) evs
            ∧ (∀ sh, head (shared_at depth evs) = Some sh → sh = visited w)
            ∧ (shared_at depth evs = [] → visited w' = visited w)
            ∧ (∀ n, is_Some (acc.1 !! n) → n ∈ past)
            ∧ match acc.1 !! name with
              | None => events_of name evs = []
              | Some derivs =>
                  ∃ fr sh,
                    events_of name evs
                    = [Exploring name depth fr (List.filter extendable fr) sh;
                       Discovered name depth derivs]
                    ∧ (depth = 0%nat → root_patterns !! name = Some fr)
                    ∧ seeds depth fr ⊆ derivs
              end)
       (λ w',
          ∃ evs, log w' = log w ++ evs
            ∧ Forall (λ ev, event_depth ev = depth) evs
            ∧ (∀ sh, head (shared_at depth evs) = Some sh → sh = visited w)
            ∧ class_trace name depth (S remaining) (events_of name evs)
            ∧ (parents !! name = None → events_of name evs = [])))| |].
  - exists []. rewrite app_nil_r. simpl. split_and!; try done.
    intros n. rewrite lookup_empty. by intros [? ?].
  - intros past n rest acc w1 Hl (evs & Hlog & Hd & Hhead & Hfresh & Hdom & Hcls).
    assert (Hn : acc.1 !! n = None).
    { rewrite Hl in Hnodup. apply NoDup_app in Hnodup as (_ & Hnot & _).
      apply eq_None_not_Some. intros Hsome%Hdom.
      apply (Hnot n Hsome). left. }
    assert (Hin : is_Some (parents !! n)).
    { apply elem_of_sorted_names. rewrite Hl, elem_of_app, elem_of_cons.
      tauto. }
    eapply post_mono; [apply bf_class_spec| |].
    + intros r w2 (fr & derivs & Hfr & Hr & Hseeds & Hlog2).
      exists (evs ++ [Exploring n depth fr (List.filter extendable fr)
                        (visited w1); Discovered n depth derivs]).
      assert (Hshared :
        shared_at depth
          (evs ++ [Exploring n depth fr (List.filter extendable fr)
                     (visited w1); Discovered n depth derivs])
        = shared_at depth evs ++ [visited w1]).
      { rewrite shared_at_app. f_equal. unfold shared_at. simpl.
        by rewrite bool_decide_eq_true_2. }
      split_and!.
      * by rewrite Hlog2, Hlog, <- app_assoc.
      * apply Forall_app. split; [done|]. by repeat constructor.
      * rewrite Hshared. intros sh.
        destruct (shared_at depth evs) as [|sh0 l] eqn:Hsh; simpl.
        -- intros [= <-]. by apply Hfresh.
        -- intros [= <-]. by apply Hhead.
      * rewrite Hshared. by intros [_ ?]%app_nil.
      * rewrite Hr. intros n0 Hsome. rewrite elem_of_app, elem_of_cons.
        destruct (decide (n0 = n)) as [->|Hne]; [right; by left|].
        rewrite lookup_insert_ne in Hsome by done. left. by apply Hdom.
      * rewrite Hr, events_of_app.
        destruct (decide (name = n)) as [->|Hne].
        -- rewrite lookup_insert_eq. rewrite Hn in Hcls. rewrite Hcls.
           exists fr, (visited w1). split_and!; [|by intros ->%Hroot|done].
           unfold events_of.
           rewrite filter_cons_True, filter_cons_True by done.
           rewrite filter_nil. reflexivity.
        -- rewrite lookup_insert_ne by done.
           assert (events_of name
                     [Exploring n depth fr (List.filter extendable fr)
                        (visited w1); Discovered n depth derivs] = [])
             as ->.
           { unfold events_of.
             rewrite filter_cons_False, filter_cons_False
               by (simpl; congruence).
             apply filter_nil. }
           by rewrite app_nil_r.
    + assert (Hold : class_trace name depth (S remaining)
                       (events_of name evs)
                     ∧ (parents !! name = None → events_of name evs = [])).
      { destruct (acc.1 !! name) as [derivs|] eqn:Hacc.
        - destruct Hcls as (fr & sh & -> & Hfr & Hseeds). split.
          + apply trace_step; [done..| |constructor]. done.
          + intros Hnone. assert (Hp : name ∈ past) by (apply Hdom; eauto).
            assert (is_Some (parents !! name)) as [? ?]; [|congruence].
            apply elem_of_sorted_names. rewrite Hl, elem_of_app. tauto.
        - rewrite Hcls. split; [constructor|done]. }
      destruct Hold as [Htrace Hnone].
      intros w2 [Hlog2|(fr & Hfr & Hlog2)].
      * exists evs. split_and!; try done. congruence.
      * exists (evs ++ [Exploring n depth fr (List.filter extendable fr)
                          (visited w1)]).
        assert (Hshared :
          shared_at depth
            (evs ++ [Exploring n depth fr (List.filter extendable fr)
                       (visited w1)])
          = shared_at depth evs ++ [visited w1]).
        { rewrite shared_at_app. f_equal. unfold shared_at. simpl.
          by rewrite bool_decide_eq_true_2. }
        split_and!.
        -- by rewrite Hlog2, Hlog, <- app_assoc.
        -- apply Forall_app. split; [done|]. by repeat constructor.
        -- rewrite Hshared. intros sh.
           destruct (shared_at depth evs) as [|sh0 l] eqn:Hsh; simpl.
           ++ intros [= <-]. by apply Hfresh.
           ++ intros [= <-]. by apply Hhead.
        -- rewrite events_of_app. destruct (decide (name = n)) as [->|Hne].
           ++ rewrite Hn in Hcls. rewrite Hcls. unfold events_of.
              rewrite filter_cons_True by done. rewrite filter_nil. simpl.
              apply trace_raised. by intros ->%Hroot.
           ++ assert (events_of name
                        [Exploring n depth fr (List.filter extendable fr)
                           (visited w1)] = []) as ->.
              { unfold events_of.
                rewrite filter_cons_False by (simpl; congruence).
                apply filter_nil. }
              by rewrite app_nil_r.
        -- intros Hnone'. rewrite events_of_app, Hnone by done.
           unfold events_of. rewrite filter_cons_False; [by rewrite filter_nil|].
           simpl. intros ->. destruct Hin as [? ?]. congruence.
  - intros acc w' (evs & Hlog & Hd & Hhead & Hfresh & Hdom & Hcls).
    exists evs. split_and!; try done.
    intros Hnone. apply eq_None_not_Some. intros Hsome%Hdom.
    apply elem_of_sorted_names in Hsome as [? ?]. congruence.
  - intros w' Hw'. exact Hw'.
Qed.

Lemma bf_depths_trace name remaining : ∀ depth parents num_patterns w,
  let frontiers :=
    if bool_decide (depth = 0)%nat then root_patterns else parents in
  let shape w' :=
    ∃ evs, log w' = log w ++ evs
      ∧ class_trace name depth remaining (events_of name evs)
      ∧ (frontiers !! name = None → events_of name evs = [])
      ∧ Forall (λ ev, depth ≤ event_depth ev)%nat evs
      ∧ (∀ d sh, head (shared_at d evs) = Some sh → sh = []) in
  post (bf_depths remaining depth parents num_patterns) w
       (λ _, shape) shape.
Proof.
  induction remaining as [|remaining IH];
    intros depth parents num_patterns w frontiers shape; simpl.
  { apply post_ret. exists []. rewrite app_nil_r.
    split_and!; try done. constructor. }
  fold frontiers. apply post_bind. unfold post at 1, new_visited.
  set (w0 := mkWorld _ _ _ _ _). apply post_bind.
  assert (Hroot : depth = 0%nat → frontiers = root_patterns).
  { intros ->. done. }
  assert (Hother : ∀ d evs, d ≠ depth →
            Forall (λ ev, event_depth ev = depth) evs →
            shared_at d evs = []).
  { intros d evs Hne Hd. apply shared_at_none.
    eapply Forall_impl; [done|]. simpl. congruence. }
  eapply post_mono;
    [apply (bf_round name depth remaining frontiers num_patterns w0 Hroot)| |].
  - intros acc w1 (evs & Hlog & Hd & Hhead & Hnone & Hcls).
    pose proof (IH (S depth)
                   (filter (λ kv, (0 < length kv.2)%nat) acc.1) acc.2 w1)
      as IH'.
    cbv zeta in IH'. rewrite bool_decide_eq_false_2 in IH' by lia.
    assert (Hrest : ∀ w',
      (∃ evs2, log w' = log w1 ++ evs2
         ∧ class_trace name (S depth) remaining (events_of name evs2)
         ∧ (filter (λ kv, (0 < length kv.2)%nat) acc.1 !! name = None
            → events_of name evs2 = [])
         ∧ Forall (λ ev, S depth ≤ event_depth ev)%nat evs2
         ∧ (∀ d sh, head (shared_at d evs2) = Some sh → sh = [])) →
      shape w').
    { intros w' (evs2 & Hlog2 & Htrace2 & Hnone2 & Hd2 & Hhead2).
      exists (evs ++ evs2). rewrite events_of_app. split_and!.
      - rewrite Hlog2, Hlog. simpl. by rewrite <- app_assoc.
      - destruct (acc.1 !! name) as [derivs|] eqn:Hacc.
        + destruct Hcls as (fr & sh & -> & Hfr & Hseeds). simpl.
          apply trace_step; [done..| |done].
          intros ->. apply Hnone2, map_lookup_filter_None. right.
          intros derivs' Hlook. rewrite Hacc in Hlook.
          injection Hlook as <-. simpl. lia.
        + rewrite Hcls, Hnone2; [constructor|].
          apply map_lookup_filter_None. by left.
      - intros Hfr. specialize (Hnone Hfr). rewrite Hnone in Hcls.
        rewrite Hcls, Hnone2; [done|].
        apply map_lookup_filter_None. by left.
      - apply Forall_app. split.
        + eapply Forall_impl; [exact Hd|]. simpl. intros; lia.
        + eapply Forall_impl; [exact Hd2|]. simpl. intros; lia.
      - intros d sh. rewrite shared_at_app.
        destruct (decide (d = depth)) as [->|Hne].
        + rewrite (shared_at_none depth evs2), app_nil_r.
          * intros Hsh. by apply Hhead in Hsh.
          * eapply Forall_impl; [exact Hd2|]. simpl. intros; lia.
        + rewrite (Hother d evs) by done. apply Hhead2. }
    eapply post_mono; [exact IH'| |]; intros; by apply Hrest.
  - intros w1 (evs & Hlog & Hd & Hhead & Htrace & Hnone).
    exists evs. split_and!; try done.
    + eapply Forall_impl; [exact Hd|]. simpl. intros; lia.
    + intros d sh. destruct (decide (d = depth)) as [->|Hne].
      * intros Hsh. by apply Hhead in Hsh.
      * by rewrite (Hother d evs).
Qed.

(** The progress lines of every class in a breadth-first run form a
    trace, and the first submission of every depth finds the shared list
    empty. *)
Lemma generate_bf_class name :
  class_trace name 0 depths_stop
              (events_of name (log (generate_bf start).2))
  ∧ ∀ d sh, head (shared_at d (log (generate_bf start).2)) = Some sh →
            sh = [].
Proof.
  pose proof (bf_depths_trace name depths_stop 0 ∅ 0 start) as Hrun.
  unfold post in Hrun. unfold generate_bf.
  destruct (bf_depths depths_stop 0 ∅ 0 start) as [[r|exn] w'];
    destruct Hrun as (evs & Hlog & Htrace & _ & _ & Hhead);
    simpl in *; by rewrite Hlog.
Qed.

Lemma generate_df_class_trace name :
  class_trace name 0 depths_stop
              (events_of name (log (generate_df start).2)).
Proof. eapply df_trace_class_trace, generate_df_class. Qed.

(** *** Who is handed to the Candidate Generator *)





Local Abbreviation generate :=
  (generate rnd interleaved predict_hash contains_at_depth explore
            write_query len width name_le root_patterns depths_stop
            min_support p_explore p_extend max_length max_width out).

Lemma generate_class_trace strategy name :
  class_trace name 0 depths_stop
              (events_of name (log (generate strategy start).2)).
Proof.
  destruct strategy; simpl.
  - apply generate_bf_class.
  - apply generate_df_class_trace.
Qed.

(** C9. Either driver returns or raises, and in its run every class is
    explored at the depths 0, 1, ..., k - 1 for some k that is at most
    [depths.stop]; once the derivatives of a class at some depth are empty
    the class is explored at no greater depth; and the derivatives at
    depth 0 contain every root pattern of the class whose right-hand side
    is an ObjectTypeVariable. *)
Theorem growth_terminates strategy name :
  (∃ outcome w', generate strategy start = (outcome, w'))
  ∧ (∃ k, (k ≤ depths_stop)%nat
        ∧ explored (events_of name (log (generate strategy start).2))
          = seq 0 k)
  ∧ (∀ d d' fr sub sh,
       Discovered name d [] ∈ log (generate strategy start).2 →
       Exploring name d' fr sub sh ∈ log (generate strategy start).2 →
       (d' ≤ d)%nat)
  ∧ (∀ derivatives patterns p,
       Discovered name 0 derivatives ∈ log (generate strategy start).2 →
       root_patterns !! name = Some patterns → p ∈ patterns →
       isinstance_ObjectTypeVariable (rhs (assertion p)) →
       p ∈ derivatives).
Proof.
  pose proof (generate_class_trace strategy name) as Htrace.
  split_and!.
  - destruct (generate strategy start) as [outcome w']. by exists outcome, w'.
  - eapply class_trace_explored, Htrace.
  - intros d d' fr sub sh Hd He.
    eapply class_trace_exhausted;
      [exact Htrace|apply elem_of_events_of..]; by split.
  - intros derivs patterns p Hd Hlook Hp Hotv.
    eapply class_trace_seeded; [exact Htrace| |done..].
    apply elem_of_events_of. by split.
Qed.

End DriverFacts.

(** ** The Root Pattern Builder *)

Lemma fold_rule {X B} (I : B → Prop) (body : B → X → Result B)
    (l : list X) (acc r : B) :
  I acc →
  (∀ acc x acc', x ∈ l → I acc → body acc x = Ok acc' → I acc') →
  Np.fold body l acc = Ok r → I r.
Proof.
  revert acc. induction l as [|x l IH]; intros acc Hacc Hbody; simpl.
  - by intros [= <-].
  - unfold mbind, Result_bind. destruct (body acc x) as [acc'|] eqn:Hx; [|done].
    apply IH.
    + eapply Hbody; [left|done..].
    + intros acc0 y acc1 Hy. apply Hbody. by right.
Qed.

Lemma traverse_rule {X Y} (R : Y → Prop) (f : X → Result Y)
    (l : list X) (ys : list Y) :
  (∀ x y, x ∈ l → f x = Ok y → R y) →
  Np.traverse f l = Ok ys → Forall R ys.
Proof.
  revert ys. induction l as [|x l IH]; intros ys Hf; simpl.
  - intros [= <-]. constructor.
  - unfold mbind, Result_bind, mret, Result_ret.
    destruct (f x) as [y|] eqn:Hx; [|done].
    destruct (Np.traverse f l) as [ys'|] eqn:Hl; [|done].
    intros [= <-]. constructor.
    + eapply Hf; [left|done].
    + apply IH; [|done]. intros x' y' Hx'. apply Hf. by right.
Qed.

(** One step of a computation that may raise: continue with its value. *)
Ltac step_result :=
  match goal with
  | |- match ?r with Ok _ => _ | Raise _ => _ end = _ → _ =>
      destruct r; [|done]
  end.

Section BuilderFacts.

Variable infer_type : KnowledgeGraph → nat → nat → Resource * bool.
Variable new_var_graph_pattern :
  Term → Term → list nat → Resource → gmap nat (list nat)
  → option GraphPattern.
Variable new_graph_pattern :
  Term → Resource → PyVal → Resource → list nat → gmap nat (list nat)
  → option GraphPattern.
Variable new_mm_graph_pattern :
  Term → Term → list nat → Resource → gmap nat (list nat)
  → option GraphPattern.
Variable compute_clusters :
  Resource → list string → list nat → list (list nat * string).
Variable SUPPORTED_XSD_TYPES : list Resource.
Variable XSD_STRING XSD_NUMERIC XSD_DATETIME XSD_DATEFRAG : list Resource.

Local Abbreviation compute_root_patterns :=
  (compute_root_patterns infer_type new_var_graph_pattern new_graph_pattern
     new_mm_graph_pattern compute_clusters SUPPORTED_XSD_TYPES XSD_STRING
     XSD_NUMERIC XSD_DATETIME XSD_DATEFRAG).
Local Abbreviation init_root_patterns :=
  (init_root_patterns infer_type new_var_graph_pattern new_graph_pattern
     new_mm_graph_pattern compute_clusters SUPPORTED_XSD_TYPES XSD_STRING
     XSD_NUMERIC XSD_DATETIME XSD_DATEFRAG).

Local Abbreviation supported min_support :=
  (Forall (λ pattern : GraphPattern, min_support ≤ support pattern)).

Lemma supported_set_add min_support pattern patterns :
  min_support ≤ support pattern → supported min_support patterns →
  supported min_support (Py.set_add pattern patterns).
Proof.
  intros Hp Hall. apply Forall_forall. intros q [->|Hq]%elem_of_set_add;
    [done|]. by eapply Forall_forall in Hall.
Qed.

Lemma supported_set_union min_support s t :
  supported min_support s → supported min_support t →
  supported min_support (Py.set_union s t).
Proof.
  rewrite !Forall_forall. intros Hs Ht q [?|?]%elem_of_set_union; auto.
Qed.

Lemma supported_add min_support pattern patterns :
  supported min_support patterns →
  supported min_support (add_supported min_support pattern patterns).
Proof.
  intros Hall. unfold add_supported. destruct pattern as [pattern|]; [|done].
  case_bool_decide; [|done]. by apply supported_set_add.
Qed.

Lemma compute_root_patterns_supported kg min_support mode
    textual_support numerical_support temporal_support p_idx rdf_type_idx
    root_var class_members_idx patterns :
  compute_root_patterns kg min_support mode textual_support
    numerical_support temporal_support p_idx rdf_type_idx root_var
    class_members_idx = Ok patterns →
  supported min_support patterns.
Proof.
  unfold compute_root_patterns, mbind, Result_bind.
  destruct (Np.final _) as [o_last|]; [|done].
  destruct (Np.first _) as [o_idx|] eqn:Hfirst; [|done].
  set (typed := typed_pattern _ _ _ _ _ _ _ _ _ _).
  destruct (if has_A mode then _ else _) as [bound|] eqn:Hbound; [|done].
  assert (Hb : supported min_support bound).
  { destruct (has_A mode).
    - eapply (fold_rule (supported min_support)); [| |exact Hbound].
      + apply supported_add. constructor.
      + intros acc entry acc' _ Hacc. unfold bound_pattern, mbind, Result_bind.
        case_bool_decide; [by intros [= <-]|].
        repeat step_result. intros [= <-]. by apply supported_add.
    - injection Hbound as <-. apply supported_add. constructor. }
  destruct (_ || _ || _); [|by intros [= <-]].
  unfold clustered_patterns, mbind, Result_bind. rewrite Hfirst.
  destruct (ni2ai kg !! o_idx) as [a_idx|]; [|by intros [= <-]].
  repeat match goal with
         | |- (if ?b then Ok _ else _) = _ → _ =>
             destruct b; [by intros [= <-]|]
         end.
  case_bool_decide; [|by intros [= <-]].
  apply (fold_rule (supported min_support)); [done|].
  intros acc c acc' _ Hacc. unfold cluster_pattern, mbind, Result_bind.
  step_result. intros [= <-]. by apply supported_add.
Qed.

Lemma supported_unions min_support (results : list (list GraphPattern))
    (acc : list GraphPattern) :
  supported min_support acc → Forall (supported min_support) results →
  supported min_support (foldl Py.set_union acc results).
Proof.
  intros Hacc Hall. revert acc Hacc.
  induction Hall as [|r results Hr _ IH]; intros acc Hacc; simpl; [done|].
  by apply IH, supported_set_union.
Qed.

Lemma init_root_patterns_supported kg min_support mode
    textual_support numerical_support temporal_support index :
  init_root_patterns kg min_support mode textual_support numerical_support
    temporal_support = Ok index →
  ∀ name patterns, index !! name = Some patterns →
                   supported min_support patterns.
Proof.
  unfold init_root_patterns, mbind, Result_bind.
  destruct (Np.get _ _) as [rdf_type_idx|]; [|done].
  apply (fold_rule
           (λ m : RootPatterns,
              ∀ name patterns, m !! name = Some patterns →
                               supported min_support patterns)).
  { intros name patterns. by rewrite lookup_empty. }
  intros acc class_idx acc' _ Hacc.
  unfold class_root_patterns, mbind, Result_bind.
  case_bool_decide; [by intros [= <-]|].
  destruct (Np.traverse _ _) as [results|] eqn:Hresults; [|done].
  assert (Htree : supported min_support (foldl Py.set_union [] results)).
  { apply supported_unions; [constructor|].
    eapply traverse_rule; [|exact Hresults].
    intros p_idx patterns _. apply compute_root_patterns_supported. }
  case_bool_decide; intros [= <-] name patterns.
  - intros [_ Hlook]%lookup_delete_Some. by eapply Hacc.
  - intros [[_ <-]|[_ Hlook]]%lookup_insert_Some; [done|by eapply Hacc].
Qed.

(** C1. Every pattern that [compute_root_patterns] returns, and so every
    pattern of every class in the index that [init_root_patterns]
    returns, has a support of at least [min_support]. *)
Theorem min_support_invariant kg min_support mode
    textual_support numerical_support temporal_support :
  (∀ p_idx rdf_type_idx root_var class_members_idx patterns pattern,
     compute_root_patterns kg min_support mode textual_support
       numerical_support temporal_support p_idx rdf_type_idx root_var
       class_members_idx = Ok patterns →
     pattern ∈ patterns → min_support ≤ support pattern)
  ∧ (∀ index name patterns pattern,
       init_root_patterns kg min_support mode textual_support
         numerical_support temporal_support = Ok index →
       index !! name = Some patterns →
       pattern ∈ patterns → min_support ≤ support pattern).
Proof.
  split.
  - intros p_idx rdf_type_idx root_var members patterns pattern Hrun Hin.
    apply compute_root_patterns_supported in Hrun.
    by eapply Forall_forall in Hrun.
  - intros index name patterns pattern Hrun Hlook Hin.
    eapply init_root_patterns_supported in Hrun; [|exact Hlook].
    by eapply Forall_forall in Hrun.
Qed.

End BuilderFacts.

(** The class members that have an outgoing edge of [p_idx]. *)
Lemma members_with_edge kg p_idx class_members_idx s :
  s ∈ Py.set_inter (Py.set_of (fst <$> A kg p_idx))
                   (Py.set_of class_members_idx)
  ↔ s ∈ class_members_idx ∧ ∃ o, (s, o) ∈ A kg p_idx.
Proof.
  rewrite elem_of_set_inter, !elem_of_set_of, list_elem_of_fmap. split.
  - intros [([s' o] & -> & Hedge) Hs]. eauto.
  - intros [Hs (o & Hedge)]. split; [|done]. by exists (s, o).
Qed.

Lemma submitted_predicates_count kg min_support rdf_type_idx
    class_members_idx p_idx :
  p_idx ∈ submitted_predicates kg min_support rdf_type_idx class_members_idx
  ↔ (p_idx < num_relations kg)%nat ∧ p_idx ≠ rdf_type_idx
    ∧ min_support
      ≤ Z.of_nat (length (Py.set_inter (Py.set_of (fst <$> A kg p_idx))
                                       (Py.set_of class_members_idx))).
Proof.
  unfold submitted_predicates.
  rewrite list_elem_of_In, filter_In, in_seq, andb_true_iff,
    !bool_decide_eq_true.
  split; intros; destruct_and?; split_and?; done || lia.
Qed.

(** C10. With [min_support >= 1], the edges of a submitted predicate that
    leave a class member are not empty, so [o_idx_list[0]] and
    [o_idx_list[-1]] both exist. *)
Theorem indexing_safe kg min_support rdf_type_idx class_members_idx p_idx :
  1 ≤ min_support →
  p_idx ∈ submitted_predicates kg min_support rdf_type_idx class_members_idx →
  ∃ o_first o_last,
    Np.first (o_idx_list kg p_idx class_members_idx) = Ok o_first
    ∧ Np.final (o_idx_list kg p_idx class_members_idx) = Ok o_last
    ∧ s_idx_list kg p_idx class_members_idx ≠ [].
Proof.
  intros Hmin (_ & _ & Hcount)%submitted_predicates_count.
  destruct (Py.set_inter _ _) as [|s sharing] eqn:Hsharing;
    [simpl in Hcount; lia|].
  assert (Hs : s ∈ class_members_idx ∧ ∃ o, (s, o) ∈ A kg p_idx).
  { apply members_with_edge. rewrite Hsharing. left. }
  destruct Hs as (Hs & o & Hedge).
  assert (Hin : (s, o) ∈ masked kg p_idx class_members_idx).
  { unfold masked. rewrite list_elem_of_In, filter_In, <- list_elem_of_In.
    split; [done|]. by apply bool_decide_eq_true. }
  unfold Np.first, Np.at_index, Np.final, o_idx_list, s_idx_list.
  destruct (masked kg p_idx class_members_idx) as [|e es] eqn:Hmasked;
    [by apply elem_of_nil in Hin|].
  assert (∃ o_last, last (snd <$> e :: es) = Some o_last) as [o_last Hlast].
  { destruct (last (snd <$> e :: es)) as [o_last|] eqn:Hlast; [by eexists|].
    by apply last_None in Hlast. }
  exists e.2, o_last. by rewrite Hlast.
Qed.

(** ** The properties on the sample inputs *)

(** C1 on Scenario A of the specification. *)
Lemma min_support_invariant_witness :
  ∃ patterns pattern,
    SampleGraph.root_patterns_of SampleGraph.ages 5 mode_T false false false
      1 0 SampleGraph.Person (seq 0 10) = Ok patterns
    ∧ pattern ∈ patterns ∧ 5 ≤ support pattern.
Proof.
  destruct (SampleGraph.root_patterns_of SampleGraph.ages 5 mode_T false false
              false 1 0 SampleGraph.Person (seq 0 10))
    as [[|pattern patterns]|] eqn:Hrun; try (by vm_compute in Hrun).
  exists (pattern :: patterns), pattern.
  split; [done|]. split; [left|].
  apply (proj1 (min_support_invariant
                  SampleGraph.infer_type SampleGraph.new_var_graph_pattern
                  SampleGraph.new_graph_pattern
                  SampleGraph.new_mm_graph_pattern
                  SampleGraph.compute_clusters
                  [SampleGraph.xsd_integer; SampleGraph.xsd_string]
                  [SampleGraph.xsd_string] [SampleGraph.xsd_integer] [] []
                  SampleGraph.ages 5 mode_T false false false)
               1%nat 0%nat (ObjectTypeVariable SampleGraph.Person) (seq 0 10)
               (pattern :: patterns) pattern);
    [exact Hrun|left].
Defined.

(** C8 on Scenario B of the specification: A-box mode without modality
    flags on literal objects. The value 30 occurs six times and the value
    40 four times. Whatever the pattern constructors are, once [infer_type]
    says that the objects are literals, the lookup of the first value in
    [o_value_idx_map] raises with [min_support = 5]: [o_freqs] is keyed by
    node index and [o_value_idx_map] by term, and the index is not
    converted for a literal. No pattern is returned, and
    [init_root_patterns] raises with it. *)
Theorem scenario_B_raises infer_type new_var_graph_pattern new_graph_pattern
    new_mm_graph_pattern compute_clusters SUPPORTED_XSD_TYPES XSD_STRING
    XSD_NUMERIC XSD_DATETIME XSD_DATEFRAG :
  (infer_type SampleGraph.ages 0%nat 12%nat).2 = true →
  Np.Counter (o_idx_list SampleGraph.ages 1 (seq 0 10))
  = [(11%nat, 6%nat); (12%nat, 4%nat)]
  ∧ compute_root_patterns infer_type new_var_graph_pattern new_graph_pattern
      new_mm_graph_pattern compute_clusters SUPPORTED_XSD_TYPES XSD_STRING
      XSD_NUMERIC XSD_DATETIME XSD_DATEFRAG SampleGraph.ages 5 mode_A
      false false false 1 0 (ObjectTypeVariable SampleGraph.Person)
      (seq 0 10)
    = Raise KeyError.
Proof.
  intros Hliteral.
  assert (Hobjects : o_idx_list SampleGraph.ages 1 (seq 0 10)
                     = [11; 11; 11; 11; 11; 11; 12; 12; 12; 12]%nat)
    by (vm_compute; reflexivity).
  split; [vm_compute; reflexivity|].
  unfold compute_root_patterns, mbind, Result_bind.
  rewrite Hobjects. cbv zeta.
  change (Np.final [11; 11; 11; 11; 11; 11; 12; 12; 12; 12]%nat)
    with (Ok (X := nat) 12%nat).
  cbv beta iota. rewrite Hliteral. vm_compute. reflexivity.
Qed.

(** C8 with the sample helpers, for which [init_root_patterns] raises as
    well. *)
Lemma scenario_B_raises_witness :
  (SampleGraph.infer_type SampleGraph.ages 0%nat 12%nat).2 = true
  ∧ SampleGraph.root_patterns_of SampleGraph.ages 5 mode_A false false false
      1 0 SampleGraph.Person (seq 0 10) = Raise KeyError
  ∧ SampleGraph.index_of SampleGraph.ages 5 mode_A false false false
    = Raise KeyError.
Proof.
  assert (Hliteral :
    (SampleGraph.infer_type SampleGraph.ages 0%nat 12%nat).2 = true)
    by (vm_compute; reflexivity).
  split; [exact Hliteral|]. split; [|vm_compute; reflexivity].
  apply (scenario_B_raises SampleGraph.infer_type
           SampleGraph.new_var_graph_pattern SampleGraph.new_graph_pattern
           SampleGraph.new_mm_graph_pattern SampleGraph.compute_clusters
           [SampleGraph.xsd_integer; SampleGraph.xsd_string]
           [SampleGraph.xsd_string] [SampleGraph.xsd_integer] [] []
           Hliteral).
Defined.

(** C6 as the specification states it, with the number of outgoing edges
    among the instances of the class in place of the number of instances
    that have one, fails on a class of two persons of whom one knows two
    and the other nobody: two edges, but one subject only. *)
Lemma edge_count_counterexample :
  ¬ (1%nat ∈ submitted_predicates SampleGraph.acquaintances 2 0 [0; 1]%nat
     ↔ (1 < num_relations SampleGraph.acquaintances)%nat ∧ 1%nat ≠ 0%nat
       ∧ 2 ≤ Z.of_nat (length (masked SampleGraph.acquaintances 1
                                      [0; 1]%nat))).
Proof.
  intros [_ Hsubmitted].
  assert (Hin : 1%nat ∈ submitted_predicates SampleGraph.acquaintances 2 0
                          [0; 1]%nat).
  { apply Hsubmitted. vm_compute. split_and!; [lia|discriminate|discriminate]. }
  vm_compute in Hin. by apply elem_of_nil in Hin.
Qed.

(** C10 on the predicate age of Scenario B. *)
Lemma indexing_safe_witness :
  1 ≤ 5
  ∧ 1%nat ∈ submitted_predicates SampleGraph.ages 5 0 (seq 0 10)
  ∧ ∃ o_first o_last,
      Np.first (o_idx_list SampleGraph.ages 1 (seq 0 10)) = Ok o_first
      ∧ Np.final (o_idx_list SampleGraph.ages 1 (seq 0 10)) = Ok o_last
      ∧ s_idx_list SampleGraph.ages 1 (seq 0 10) ≠ [].
Proof.
  assert (Hin : 1%nat ∈ submitted_predicates SampleGraph.ages 5 0 (seq 0 10)).
  { vm_compute. left. }
  split; [lia|]. split; [exact Hin|].
  apply (indexing_safe SampleGraph.ages 5 0 (seq 0 10) 1); [lia|exact Hin].
Defined.

(** C5 on the chain [Person --knows--> Person --age--> integer] at depth
    1. *)
Lemma leaf_closure_witness :
  (0 < 1)%nat
  ∧ ∃ class introduced a,
      Sample.person = ObjectTypeVariable class
      ∧ distances Sample.chain_pattern !! 0%nat = Some introduced
      ∧ a ∈ introduced ∧ rhs a = Sample.person.
Proof.
  split; [lia|].
  destruct (Sample.candidates_at 1 Sample.chain_pattern start)
    as [[r|] w'] eqn:Hrun; [|by vm_compute in Hrun].
  assert (Hin : (Sample.person, Sample.knows_person) ∈ r.2).
  { vm_compute in Hrun. injection Hrun as <- _. left. }
  destruct (leaf_closure Sample.chain_pattern) as (_ & _ & Hleaf).
  apply (Hleaf Sample.rnd Sample.interleaved Sample.predict_hash
               Sample.contains_at_depth Sample.root_patterns 1%nat 1%Q 1%Q
               start r w' ltac:(lia) Hrun
               (Sample.person, Sample.knows_person) Hin).
Defined.

(** C4 on two runs that differ in their draws, in what the shared list
    holds and in what the other workers add. *)
Lemma determinism_at_one_witness :
  (∀ i, (Sample.rnd i < 1)%Q) ∧ (∀ i, (Sample.rnd' i < 1)%Q)
  ∧ (1 == 1)%Q
  ∧ pairs_considered
      (compute_candidates Sample.rnd' Sample.interleaved' Sample.predict_hash
         Sample.contains_at_depth Sample.root_patterns Sample.knows_pattern
         0 1%Q 1%Q)
      (mkWorld 5 3 [32880] [] [])
    = pairs_considered
        (compute_candidates Sample.rnd Sample.interleaved Sample.predict_hash
           Sample.contains_at_depth Sample.root_patterns Sample.knows_pattern
           0 1%Q 1%Q)
        start.
Proof.
  assert (H1 : ∀ i, (Sample.rnd i < 1)%Q) by (intros i; reflexivity).
  assert (H2 : ∀ i, (Sample.rnd' i < 1)%Q) by (intros i; reflexivity).
  assert (H3 : (1 == 1)%Q) by reflexivity.
  split_and!; [done..|].
  apply (determinism_at_one Sample.rnd Sample.rnd' Sample.interleaved
           Sample.interleaved' Sample.predict_hash Sample.contains_at_depth
           Sample.root_patterns Sample.knows_pattern 0 1%Q 1%Q start
           (mkWorld 5 3 [32880] [] []) H1 H2 H3 H3).
Defined.

(** C3 on two runs in a row from the root pattern for knows. *)
Lemma dedup_idempotence_witness :
  ∃ r1 w1 r2 w2,
    Sample.candidates_at 0 Sample.knows_pattern start = (Ok r1, w1)
    ∧ visited w1 ⊆ visited w1
    ∧ Sample.candidates_at 0 Sample.knows_pattern w1 = (Ok r2, w2)
    ∧ (∀ c, c ∈ r1.2 →
            Sample.predict_hash Sample.knows_pattern c.1 c.2 ∈ visited w1)
    ∧ (∀ c, c ∈ r2.2 →
            Sample.predict_hash Sample.knows_pattern c.1 c.2 ∉ visited w1).
Proof.
  destruct (Sample.candidates_at 0 Sample.knows_pattern start)
    as [[r1|] w1] eqn:Hrun1; [|by vm_compute in Hrun1].
  destruct (Sample.candidates_at 0 Sample.knows_pattern w1)
    as [[r2|] w2] eqn:Hrun2.
  - exists r1, w1, r2, w2.
    destruct (dedup_idempotence Sample.rnd Sample.rnd Sample.interleaved
                Sample.interleaved Sample.predict_hash
                Sample.contains_at_depth Sample.root_patterns
                Sample.knows_pattern 0 1%Q 1%Q) as [_ Hruns].
    destruct (Hruns start r1 w1 w1 r2 w2 Hrun1 (reflexivity _) Hrun2)
      as [Hin Hout].
    split_and!; [done..|].
    intros c Hc. by apply Hout.
  - vm_compute in Hrun1. injection Hrun1 as <- <-. by vm_compute in Hrun2.
Defined.

(** C2 as the specification states it fails depth first: in the sample
    run the class Person is submitted at depth 1 with the two hashes that
    were recorded at depth 0 still in the shared list. *)
Lemma visited_reset_df_counterexample :
  ¬ (∀ strategy d sh,
       head (shared_at d (log (Sample.run strategy).2)) = Some sh → sh = []).
Proof.
  intros Hreset.
  assert (Hkept : head (shared_at 1 (log (Sample.run DFS).2))
                  = Some [32880; 34792]).
  { vm_compute. reflexivity. }
  by apply Hreset in Hkept.
Qed.

(** C9 on the sample depth-first run. *)
Lemma growth_terminates_witness :
  ∃ derivatives,
    Discovered Sample.Person 0 derivatives ∈ log (Sample.run DFS).2
    ∧ Sample.root_patterns !! Sample.Person
      = Some [Sample.knows_pattern; Sample.age_pattern]
    ∧ Sample.knows_pattern ∈ derivatives.
Proof.
  destruct (log (Sample.run DFS).2 !! 1%nat) as [e1|] eqn:H1;
    [|by vm_compute in H1].
  pose proof (list_elem_of_lookup_2 _ _ _ H1) as He1.
  vm_compute in H1. injection H1 as <-.
  eexists. split; [exact He1|].
  assert (Hroot : Sample.root_patterns !! Sample.Person
                  = Some [Sample.knows_pattern; Sample.age_pattern])
    by (vm_compute; reflexivity).
  split; [exact Hroot|].
  destruct (growth_terminates Sample.rnd Sample.interleaved
              Sample.predict_hash Sample.contains_at_depth Sample.explore
              Sample.write_query Sample.len Sample.width Sample.name_le
              Sample.root_patterns 2 5 1%Q 1%Q 4 4 true DFS Sample.Person)
    as (_ & _ & _ & Hseeded).
  eapply (Hseeded _ _ _ He1 Hroot); [left|done].
Defined.

(** * Further properties of the code *)

(** ** More on the Candidate Generator *)

Section CandidateMore.

Variable rnd : nat → Q.
Variable interleaved : nat → list Z.
Variable predict_hash : GraphPattern → Term → Assertion → Z.
Variable contains_at_depth : GraphPattern → Assertion → nat → bool.

Local Abbreviation candidates_of :=
  (compute_candidates rnd interleaved predict_hash contains_at_depth).
Local Abbreviation seen_by := (seen_under_lock interleaved).
Local Abbreviation skips :=
  (skipped interleaved predict_hash contains_at_depth).
Local Abbreviation after :=
  (considered interleaved predict_hash contains_at_depth).
Local Abbreviation hash_in pattern :=
  (λ c : Candidate, predict_hash pattern c.1 c.2).

(** Either the endpoints exist and the two loops run to their end, or
    they do not and nothing happens. *)
Lemma candidates_outcome root_patterns pattern depth p_explore p_extend w :
  (∃ endpoints r w',
     endpoints_of pattern depth = Ok endpoints
     ∧ candidates_of root_patterns pattern depth p_explore p_extend w
       = (Ok r, w'))
  ∨ (∃ e, endpoints_of pattern depth = Raise e
          ∧ candidates_of root_patterns pattern depth p_explore p_extend w
            = (Raise e, w)).
Proof.
  destruct (endpoints_of pattern depth) as [eps|e] eqn:Heps.
  - left.
    pose proof (candidates_rule rnd interleaved predict_hash contains_at_depth
                  (λ _ _, True) root_patterns pattern depth p_explore p_extend
                  eps w Heps) as Hrule.
    unfold post in Hrule.
    destruct (candidates_of _ _ _ _ _ w) as [[r|exn] w'].
    + by exists eps, r, w'.
    + by destruct Hrule.
  - right. exists e. split; [done|]. by apply candidates_raise.
Qed.

(** X1. What [compute_candidates] returns is the pattern it was given and
    a duplicate-free set of pairs, each made of an endpoint of the pattern
    and the assertion of a root pattern that the index lists for the class
    of that endpoint, and none with an extension that the pattern already
    contains at this depth. *)
Theorem candidates_from_catalogue root_patterns pattern depth
    p_explore p_extend w r w' :
  candidates_of root_patterns pattern depth p_explore p_extend w
  = (Ok r, w') →
  r.1 = pattern ∧ NoDup r.2
  ∧ ∀ c, c ∈ r.2 →
      ∃ endpoints base_patterns b,
        endpoints_of pattern depth = Ok endpoints ∧ c.1 ∈ endpoints
        ∧ root_patterns !! term_value c.1 = Some base_patterns
        ∧ b ∈ base_patterns ∧ c.2 = assertion b
        ∧ contains_at_depth pattern c.2 depth = false.
Proof.
  intros Hrun.
  destruct (endpoints_of pattern depth) as [eps|e] eqn:Heps;
    [|by rewrite (candidates_raise _ _ _ _ _ _ _ _ _ e) in Hrun].
  pose proof (candidates_rule rnd interleaved predict_hash contains_at_depth
    (λ cands _,
       NoDup cands
       ∧ ∀ c, c ∈ cands →
           ∃ endpoints base_patterns b,
             Ok eps = Ok endpoints ∧ c.1 ∈ endpoints
             ∧ root_patterns !! term_value c.1 = Some base_patterns
             ∧ b ∈ base_patterns ∧ c.2 = assertion b
             ∧ contains_at_depth pattern c.2 depth = false)
    root_patterns pattern depth p_explore p_extend eps w Heps) as Hrule.
  unfold post in Hrule. rewrite Hrun in Hrule.
  destruct Hrule as (? & ? & ?); try done.
  - intros cands w1 e b bases He Hbases Hb [Hnodup Hall].
    destruct (skips pattern depth (e, assertion b) w1) eqn:Hskip; [done|].
    split; [by apply NoDup_set_add|].
    intros c [->|Hc]%elem_of_set_add; [|by apply Hall].
    exists eps, bases, b. split_and!; try done.
    unfold skipped in Hskip. by apply orb_false_iff in Hskip as [_ ?].
  - split; [constructor|]. intros c Hc. by apply elem_of_nil in Hc.
Qed.

(** The hashes of the candidates of one run are pairwise distinct. *)
Lemma accepted_distinct root_patterns pattern depth p_explore p_extend
    w r w' :
  candidates_of root_patterns pattern depth p_explore p_extend w
  = (Ok r, w') →
  NoDup (hash_in pattern <$> r.2).
Proof.
  intros Hrun.
  destruct (endpoints_of pattern depth) as [eps|e] eqn:Heps;
    [|by rewrite (candidates_raise _ _ _ _ _ _ _ _ _ e) in Hrun].
  pose proof (candidates_rule rnd interleaved predict_hash contains_at_depth
    (λ cands w1, NoDup (hash_in pattern <$> cands)
                 ∧ ∀ c, c ∈ cands → hash_in pattern c ∈ visited w1)
    root_patterns pattern depth p_explore p_extend eps w Heps) as Hrule.
  unfold post in Hrule. rewrite Hrun in Hrule.
  destruct Hrule as (? & ? & ?); try done.
  - intros cands w1 e b bases _ _ _ [Hnodup Hin].
    pose proof (considered_visited interleaved predict_hash contains_at_depth
                  pattern depth (e, assertion b) w1) as Hgrow.
    destruct (skips pattern depth (e, assertion b) w1) eqn:Hskip.
    { split; [done|]. intros c Hc. by apply Hgrow, Hin. }
    unfold skipped in Hskip.
    apply orb_false_iff in Hskip as [Hnew%bool_decide_eq_false Hcad].
    assert (Hfresh : hash_in pattern (e, assertion b)
                     ∉ hash_in pattern <$> cands).
    { intros (c & Hc & Hcin)%list_elem_of_fmap. apply Hnew.
      rewrite Hc. by apply seen_by_visited, Hin. }
    assert (Hadd : Py.set_add (e, assertion b) cands
                   = cands ++ [(e, assertion b)]).
    { unfold Py.set_add. rewrite bool_decide_eq_false_2; [done|].
      intros Hc. apply Hfresh, list_elem_of_fmap. eauto. }
    rewrite Hadd, fmap_app. split.
    + apply NoDup_app. split_and!; [done| |apply NoDup_singleton].
      intros h Hh ->%list_elem_of_singleton. by apply Hfresh.
    + intros c [Hc| ->%list_elem_of_singleton]%elem_of_app.
      * by apply Hgrow, Hin.
      * unfold considered, skipped. simpl in *.
        rewrite bool_decide_eq_false_2, Hcad by done. simpl.
        apply elem_of_app. right. left.
  - split; [constructor|]. intros c Hc. by apply elem_of_nil in Hc.
Qed.

(** X3. One pass of a pool over its frontier accepts every hash at most
    once: the hashes of all candidates that the workers return, taken
    together, are pairwise distinct, none of them was in the shared list
    when the pass started, and all of them are in it when the pass ends. *)
Theorem pass_accepts_once root_patterns depth p_explore p_extend
    patterns w rs w' :
  map_each (λ pattern, candidates_of root_patterns pattern depth
                                     p_explore p_extend) patterns w
  = (Ok rs, w') →
  rs.*1 = patterns
  ∧ NoDup (r ← rs; hash_in r.1 <$> r.2)
  ∧ ∀ h, h ∈ (r ← rs; hash_in r.1 <$> r.2) →
         h ∈ visited w' ∧ h ∉ visited w.
Proof.
  revert w rs. induction patterns as [|pattern patterns IH]; intros w rs.
  { intros [= <- <-]. split_and!; [done|constructor|].
    intros h Hh. by apply elem_of_nil in Hh. }
  simpl. unfold mbind at 1, M_bind at 1.
  destruct (candidates_of _ pattern _ _ _ w) as [[r|exn] w1] eqn:Hrun;
    [|done].
  unfold mbind at 1, M_bind at 1.
  destruct (map_each _ patterns w1) as [[rs'|exn] w2] eqn:Hrest; [|done].
  intros [= <- <-].
  destruct (IH _ _ Hrest) as (Hfst & Hnodup & Hvisited).
  pose proof (accepted_distinct _ _ _ _ _ _ _ _ Hrun) as Hdistinct.
  apply accepted_fresh in Hrun as (Hpattern & Hgrow & _ & Hfresh).
  assert (Hgrow' : visited w1 ⊆ visited w2).
  { pose proof (post_map_each (λ w3, visited w1 ⊆ visited w3)
                  (λ _ _, True)
                  (λ pattern, candidates_of root_patterns pattern depth
                                            p_explore p_extend)
                  patterns w1) as Hpass.
    unfold post in Hpass. rewrite Hrest in Hpass. apply Hpass; [done|].
    intros x w3 _ Hw3.
    pose proof (candidates_world rnd interleaved predict_hash
                  contains_at_depth root_patterns x depth p_explore p_extend
                  w3) as Hw.
    unfold post in *. destruct (candidates_of _ x _ _ _ w3) as [[?|?] ?].
    - split; [done|]. destruct Hw. by etrans.
    - by subst. }
  rewrite fmap_cons, bind_cons, Hfst, Hpattern. split_and!; [done| |].
  - apply NoDup_app. split_and!; [done| |done].
    intros h (c & -> & Hc)%list_elem_of_fmap Hh.
    destruct (Hfresh c Hc) as [Hin _]. by destruct (Hvisited _ Hh).
  - intros h [(c & -> & Hc)%list_elem_of_fmap|Hh]%elem_of_app.
    + destruct (Hfresh c Hc). split; [by apply Hgrow'|done].
    + destruct (Hvisited _ Hh) as [? Hnew]. split; [done|].
      intros Hold. by apply Hnew, Hgrow.
Qed.

(** X4. The shared list is append-only: what it held before a run is a
    prefix of what it holds after. When no other worker appends in
    between, the run appends exactly the hashes of the candidates it
    returns, in the order in which it accepted them. *)
Theorem visited_append_only root_patterns pattern depth p_explore p_extend
    w r w' :
  candidates_of root_patterns pattern depth p_explore p_extend w
  = (Ok r, w') →
  visited w `prefix_of` visited w'
  ∧ ((∀ n, interleaved n = []) →
     visited w' = visited w ++ (hash_in pattern <$> r.2)).
Proof.
  intros Hrun.
  destruct (endpoints_of pattern depth) as [eps|e] eqn:Heps;
    [|by rewrite (candidates_raise _ _ _ _ _ _ _ _ _ e) in Hrun].
  pose proof (candidates_rule rnd interleaved predict_hash contains_at_depth
    (λ cands w1,
       visited w `prefix_of` visited w1
       ∧ ((∀ n, interleaved n = []) →
          visited w1 = visited w ++ (hash_in pattern <$> cands)))
    root_patterns pattern depth p_explore p_extend eps w Heps) as Hrule.
  unfold post in Hrule. rewrite Hrun in Hrule.
  destruct Hrule as (? & ? & ?); try done.
  - intros cands w1 e b bases _ _ _ [Hprefix Hexact]. split.
    + etrans; [exact Hprefix|]. unfold considered, seen_under_lock. simpl.
      destruct (skips _ _ _ _).
      * by apply prefix_app_r.
      * rewrite <- app_assoc. by apply prefix_app_r.
    + intros Hquiet. specialize (Hexact Hquiet).
      unfold considered, skipped, seen_under_lock. simpl.
      rewrite Hquiet, app_nil_r.
      destruct (bool_decide (_ ∈ visited w1)) eqn:Hseen; simpl; [done|].
      destruct (contains_at_depth _ _ _); [done|].
      apply bool_decide_eq_false in Hseen.
      assert (Hadd : Py.set_add (e, assertion b) cands
                     = cands ++ [(e, assertion b)]).
      { unfold Py.set_add. rewrite bool_decide_eq_false_2; [done|].
        intros Hc. apply Hseen. rewrite Hexact. apply elem_of_app. right.
        apply list_elem_of_fmap. by exists (e, assertion b). }
      by rewrite Hadd, fmap_app, Hexact, <- app_assoc.
  - split; [done|]. intros _. simpl. by rewrite app_nil_r.
Qed.

(** The rule of the two loops with the sampling made visible: [I pairs]
    holds when the loops have gone past [pairs], a prefix of [all_pairs];
    a pair is only considered after a draw that [p_explore] is not below
    and a draw that [p_extend] is not below. *)
Lemma candidates_loops
    (I : list (GraphPattern * Candidate) → list Candidate → World → Prop)
    root_patterns pattern depth p_explore p_extend w :
  (∀ pairs cands w, I pairs cands w → I pairs cands (drawn w)) →
  (∀ pairs pair cands w i,
     Qltb p_explore (rnd i) = true ∨ Qltb p_extend (rnd i) = true →
     I pairs cands w → I (pairs ++ [pair]) cands w) →
  (∀ pairs cands w e b rest i j,
     all_pairs root_patterns pattern depth
     = pairs ++ (pattern, (e, assertion b)) :: rest →
     Qltb p_explore (rnd i) = false → Qltb p_extend (rnd j) = false →
     I pairs cands w →
     I (pairs ++ [(pattern, (e, assertion b))])
       (if skips pattern depth (e, assertion b) w then cands
        else Py.set_add (e, assertion b) cands)
       (after pattern depth (e, assertion b) w)) →
  I [] [] w →
  post (candidates_of root_patterns pattern depth p_explore p_extend) w
       (λ r w', r.1 = pattern
                ∧ I (all_pairs root_patterns pattern depth) r.2 w')
       (λ w', w' = w).
Proof.
  intros Hdraw Hpass Hpair H0.
  assert (Hpasses : ∀ i l pairs cands w1,
            Qltb p_explore (rnd i) = true →
            I pairs cands w1 → I (pairs ++ l) cands w1).
  { intros i. induction l as [|x l IH]; intros pairs cands w1 Hi HI.
    - by rewrite app_nil_r.
    - rewrite cons_middle, app_assoc. apply IH; [done|].
      apply (Hpass _ _ _ _ i); [by left|done]. }
  pose (expand := λ endpoint : Term,
          match root_patterns !! term_value endpoint with
          | Some base_patterns =>
              (λ b, (pattern, (endpoint, assertion b))) <$> base_patterns
          | None => []
          end).
  unfold compute_candidates. apply post_bind, post_lift.
  destruct (endpoints_of pattern depth) as [eps|e] eqn:Heps; [|done].
  assert (Hall : all_pairs root_patterns pattern depth = eps ≫= expand).
  { unfold all_pairs. by rewrite Heps. }
  rewrite Hall. apply post_bind.
  eapply post_mono;
    [apply (post_for_each (λ past cands w1, I (past ≫= expand) cands w1)
                          (λ _, False))| |done].
  - done.
  - intros past e rest cands w1 Hl HI. unfold try_endpoint.
    rewrite bind_app, bind_singleton. unfold expand at 2.
    destruct (root_patterns !! term_value e) as [bases|] eqn:Hbases;
      [|apply post_ret; by rewrite app_nil_r].
    apply post_bind. unfold post at 1, random. simpl.
    destruct (Qltb p_explore (rnd (draws w1))) eqn:Hexplore;
      [by eapply post_ret, Hpasses, Hdraw|].
    eapply post_mono;
      [apply (post_for_each
                (λ past' cands' w2,
                   I ((past ≫= expand)
                      ++ ((λ b, (pattern, (e, assertion b))) <$> past'))
                     cands' w2)
                (λ _, False))|done|done].
    + simpl. rewrite app_nil_r. by apply Hdraw.
    + intros past' b rest' cands' w2 Hl' HI'. unfold try_extension.
      rewrite fmap_app, app_assoc. simpl.
      apply post_bind. unfold post at 1, random. simpl.
      destruct (Qltb p_extend (rnd (draws w2))) eqn:Hextend;
        [apply post_ret, (Hpass _ _ _ _ (draws w2)), Hdraw; [by right|done]|].
      unfold post. rewrite consider_eq.
      eapply (Hpair _ _ _ _ _
                ((((λ b, (pattern, (e, assertion b))) <$> rest'))
                 ++ (rest ≫= expand)));
        [|exact Hexplore|exact Hextend|by apply Hdraw].
      rewrite Hall, Hl, bind_app, bind_cons. unfold expand at 2.
      rewrite Hbases, Hl', fmap_app, fmap_cons, <- !app_assoc.
      reflexivity.
  - intros cands w' HI. by apply post_ret.
Qed.

Lemma length_set_add {A} `{EqDecision A} (x : A) (s : list A) :
  (length (Py.set_add x s) ≤ S (length s))%nat.
Proof.
  unfold Py.set_add. case_bool_decide; [lia|].
  rewrite length_app. simpl. lia.
Qed.

(** X5. When [p_explore] is below every draw, or [p_extend] is, the
    sampling skips everything: the run returns the pattern with no
    candidate, computes no hash, never acquires the lock and leaves the
    shared list as it was. *)
Theorem nothing_sampled root_patterns pattern depth p_explore p_extend
    w r w' :
  (∀ i, (p_explore < rnd i)%Q) ∨ (∀ i, (p_extend < rnd i)%Q) →
  candidates_of root_patterns pattern depth p_explore p_extend w
  = (Ok r, w') →
  r = (pattern, []) ∧ hashed w' = hashed w ∧ locks w' = locks w
  ∧ visited w' = visited w.
Proof.
  intros Hbelow Hrun.
  pose proof (candidates_loops
    (λ _ cands w1, cands = [] ∧ hashed w1 = hashed w ∧ locks w1 = locks w
                   ∧ visited w1 = visited w)
    root_patterns pattern depth p_explore p_extend w) as Hrule.
  unfold post in Hrule. rewrite Hrun in Hrule.
  destruct Hrule as (? & ? & ?); try done.
  - intros pairs cands w1 e b rest i j _ Hexplore Hextend _.
    destruct Hbelow as [Hlt|Hlt];
      [specialize (Hlt i)|specialize (Hlt j)];
      apply Qltb_lt in Hlt; congruence.
  - destruct r as [p cands]. simpl in *. by subst.
Qed.

(** X6. When the index has no entry for the class of any endpoint, the
    run returns the pattern with no candidate and does nothing at all: no
    draw, no hash, no lock. *)
Theorem no_entry_no_work root_patterns pattern depth p_explore p_extend
    endpoints w :
  endpoints_of pattern depth = Ok endpoints →
  (∀ e, e ∈ endpoints → root_patterns !! term_value e = None) →
  candidates_of root_patterns pattern depth p_explore p_extend w
  = (Ok (pattern, []), w).
Proof.
  intros Heps Hnone.
  unfold compute_candidates, mbind at 1 2, M_bind, lift. rewrite Heps.
  assert (Hloop : ∀ cands,
    for_each (try_endpoint rnd interleaved predict_hash contains_at_depth
                root_patterns pattern depth p_explore p_extend)
             endpoints cands w = (Ok cands, w)).
  { clear Heps. induction endpoints as [|e eps IH]; intros cands; [done|].
    simpl. unfold mbind, M_bind, try_endpoint.
    rewrite Hnone by left. simpl. apply IH.
    intros e' He'. apply Hnone. by right. }
  by rewrite Hloop.
Qed.

(** X7. The pairs that a run hands to [predict_hash] are a sub-sequence
    of [all_pairs], the endpoints paired with the root patterns of their
    classes in the order of the two loops; the lock is acquired exactly
    once for each of them; and every candidate the run returns is one of
    them, so that there are at most as many candidates as acquisitions. *)
Theorem considered_sublist root_patterns pattern depth p_explore p_extend
    w r w' :
  candidates_of root_patterns pattern depth p_explore p_extend w
  = (Ok r, w') →
  ∃ pairs,
    hashed w' = hashed w ++ pairs
    ∧ pairs `sublist_of` all_pairs root_patterns pattern depth
    ∧ locks w' = (locks w + length pairs)%nat
    ∧ (∀ c, c ∈ r.2 → (pattern, c) ∈ pairs)
    ∧ (length r.2 ≤ length pairs)%nat.
Proof.
  intros Hrun.
  pose proof (candidates_loops
    (λ passed cands w1,
       ∃ pairs,
         hashed w1 = hashed w ++ pairs
         ∧ pairs `sublist_of` passed
         ∧ locks w1 = (locks w + length pairs)%nat
         ∧ (∀ c, c ∈ cands → (pattern, c) ∈ pairs)
         ∧ (length cands ≤ length pairs)%nat)
    root_patterns pattern depth p_explore p_extend w) as Hrule.
  unfold post in Hrule. rewrite Hrun in Hrule.
  destruct Hrule as [_ Hr]; try done.
  - intros passed pair cands w1 _ _ (pairs & ? & ? & ? & ? & ?).
    exists pairs. split_and!; try done. by apply sublist_inserts_r.
  - intros passed cands w1 e b _ _ _ _ _ _
      (pairs & Hh & Hsub & Hl & Hin & Hlen).
    exists (pairs ++ [(pattern, (e, assertion b))]). simpl.
    split_and!.
    + by rewrite Hh, app_assoc.
    + by apply sublist_app.
    + rewrite length_app, Hl. simpl. lia.
    + intros c Hc. apply elem_of_app.
      destruct (skips _ _ _ _); [left; by apply Hin|].
      apply elem_of_set_add in Hc as [->|Hc]; [right; left|left].
      by apply Hin.
    + rewrite length_app. simpl.
      destruct (skips _ _ _ _); [lia|].
      pose proof (length_set_add (e, assertion b) cands). lia.
  - exists []. rewrite app_nil_r. simpl.
    split_and!; [done|constructor|lia| |lia].
    intros c Hc. by apply elem_of_nil in Hc.
Qed.

(** A run returns its pattern and leaves the progress log alone, or
    raises a KeyError before it has done anything. *)
Lemma candidates_result root_patterns pattern depth p_explore p_extend w :
  outcome (candidates_of root_patterns pattern depth p_explore p_extend) w
    (λ r w', r.1 = pattern ∧ log w' = log w ∧ visited w ⊆ visited w')
    (λ e w', e = KeyError ∧ w' = w ∧ (0 < depth)%nat
             ∧ distances pattern !! (depth - 1)%nat = None).
Proof.
  unfold outcome.
  destruct (candidates_outcome root_patterns pattern depth p_explore
              p_extend w) as [(eps & r & w1 & _ & Hok)|(e & Heps & Hraise)].
  - rewrite Hok. apply accepted_fresh in Hok. tauto.
  - rewrite Hraise. unfold endpoints_of in Heps.
    case_bool_decide as Hd; [done|].
    destruct (distances pattern !! (depth - 1)%nat) eqn:Hlook; [done|].
    injection Heps as <-. split_and!; [done..|lia|done].
Qed.

(** X19. With [p_explore = p_extend = 1] and draws below one the search
    is exhaustive: after a run the shared list holds the hash of every
    pair of [all_pairs] whose extension the pattern does not contain at
    this depth, whoever recorded it. If moreover no other worker appends
    in between and no two pairs of the pattern have the same hash, the
    candidates the run returns are exactly the pairs of [all_pairs] whose
    extension the pattern does not contain and whose hash was not in the
    list before. *)
Theorem exhaustive_at_one root_patterns pattern depth p_explore p_extend
    w r w' :
  (∀ i, (rnd i < 1)%Q) → (p_explore == 1)%Q → (p_extend == 1)%Q →
  candidates_of root_patterns pattern depth p_explore p_extend w
  = (Ok r, w') →
  (∀ c, (pattern, c) ∈ all_pairs root_patterns pattern depth →
        contains_at_depth pattern c.2 depth = false →
        hash_in pattern c ∈ visited w')
  ∧ ((∀ n, interleaved n = []) →
     (∀ c c', (pattern, c) ∈ all_pairs root_patterns pattern depth →
              (pattern, c') ∈ all_pairs root_patterns pattern depth →
              hash_in pattern c = hash_in pattern c' → c = c') →
     ∀ c, c ∈ r.2 ↔
          (pattern, c) ∈ all_pairs root_patterns pattern depth
          ∧ contains_at_depth pattern c.2 depth = false
          ∧ hash_in pattern c ∉ visited w).
Proof.
  intros Hrnd Hexplore Hextend Hrun.
  set (every := all_pairs root_patterns pattern depth).
  pose proof (candidates_loops
    (λ passed cands w1,
       (∀ x, x ∈ passed → x ∈ every)
       ∧ (∀ c, (pattern, c) ∈ passed →
               contains_at_depth pattern c.2 depth = false →
               hash_in pattern c ∈ visited w1)
       ∧ ((∀ n, interleaved n = []) →
          (∀ c c', (pattern, c) ∈ every → (pattern, c') ∈ every →
                   hash_in pattern c = hash_in pattern c' → c = c') →
          visited w1 = visited w ++ (hash_in pattern <$> cands)
          ∧ ∀ c, c ∈ cands ↔
                 (pattern, c) ∈ passed
                 ∧ contains_at_depth pattern c.2 depth = false
                 ∧ hash_in pattern c ∉ visited w))
    root_patterns pattern depth p_explore p_extend w) as Hrule.
  unfold post in Hrule. rewrite Hrun in Hrule.
  destruct Hrule as (_ & _ & Hcover & Hexact); try done.
  - intros passed pair cands w1 i [Hskip|Hskip] _;
      by rewrite never_skipped in Hskip.
  - intros passed cands w1 e b rest i j Hevery _ _ (Hsub & Hcover & Hexact).
    fold every in Hevery.
    pose proof (considered_visited interleaved predict_hash contains_at_depth
                  pattern depth (e, assertion b) w1) as Hgrow.
    assert (Hsub' : ∀ x, x ∈ passed ++ [(pattern, (e, assertion b))] → x ∈ every).
    { intros x Hx. rewrite Hevery, cons_middle, app_assoc.
      apply elem_of_app. by left. }
    split; [exact Hsub'|]. split.
    + intros c [Hc| [= ->]%list_elem_of_singleton]%elem_of_app Hcad.
      * by apply Hgrow, Hcover.
      * unfold considered, skipped. simpl in *. rewrite Hcad, orb_false_r.
        case_bool_decide as Hseen; [done|]. apply elem_of_app. right. left.
    + intros Hquiet Hinj. destruct (Hexact Hquiet Hinj) as [Hvisited Hiff].
      assert (Hseen : seen_by w1 = visited w1).
      { unfold seen_under_lock. by rewrite Hquiet, app_nil_r. }
      unfold considered, skipped. simpl. rewrite Hseen.
      destruct (bool_decide (predict_hash pattern e (assertion b)
                             ∈ visited w1)) eqn:Hold;
        simpl.
      { apply bool_decide_eq_true in Hold. split; [done|].
        intros c. rewrite Hiff, elem_of_app, list_elem_of_singleton.
        split; [tauto|]. intros ([Hc| [= ->]] & Hcad & Hnew); [done|].
        rewrite Hvisited in Hold.
        apply elem_of_app in Hold as [Hold|Hold]; [done|].
        apply list_elem_of_fmap in Hold as (c' & Hhash & Hc').
        assert ((e, assertion b) = c') as ->; [|by apply Hiff].
        apply Hinj; [apply Hsub'|apply Hsub|done].
        - apply elem_of_app. right. left.
        - by apply Hiff. }
      apply bool_decide_eq_false in Hold.
      destruct (contains_at_depth pattern (assertion b) depth) eqn:Hcad; simpl.
      { split; [done|]. intros c.
        rewrite Hiff, elem_of_app, list_elem_of_singleton.
        split; [tauto|]. intros ([Hc| [= ->]] & Hcad' & Hnew); [done|].
        simpl in Hcad'. congruence. }
      assert (Hadd : Py.set_add (e, assertion b) cands = cands ++ [(e, assertion b)]).
      { unfold Py.set_add. rewrite bool_decide_eq_false_2; [done|].
        intros Hc. apply Hold. rewrite Hvisited. apply elem_of_app. right.
        apply list_elem_of_fmap. by exists (e, assertion b). }
      rewrite Hadd, fmap_app, Hvisited, <- app_assoc. split; [done|].
      intros c. rewrite !elem_of_app, !list_elem_of_singleton, Hiff.
      split.
      * intros [? | ->]; [tauto|]. split_and!; [by right|done|].
        intros Hw. apply Hold. rewrite Hvisited. apply elem_of_app.
        by left.
      * intros ([Hc| [= ->]] & Hcad' & Hnew); [left|right]; done.
  - split_and!.
    + intros x Hx. by apply elem_of_nil in Hx.
    + intros c Hc. by apply elem_of_nil in Hc.
    + intros _ _. simpl. rewrite app_nil_r. split; [done|].
      intros c. split; [by intros ?%elem_of_nil|].
      by intros [?%elem_of_nil _].
  - split; [exact Hcover|]. intros Hquiet Hinj.
    by apply Hexact.
Qed.

End CandidateMore.

(** ** Rules for outcomes *)

Lemma outcome_ret {X} (x : X) w (Q : X → World → Prop) E :
  Q x w → outcome (mret x) w Q E.
Proof. done. Qed.

Lemma outcome_bind {X Y} (m : M X) (f : X → M Y) w
    (Q : Y → World → Prop) E :
  outcome m w (λ x w', outcome (f x) w' Q E) E → outcome (x ← m; f x) w Q E.
Proof.
  unfold outcome, mbind, M_bind. destruct (m w) as [[x|e] w']; done.
Qed.

Lemma outcome_mono {X} (m : M X) w (Q Q' : X → World → Prop)
    (E E' : Exn → World → Prop) :
  outcome m w Q E → (∀ x w', Q x w' → Q' x w') → (∀ e w', E e w' → E' e w') →
  outcome m w Q' E'.
Proof.
  unfold outcome. destruct (m w) as [[x|e] w']; eauto.
Qed.

Lemma outcome_for_each {X Y} (I : list X → Y → World → Prop)
    (E : Exn → World → Prop) (body : Y → X → M Y) (l : list X) (acc : Y) w :
  I [] acc w →
  (∀ past x rest acc w, l = past ++ x :: rest → I past acc w →
     outcome (body acc x) w (I (past ++ [x])) E) →
  outcome (for_each body l acc) w (I l) E.
Proof.
  intros H0 Hbody.
  enough (Hgen : ∀ rest past acc w, l = past ++ rest → I past acc w →
            outcome (for_each body rest acc) w (I l) E).
  { by apply (Hgen l []). }
  induction rest as [|x rest IH]; intros past acc' w' Hl HI; simpl.
  - apply outcome_ret. rewrite app_nil_r in Hl. by subst.
  - apply outcome_bind.
    apply (outcome_mono _ _ (I (past ++ [x])) _ E E); [| |done].
    + by apply (Hbody past x rest).
    + intros acc'' w'' HI'. apply (IH (past ++ [x])); [|done].
      by rewrite <- app_assoc.
Qed.

Lemma outcome_map_each {X Y} (I : World → Prop) (R : X → Y → Prop)
    (E : Exn → World → Prop) (f : X → M Y) (l : list X) w :
  I w →
  (∀ x w, x ∈ l → I w → outcome (f x) w (λ y w', R x y ∧ I w') E) →
  outcome (map_each f l) w (λ ys w', Forall2 R l ys ∧ I w') E.
Proof.
  revert w. induction l as [|x l IH]; intros w HI Hf; simpl.
  - by apply outcome_ret.
  - apply outcome_bind. eapply outcome_mono; [apply Hf; [left|done]| |done].
    intros y w' [Hy HI']. simpl. apply outcome_bind.
    eapply outcome_mono; [apply IH; [done|]| |done].
    + intros x' w'' Hx'. apply Hf. by right.
    + intros ys w'' [Hys HI'']. simpl. apply outcome_ret. split; [|done].
      by constructor.
Qed.

(** ** More on the Growth Driver *)

Section DriverMore.

Variable rnd : nat → Q.
Variable interleaved : nat → list Z.
Variable predict_hash : GraphPattern → Term → Assertion → Z.
Variable contains_at_depth : GraphPattern → Assertion → nat → bool.
Variable explore :
  GraphPattern → list Candidate → Z → Z → Z → list GraphPattern.
Variable write_query : GraphPattern → Z → Z.
Variable len : GraphPattern → nat.
Variable width : GraphPattern → Z.
Variable name_le : Resource → Resource → bool.
Variable root_patterns : RootPatterns.
Variable depths_stop : nat.
Variable min_support : Z.
Variable p_explore p_extend : Q.
Variable max_length max_width : Z.
Variable out : bool.

Local Abbreviation extendable :=
  (extendable len width max_length max_width).
Local Abbreviation pool :=
  (pool rnd interleaved predict_hash contains_at_depth explore write_query
        len width root_patterns min_support p_explore p_extend max_length
        max_width out).
Local Abbreviation df_depths :=
  (df_depths rnd interleaved predict_hash contains_at_depth explore
             write_query len width root_patterns min_support p_explore
             p_extend max_length max_width out).
Local Abbreviation df_class :=
  (df_class rnd interleaved predict_hash contains_at_depth explore
            write_query len width root_patterns depths_stop min_support
            p_explore p_extend max_length max_width out).
Local Abbreviation generate_df :=
  (generate_df rnd interleaved predict_hash contains_at_depth explore
               write_query len width name_le root_patterns depths_stop
               min_support p_explore p_extend max_length max_width out).
Local Abbreviation bf_class :=
  (bf_class rnd interleaved predict_hash contains_at_depth explore
            write_query len width root_patterns min_support p_explore
            p_extend max_length max_width out).
Local Abbreviation bf_depths :=
  (bf_depths rnd interleaved predict_hash contains_at_depth explore
             write_query len width name_le root_patterns min_support
             p_explore p_extend max_length max_width out).
Local Abbreviation generate_bf :=
  (generate_bf rnd interleaved predict_hash contains_at_depth explore
               write_query len width name_le root_patterns depths_stop
               min_support p_explore p_extend max_length max_width out).
Local Abbreviation generate :=
  (generate rnd interleaved predict_hash contains_at_depth explore
            write_query len width name_le root_patterns depths_stop
            min_support p_explore p_extend max_length max_width out).

(** Where a derivative comes from: a seed, or the Pattern Extension of a
    submitted pattern. *)
Local Abbreviation seed_of n d p :=
  (d = 0%nat
   ∧ ∃ patterns, root_patterns !! n = Some patterns ∧ p ∈ patterns
                 ∧ isinstance_ObjectTypeVariable (rhs (assertion p))).
Local Abbreviation extension_of sub p :=
  (∃ pattern cands,
     pattern ∈ sub
     ∧ p ∈ explore pattern cands max_length max_width min_support).

(** What holds of the progress lines [evs] of a run so far. *)
Local Abbreviation chained evs :=
  ((∀ n fr sub sh,
      Exploring n 0 fr sub sh ∈ evs → root_patterns !! n = Some fr)
   ∧ (∀ n d fr sub sh,
        Exploring n (S d) fr sub sh ∈ evs →
        fr ≠ [] ∧ Discovered n d fr ∈ evs)
   ∧ (∀ n d derivs p,
        Discovered n d derivs ∈ evs → p ∈ derivs →
        seed_of n d p
        ∨ ∃ fr sub sh, Exploring n d fr sub sh ∈ evs ∧ extension_of sub p)).

(** How a run fails: with a KeyError, after the submission of a frontier
    at a depth above 0 in which some pattern has no entry in [distances]
    for the depth before. *)
Local Abbreviation failed e w' :=
  (e = KeyError
   ∧ ∃ l n d fr sub sh pattern,
       log w' = l ++ [Exploring n d fr sub sh] ∧ (0 < d)%nat
       ∧ pattern ∈ sub ∧ distances pattern !! (d - 1)%nat = None).

Lemma derivatives_from (fextensions : list (list GraphPattern))
    (derivatives : list GraphPattern) (num_patterns : Z) p :
  p ∈ (foldl (λ acc extensions,
                (Py.set_union acc.1 extensions,
                 write_all write_query out extensions acc.2))
             (derivatives, num_patterns) fextensions).1 →
  p ∈ derivatives ∨ ∃ extensions, extensions ∈ fextensions ∧ p ∈ extensions.
Proof.
  revert derivatives num_patterns.
  induction fextensions as [|exts l IH]; intros derivs n; simpl; [by left|].
  intros [Hp|(exts' & Hin & Hp)]%IH.
  - simpl in Hp. apply elem_of_set_union in Hp as [Hp|Hp]; [by left|].
    right. exists exts. split; [left|done].
  - right. exists exts'. split; [by right|done].
Qed.

Lemma count_kept (fextensions : list (list GraphPattern))
    (derivatives : list GraphPattern) (num_patterns : Z) :
  out = false →
  (foldl (λ acc extensions,
            (Py.set_union acc.1 extensions,
             write_all write_query out extensions acc.2))
         (derivatives, num_patterns) fextensions).2 = num_patterns.
Proof.
  intros Hout. revert derivatives num_patterns.
  induction fextensions as [|exts l IH]; intros derivs n; simpl; [done|].
  rewrite IH. unfold write_all. by rewrite Hout.
Qed.

(** One pool: its progress line, where its derivatives come from, what
    it counts, and how it fails. *)
Lemma pool_outcome name depth patterns derivatives num_patterns w :
  let line := Exploring name depth patterns
                        (List.filter extendable patterns) (visited w) in
  outcome (pool name depth patterns derivatives num_patterns) w
    (λ r w',
       log w' = log w ++ [line]
       ∧ (∀ p, p ∈ r.1 →
            p ∈ derivatives
            ∨ extension_of (List.filter extendable patterns) p)
       ∧ (out = false → r.2 = num_patterns)
       ∧ visited w ⊆ visited w')
    (λ e w',
       e = KeyError ∧ log w' = log w ++ [line] ∧ (0 < depth)%nat
       ∧ ∃ pattern, pattern ∈ List.filter extendable patterns
                    ∧ distances pattern !! (depth - 1)%nat = None).
Proof.
  intros line. unfold pool. apply outcome_bind. unfold outcome at 1, submit.
  set (ws := mkWorld _ _ _ _ _). apply outcome_bind.
  eapply outcome_mono;
    [apply (outcome_map_each
              (λ w1, log w1 = log ws ∧ visited w ⊆ visited w1)
              (λ pattern (r : GraphPattern * list Candidate), r.1 = pattern)
              (λ e w1,
                 e = KeyError ∧ log w1 = log ws ∧ (0 < depth)%nat
                 ∧ ∃ pattern, pattern ∈ List.filter extendable patterns
                     ∧ distances pattern !! (depth - 1)%nat = None))| |].
  - done.
  - intros pattern w1 Hin [Hlog Hvis].
    eapply outcome_mono; [apply candidates_result| |].
    + intros r w2 (Hr & Hlog2 & Hvis2). split; [done|].
      split; [congruence|by etrans].
    + intros e w2 (-> & -> & Hd & Hnone). split_and!; try done.
      by exists pattern.
  - intros fcandidates w1 (Hall & Hlog & Hvis). apply outcome_ret.
    split_and!; [| | |exact Hvis].
    + done.
    + intros p [Hp|(exts & Hexts & Hp)]%derivatives_from; [by left|right].
      apply list_elem_of_fmap in Hexts as (pc & -> & Hpc).
      exists pc.1, pc.2. split; [|done].
      apply list_elem_of_lookup in Hpc as [i Hi].
      destruct (Forall2_lookup_r _ _ _ _ _ Hall Hi) as (x & Hx & ->).
      by eapply list_elem_of_lookup_2.
    + apply count_kept.
  - intros e w1 H. exact H.
Qed.

Lemma chained_exploring evs name depth frontier sub sh :
  chained evs →
  (depth = 0%nat → root_patterns !! name = Some frontier) →
  (∀ d, depth = S d → frontier ≠ [] ∧ Discovered name d frontier ∈ evs) →
  chained (evs ++ [Exploring name depth frontier sub sh]).
Proof.
  intros (Ha & Hb & Hc) H0 HS. split_and!.
  - intros n fr sub' sh' [Hin|Heq%list_elem_of_singleton]%elem_of_app;
      [eauto|]. simplify_eq. by apply H0.
  - intros n d fr sub' sh' [Hin|Heq%list_elem_of_singleton]%elem_of_app.
    + destruct (Hb _ _ _ _ _ Hin). split; [done|]. apply elem_of_app.
      by left.
    + simplify_eq. destruct (HS d) as [? ?]; [done|]. split; [done|].
      apply elem_of_app. by left.
  - intros n d derivs p [Hin|Heq%list_elem_of_singleton]%elem_of_app Hp;
      [|done].
    destruct (Hc _ _ _ _ Hin Hp) as [?|(fr & sub' & sh' & He & Hext)];
      [by left|right].
    exists fr, sub', sh'. split; [|done]. apply elem_of_app. by left.
Qed.

Lemma chained_discovered evs name depth derivs :
  chained evs →
  (∀ p, p ∈ derivs →
     seed_of name depth p
     ∨ ∃ fr sub sh, Exploring name depth fr sub sh ∈ evs
                    ∧ extension_of sub p) →
  chained (evs ++ [Discovered name depth derivs]).
Proof.
  intros (Ha & Hb & Hc) Hnew.
  assert (Hkeep : ∀ n d p,
    (seed_of n d p
     ∨ ∃ fr sub sh, Exploring n d fr sub sh ∈ evs ∧ extension_of sub p) →
    seed_of n d p
    ∨ ∃ fr sub sh,
        Exploring n d fr sub sh ∈ evs ++ [Discovered name depth derivs]
        ∧ extension_of sub p).
  { intros n d p [?|(fr & sub' & sh' & He & Hext)]; [by left|right].
    exists fr, sub', sh'. split; [|done]. apply elem_of_app. by left. }
  split_and!.
  - intros n fr sub' sh' [Hin|Heq%list_elem_of_singleton]%elem_of_app;
      [eauto|done].
  - intros n d fr sub' sh' [Hin|Heq%list_elem_of_singleton]%elem_of_app;
      [|done].
    destruct (Hb _ _ _ _ _ Hin). split; [done|]. apply elem_of_app. by left.
  - intros n d derivs' p [Hin|Heq%list_elem_of_singleton]%elem_of_app Hp.
    + apply Hkeep. eauto.
    + simplify_eq. apply Hkeep. eauto.
Qed.

(** One pool followed by its [Discovered] line keeps the progress lines
    chained. *)
Lemma pool_chained name depth frontier num_patterns w :
  chained (log w) →
  (depth = 0%nat → root_patterns !! name = Some frontier) →
  (∀ d, depth = S d →
        frontier ≠ [] ∧ Discovered name d frontier ∈ log w) →
  outcome (pool name depth frontier (seeds depth frontier) num_patterns) w
    (λ r w',
       chained (log w' ++ [Discovered name depth r.1])
       ∧ (∀ ev, ev ∈ log w → ev ∈ log w')
       ∧ (out = false → r.2 = num_patterns))
    (λ e w', chained (log w') ∧ failed e w').
Proof.
  intros Hch H0 HS.
  pose proof (chained_exploring (log w) name depth frontier
                (List.filter extendable frontier) (visited w) Hch H0 HS)
    as Hch1.
  eapply outcome_mono; [apply pool_outcome| |].
  - intros r w1 (Hlog & Hfrom & Hcount & _). rewrite Hlog.
    split; [|split].
    + apply chained_discovered; [exact Hch1|].
      intros p [Hseed|Hext]%Hfrom.
      * left. unfold seeds in Hseed. case_bool_decide as Hd;
          [|by apply elem_of_nil in Hseed].
        apply elem_of_set_of, list_elem_of_filter in Hseed as [Hotv Hp].
        assert (depth = 0%nat) as -> by lia. split; [done|].
        exists frontier. split_and!; [by apply H0|done..].
      * right. exists frontier, (List.filter extendable frontier), (visited w).
        split; [|done]. apply elem_of_app. right. left.
    + intros ev Hev. apply elem_of_app. by left.
    + done.
  - intros e w1 (-> & Hlog & Hd & pattern & Hin & Hnone).
    rewrite Hlog. split; [exact Hch1|]. split; [done|].
    exists (log w), name, depth, frontier, (List.filter extendable frontier),
      (visited w), pattern.
    done.
Qed.

Lemma df_depths_chained remaining : ∀ depth name patterns num_patterns w,
  chained (log w) → is_Some (root_patterns !! name) →
  (∀ d, depth = S d →
        patterns ≠ [] ∧ Discovered name d patterns ∈ log w) →
  outcome (df_depths remaining depth name patterns num_patterns) w
    (λ n w', chained (log w') ∧ (out = false → n = num_patterns))
    (λ e w', chained (log w') ∧ failed e w').
Proof.
  induction remaining as [|remaining IH];
    intros depth name patterns num_patterns w Hch [roots Hroots] HS; simpl.
  { by apply outcome_ret. }
  assert (Hiter : ∀ frontier,
    (depth = 0%nat → root_patterns !! name = Some frontier) →
    (∀ d, depth = S d →
          frontier ≠ [] ∧ Discovered name d frontier ∈ log w) →
    outcome (r ← pool name depth frontier (seeds depth frontier) num_patterns;
             _ ← tell (Discovered name depth r.1);
             if bool_decide (0 < length r.1)%nat
             then df_depths remaining (S depth) name r.1 r.2
             else mret r.2) w
      (λ n w', chained (log w') ∧ (out = false → n = num_patterns))
      (λ e w', chained (log w') ∧ failed e w')).
  { intros frontier H0 HS'. apply outcome_bind.
    eapply outcome_mono; [by apply pool_chained| |done].
    intros r w1 (Hch1 & _ & Hcount). apply outcome_bind.
    unfold outcome at 1, tell. set (w2 := mkWorld _ _ _ _ _).
    case_bool_decide as Hlen; [|by apply outcome_ret].
    eapply outcome_mono; [apply IH| |done].
    - exact Hch1.
    - by exists roots.
    - intros d [= <-]. split.
      + intros Hnil. rewrite Hnil in Hlen. simpl in Hlen. lia.
      + apply elem_of_app. right. left.
    - intros n w' [? Hn]. split; [done|]. intros Hout.
      by rewrite Hn, Hcount. }
  apply outcome_bind. case_bool_decide as Hdepth.
  - unfold outcome at 1, lift, item. rewrite Hroots.
    apply Hiter; [done|]. intros d ->. done.
  - apply outcome_ret, Hiter; [done|exact HS].
Qed.

Lemma generate_df_chained w :
  chained (log w) →
  outcome generate_df w
    (λ n w', chained (log w') ∧ (out = false → n = 0))
    (λ e w', chained (log w') ∧ failed e w').
Proof.
  intros Hch. unfold generate_df.
  apply (outcome_for_each
           (λ _ n w', chained (log w') ∧ (out = false → n = 0))
           (λ e w', chained (log w') ∧ failed e w')); [done|].
  intros past name rest n w1 Hl [Hch1 Hn]. unfold df_class.
  apply outcome_bind. unfold outcome at 1, new_visited.
  eapply outcome_mono; [apply df_depths_chained| |done].
  - exact Hch1.
  - apply (elem_of_sorted_names name_le). rewrite Hl, elem_of_app, elem_of_cons.
    tauto.
  - done.
  - intros n' w' [? Hn']. split; [done|]. intros Hout.
    by rewrite Hn', Hn.
Qed.

Lemma bf_depths_chained remaining : ∀ depth parents num_patterns w,
  chained (log w) →
  (∀ d n fr, depth = S d → parents !! n = Some fr →
             fr ≠ [] ∧ Discovered n d fr ∈ log w) →
  outcome (bf_depths remaining depth parents num_patterns) w
    (λ n w', chained (log w') ∧ (out = false → n = num_patterns))
    (λ e w', chained (log w') ∧ failed e w').
Proof.
  induction remaining as [|remaining IH];
    intros depth parents num_patterns w Hch HS; simpl.
  { by apply outcome_ret. }
  set (frontiers := if bool_decide (depth = 0)%nat
                    then root_patterns else parents).
  apply outcome_bind. unfold outcome at 1, new_visited.
  set (w0 := mkWorld _ _ _ _ _). apply outcome_bind.
  eapply outcome_mono;
    [apply (outcome_for_each
       (λ _ (acc : RootPatterns * Z) w1,
          chained (log w1)
          ∧ (∀ d n fr, depth = S d → frontiers !! n = Some fr →
                       fr ≠ [] ∧ Discovered n d fr ∈ log w1)
          ∧ (∀ n derivs, acc.1 !! n = Some derivs →
                         Discovered n depth derivs ∈ log w1)
          ∧ (out = false → acc.2 = num_patterns))
       (λ e w', chained (log w') ∧ failed e w'))| |done].
  - split; [exact Hch|]. split_and!; [|intros n derivs; simpl; by rewrite lookup_empty|done].
    intros d n fr -> Hfr. unfold frontiers in Hfr. simpl in Hfr.
    by apply (HS d).
  - intros past name rest acc w1 Hl (Hch1 & Hprev & Hacc & Hcount).
    unfold bf_class. apply outcome_bind. unfold outcome at 1, lift, item.
    assert (Hin : is_Some (frontiers !! name)).
    { apply (elem_of_sorted_names name_le).
      rewrite Hl, elem_of_app, elem_of_cons. tauto. }
    destruct Hin as [fr Hfr]. rewrite Hfr. apply outcome_bind.
    eapply outcome_mono; [apply pool_chained| |done].
    + exact Hch1.
    + intros ->. exact Hfr.
    + intros d Hd. by apply (Hprev d name).
    + intros r w2 (Hch2 & Hgrow & Hcount2). apply outcome_bind.
      unfold outcome at 1, tell. apply outcome_ret. simpl.
      split; [exact Hch2|]. split_and!.
      * intros d n fr' Hd Hfr'. destruct (Hprev d n fr' Hd Hfr').
        split; [done|]. apply elem_of_app. left. by apply Hgrow.
      * intros n derivs. destruct (decide (n = name)) as [->|Hne].
        -- rewrite lookup_insert_eq. intros [= <-]. apply elem_of_app.
           right. left.
        -- rewrite lookup_insert_ne by done. intros Hn%Hacc.
           apply elem_of_app. left. by apply Hgrow.
      * intros Hout. by rewrite Hcount2, Hcount.
  - intros acc w1 (Hch1 & Hprev & Hacc & Hcount).
    eapply outcome_mono; [apply IH| |done].
    + exact Hch1.
    + intros d n fr [= <-] [Hlook Hlen]%map_lookup_filter_Some.
      simpl in Hlen. split; [|by apply Hacc].
      intros ->. simpl in Hlen. lia.
    + intros n w' [? Hn]. split; [done|]. intros Hout.
      by rewrite Hn, Hcount.
Qed.

Lemma generate_chained strategy :
  outcome (generate strategy) start
    (λ n w', chained (log w') ∧ (out = false → n = 0))
    (λ e w', chained (log w') ∧ failed e w').
Proof.
  assert (Hstart : chained (log start)).
  { simpl. split_and!; intros; by apply elem_of_nil in H. }
  destruct strategy; simpl.
  - apply bf_depths_chained; [exact Hstart|]. intros d n fr _.
    by rewrite lookup_empty.
  - by apply generate_df_chained.
Qed.

Lemma generate_log_chained strategy :
  chained (log (generate strategy start).2).
Proof.
  pose proof (generate_chained strategy) as Hrun. unfold outcome in Hrun.
  destruct (generate strategy start) as [[n|e] w']; simpl; tauto.
Qed.

(** X8. In a run of either driver, the frontier of a class at depth 0 is
    its root set in the index, and its frontier at a depth d + 1 is the
    set of derivatives that was counted for the class at depth d, which
    is not empty. *)
Theorem frontier_chain strategy name frontier submitted shared :
  (Exploring name 0 frontier submitted shared
     ∈ log (generate strategy start).2 →
   root_patterns !! name = Some frontier)
  ∧ (∀ d, Exploring name (S d) frontier submitted shared
            ∈ log (generate strategy start).2 →
          frontier ≠ []
          ∧ Discovered name d frontier ∈ log (generate strategy start).2).
Proof.
  destruct (generate_log_chained strategy) as (Ha & Hb & _).
  split; [apply Ha|]. intros d. apply Hb.
Qed.

(** X9. Every pattern that a run of either driver counts among the
    derivatives of a class at some depth is a seed, that is a root pattern
    of the class with an ObjectTypeVariable as object, counted at depth 0,
    or is returned by the Pattern Extension step for a pattern that was
    submitted for the class at that depth, whose length and width are
    below the limits. *)
Theorem derivative_origin strategy name depth derivatives p :
  Discovered name depth derivatives ∈ log (generate strategy start).2 →
  p ∈ derivatives →
  (depth = 0%nat
   ∧ ∃ patterns, root_patterns !! name = Some patterns ∧ p ∈ patterns
                 ∧ isinstance_ObjectTypeVariable (rhs (assertion p)))
  ∨ ∃ frontier submitted shared pattern cands,
      Exploring name depth frontier submitted shared
        ∈ log (generate strategy start).2
      ∧ pattern ∈ frontier
      ∧ Z.of_nat (len pattern) < max_length ∧ width pattern < max_width
      ∧ p ∈ explore pattern cands max_length max_width min_support.
Proof.
  intros Hd Hp.
  destruct (generate_log_chained strategy) as (_ & _ & Hc).
  destruct (Hc _ _ _ _ Hd Hp)
    as [?|(fr & sub & sh & He & pattern & cands & Hin & Hext)];
    [by left|right].
  exists fr, sub, sh, pattern, cands. split; [done|].
  assert (Hsub : sub = List.filter extendable fr).
  { pose proof (generate_class_trace rnd interleaved predict_hash
                  contains_at_depth explore write_query len width name_le
                  root_patterns depths_stop min_support p_explore p_extend
                  max_length max_width out strategy name) as Htrace.
    assert (He' : Exploring name depth fr sub sh
                  ∈ events_of name (log (generate strategy start).2)).
    { unfold events_of. apply list_elem_of_filter. by split. }
    eapply class_trace_submitted; [exact Htrace|exact He']. }
  rewrite Hsub in Hin. apply list_elem_of_In, filter_In in Hin as [Hfr Hext'].
  apply list_elem_of_In in Hfr. unfold extendable in Hext'.
  apply andb_true_iff in Hext' as [H1 H2].
  apply bool_decide_eq_true in H1, H2. done.
Qed.

Lemma explored_elem_of name depth frontier submitted shared evs :
  Exploring name depth frontier submitted shared ∈ evs →
  depth ∈ explored evs.
Proof.
  intros Hin. unfold explored. apply list_elem_of_omap.
  by exists (Exploring name depth frontier submitted shared).
Qed.

(** X11. Patterns are only counted when they are written: without a
    writer and a prefix map, a driver that returns returns 0. *)
Theorem count_without_writer strategy n w' :
  out = false → generate strategy start = (Ok n, w') → n = 0.
Proof.
  intros Hout Hrun.
  pose proof (generate_chained strategy) as Hrule. unfold outcome in Hrule.
  rewrite Hrun in Hrule. by apply Hrule.
Qed.

Lemma sorted_names_empty : sorted_names name_le (∅ : RootPatterns) = [].
Proof. unfold sorted_names. by rewrite dom_empty_L, elements_empty. Qed.

(** X13. Depth first, the progress log is made of one block of lines for
    each class of the index, in the sorted order of the class names: a
    class is explored at all its depths before the next class starts. *)
Theorem depth_first_order :
  ∃ blocks,
    log (generate DFS start).2 = concat blocks
    ∧ Forall2 (λ name block, Forall (λ ev, event_name ev = name) block)
              (sorted_names name_le root_patterns) blocks.
Proof.
  pose proof (generate_df_traces rnd interleaved predict_hash
                contains_at_depth explore write_query len width name_le
                root_patterns depths_stop min_support p_explore p_extend
                max_length max_width out start) as Hrun.
  unfold post in Hrun. simpl.
  assert (Hshape : ∃ evss,
    log (generate_df start).2 = concat evss
    ∧ Forall2 (λ n evs, df_trace len width root_patterns max_length
                                 max_width n 0 depths_stop [] evs)
              (sorted_names name_le root_patterns) evss).
  { destruct (generate_df start) as [[n|e] w']; exact Hrun. }
  destruct Hshape as (evss & Hlog & Hall). exists evss. split; [done|].
  eapply Forall2_impl; [exact Hall|]. intros name evs Htrace.
  eapply class_trace_names, df_trace_class_trace, Htrace.
Qed.

(** The depths of the progress lines do not decrease. *)
Local Abbreviation by_depth evs :=
  (StronglySorted le (event_depth <$> evs)).

Lemma by_depth_snoc evs ev :
  by_depth evs →
  Forall (λ ev', event_depth ev' ≤ event_depth ev)%nat evs →
  by_depth (evs ++ [ev])
  ∧ Forall (λ ev', event_depth ev' ≤ event_depth ev)%nat (evs ++ [ev]).
Proof.
  intros Hsorted Hbelow. split.
  - rewrite fmap_app. apply StronglySorted_app_2.
    + intros d1 d2 (ev1 & -> & Hev1)%list_elem_of_fmap
                   ->%list_elem_of_singleton.
      rewrite Forall_forall in Hbelow. by apply Hbelow.
    + done.
    + repeat constructor.
  - apply Forall_app. split; [done|]. by repeat constructor.
Qed.

Lemma bf_depths_ordered remaining : ∀ depth parents num_patterns w,
  by_depth (log w) → Forall (λ ev, event_depth ev ≤ depth)%nat (log w) →
  outcome (bf_depths remaining depth parents num_patterns) w
    (λ _ w', by_depth (log w')) (λ _ w', by_depth (log w')).
Proof.
  induction remaining as [|remaining IH];
    intros depth parents num_patterns w Hsorted Hbelow; simpl.
  { by apply outcome_ret. }
  apply outcome_bind. unfold outcome at 1, new_visited.
  set (w0 := mkWorld _ _ _ _ _). apply outcome_bind.
  eapply outcome_mono;
    [apply (outcome_for_each
       (λ _ (_ : RootPatterns * Z) w1,
          by_depth (log w1)
          ∧ Forall (λ ev, event_depth ev ≤ depth)%nat (log w1))
       (λ _ w', by_depth (log w')))| |done].
  - done.
  - intros past name rest acc w1 _ [Hsorted1 Hbelow1].
    unfold bf_class. apply outcome_bind. unfold outcome at 1, lift, item.
    destruct (_ !! name) as [fr|]; [|done].
    apply outcome_bind. eapply outcome_mono; [apply pool_outcome| |].
    + intros r w2 (Hlog & _). apply outcome_bind.
      unfold outcome at 1, tell. apply outcome_ret. simpl. rewrite Hlog.
      destruct (by_depth_snoc (log w1)
                  (Exploring name depth fr (List.filter extendable fr)
                             (visited w1)) Hsorted1 Hbelow1)
        as [Hsorted2 Hbelow2].
      by apply (by_depth_snoc _ (Discovered name depth r.1)).
    + intros e w2 (_ & Hlog & _). rewrite Hlog.
      by apply (by_depth_snoc (log w1)
                  (Exploring name depth fr (List.filter extendable fr)
                             (visited w1))).
  - intros acc w1 [Hsorted1 Hbelow1]. apply IH; [done|].
    eapply Forall_impl; [exact Hbelow1|]. simpl. intros; lia.
Qed.

(** X14. Breadth first, the depths of the progress lines never decrease:
    every class is explored at a depth before any class is explored at
    the next. *)
Theorem breadth_first_order :
  StronglySorted le (event_depth <$> log (generate BFS start).2).
Proof.
  pose proof (bf_depths_ordered depths_stop 0 ∅ 0 start) as Hrun.
  unfold outcome in Hrun. simpl. unfold generate_bf.
  destruct (bf_depths depths_stop 0 ∅ 0 start) as [[n|e] w'];
    apply Hrun; constructor.
Qed.

(** Of two submissions at one depth, the later finds in the shared
    list whatever the earlier found. *)
Local Abbreviation sharing evs :=
  (∀ i j n n' d fr fr' sub sub' sh sh',
     (i ≤ j)%nat →
     evs !! i = Some (Exploring n d fr sub sh) →
     evs !! j = Some (Exploring n' d fr' sub' sh') →
     sh ⊆ sh').

Lemma sharing_exploring evs n d fr sub sh :
  sharing evs →
  (∀ n' fr' sub' sh', Exploring n' d fr' sub' sh' ∈ evs → sh' ⊆ sh) →
  sharing (evs ++ [Exploring n d fr sub sh]).
Proof.
  intros Hevs Hold i j n1 n2 d' fr1 fr2 sub1 sub2 sh1 sh2 Hij Hi Hj.
  apply lookup_snoc_Some in Hj as [[Hlt Hj]|[-> Heq]].
  - apply lookup_snoc_Some in Hi as [[_ Hi]|[-> _]]; [|lia].
    by eapply (Hevs i j).
  - simplify_eq.
    apply lookup_snoc_Some in Hi as [[_ Hi]|[_ Heq]].
    + eapply Hold, list_elem_of_lookup_2, Hi.
    + by simplify_eq.
Qed.

Lemma sharing_discovered evs n d derivatives :
  sharing evs → sharing (evs ++ [Discovered n d derivatives]).
Proof.
  intros Hevs i j n1 n2 d' fr1 fr2 sub1 sub2 sh1 sh2 Hij Hi Hj.
  apply lookup_snoc_Some in Hj as [[Hlt Hj]|[_ Heq]]; [|done].
  apply lookup_snoc_Some in Hi as [[_ Hi]|[-> _]]; [|lia].
  by eapply (Hevs i j).
Qed.

Lemma bf_depths_sharing remaining : ∀ depth parents num_patterns w,
  sharing (log w) → Forall (λ ev, event_depth ev < depth)%nat (log w) →
  outcome (bf_depths remaining depth parents num_patterns) w
    (λ _ w', sharing (log w')) (λ _ w', sharing (log w')).
Proof.
  induction remaining as [|remaining IH];
    intros depth parents num_patterns w Hsharing Hbelow; simpl.
  { by apply outcome_ret. }
  apply outcome_bind. unfold outcome at 1, new_visited.
  set (w0 := mkWorld _ _ _ _ _). apply outcome_bind.
  eapply outcome_mono;
    [apply (outcome_for_each
       (λ _ (_ : RootPatterns * Z) w1,
          sharing (log w1)
          ∧ Forall (λ ev, event_depth ev ≤ depth)%nat (log w1)
          ∧ ∀ n fr sub sh,
              Exploring n depth fr sub sh ∈ log w1 → sh ⊆ visited w1)
       (λ _ w', sharing (log w')))| |done].
  - split; [exact Hsharing|]. split.
    + eapply Forall_impl; [exact Hbelow|]. simpl. intros; lia.
    + intros n fr sub sh Hin. rewrite Forall_forall in Hbelow.
      apply Hbelow in Hin. simpl in Hin. lia.
  - intros past name rest acc w1 _ (Hsharing1 & Hbelow1 & Hheld).
    unfold bf_class. apply outcome_bind. unfold outcome at 1, lift, item.
    destruct (_ !! name) as [fr|]; [|done].
    pose proof (sharing_exploring (log w1) name depth fr
                  (List.filter extendable fr) (visited w1) Hsharing1 Hheld)
      as Hsharing2.
    apply outcome_bind. eapply outcome_mono; [apply pool_outcome| |].
    + intros r w2 (Hlog & _ & _ & Hgrow). apply outcome_bind.
      unfold outcome at 1, tell. apply outcome_ret. simpl. rewrite Hlog.
      split; [by apply sharing_discovered|]. split.
      * rewrite !Forall_app. split_and!; [done|..]; by repeat constructor.
      * intros n fr' sub sh
          [[Hin| [= _ _ _ ->]%list_elem_of_singleton]%elem_of_app
          | [=]%list_elem_of_singleton]%elem_of_app; [|done].
        etrans; [by eapply Hheld|done].
    + intros e w2 (_ & Hlog & _). by rewrite Hlog.
  - intros acc w1 (Hsharing1 & Hbelow1 & _). apply IH; [done|].
    eapply Forall_impl; [exact Hbelow1|]. simpl. intros; lia.
Qed.

End DriverMore.

(** ** More on the Root Pattern Builder *)

Lemma traverse_from {X Y} (f : X → Result Y) (l : list X) (ys : list Y) :
  Np.traverse f l = Ok ys → ∀ y, y ∈ ys → ∃ x, x ∈ l ∧ f x = Ok y.
Proof.
  intros Hrun.
  assert (Hall : Forall (λ y, ∃ x, x ∈ l ∧ f x = Ok y) ys).
  { eapply traverse_rule; [|exact Hrun]. eauto. }
  intros y Hy. by eapply Forall_forall in Hall.
Qed.

Lemma unions_from {X} `{EqDecision X} (results : list (list X))
    (acc : list X) x :
  x ∈ foldl Py.set_union acc results →
  x ∈ acc ∨ ∃ r, r ∈ results ∧ x ∈ r.
Proof.
  revert acc. induction results as [|r results IH]; intros acc; simpl;
    [by left|].
  intros [[Hx|Hx]%elem_of_set_union|(r' & Hr' & Hx)]%IH.
  - by left.
  - right. exists r. split; [left|done].
  - right. exists r'. split; [by right|done].
Qed.

Lemma NoDup_unions {X} `{EqDecision X} (results : list (list X))
    (acc : list X) :
  NoDup acc → NoDup (foldl Py.set_union acc results).
Proof.
  revert acc. induction results as [|r results IH]; intros acc Hacc; simpl;
    [done|].
  by apply IH, NoDup_set_union.
Qed.

Lemma fold_skips {X B} (body : B → X → Result B) (l : list X) (acc : B) :
  (∀ x, x ∈ l → body acc x = Ok acc) → Np.fold body l acc = Ok acc.
Proof.
  induction l as [|x l IH]; intros Hbody; simpl; [done|].
  unfold mbind, Result_bind. rewrite Hbody by left.
  apply IH. intros x' Hx'. apply Hbody. by right.
Qed.

Lemma filter_none {X} (test : X → bool) (l : list X) :
  (∀ x, x ∈ l → test x = false) → List.filter test l = [].
Proof.
  induction l as [|x l IH]; intros Hl; simpl; [done|].
  rewrite Hl by left. apply IH. intros x' Hx'. apply Hl. by right.
Qed.

Lemma dict_of_acc_None `{Countable K} {V} (pairs : list (K * V))
    (m : gmap K V) k :
  m !! k = None → (∀ kv, kv ∈ pairs → kv.1 ≠ k) →
  foldl (λ m kv, <[kv.1 := kv.2]> m) m pairs !! k = None.
Proof.
  revert m. induction pairs as [|kv pairs IH]; intros m Hm Hpairs; simpl;
    [done|].
  apply IH.
  - rewrite lookup_insert_ne; [done|]. apply Hpairs. left.
  - intros kv' Hkv'. apply Hpairs. by right.
Qed.

Lemma dict_of_acc_Some `{Countable K} {V} (pairs : list (K * V))
    (m : gmap K V) k :
  is_Some (m !! k) ∨ k ∈ pairs.*1 →
  ∃ v, foldl (λ m kv, <[kv.1 := kv.2]> m) m pairs !! k = Some v
       ∧ (m !! k = Some v ∨ (k, v) ∈ pairs).
Proof.
  revert m. induction pairs as [|[k' v'] pairs IH]; intros m; simpl.
  { intros [[v Hv]|Hin]; [eauto|by apply elem_of_nil in Hin]. }
  intros Hk. destruct (IH (<[k' := v']> m)) as (v & Hv & Hfrom).
  { destruct (decide (k' = k)) as [->|Hne].
    - left. rewrite lookup_insert_eq. eauto.
    - destruct Hk as [Hm|Hin]; [left; by rewrite lookup_insert_ne|right].
      apply elem_of_cons in Hin as [?|?]; [by simplify_eq|done]. }
  exists v. split; [done|]. destruct Hfrom as [Hins|Hin]; [|right; by right].
  apply lookup_insert_Some in Hins as [[-> ->]|[_ ?]]; [right; left|by left].
Qed.

(** A key that no pair has is missing from [dict(pairs)]; a key that
    some pair has is bound to the value of one of its pairs. *)
Lemma dict_of_lookup_None `{Countable K} {V} (pairs : list (K * V)) k :
  (∀ kv, kv ∈ pairs → kv.1 ≠ k) → Py.dict_of pairs !! k = None.
Proof. apply dict_of_acc_None, lookup_empty. Qed.

Lemma dict_of_lookup_Some `{Countable K} {V} (pairs : list (K * V)) k :
  k ∈ pairs.*1 → ∃ v, Py.dict_of pairs !! k = Some v ∧ (k, v) ∈ pairs.
Proof.
  intros Hk.
  destruct (dict_of_acc_Some pairs ∅ k) as (v & Hv & [Hm|Hin]); [by right|..].
  - by rewrite lookup_empty in Hm.
  - by exists v.
Qed.

Lemma positions_lt {X} (test : X → bool) (l : list X) i :
  i ∈ Np.positions test l → (i < length l)%nat.
Proof.
  unfold Np.positions. intros ([i' x] & -> & Hin)%list_elem_of_fmap.
  apply list_elem_of_In, filter_In in Hin as [Hin _].
  apply list_elem_of_In, elem_of_zip_l, elem_of_seq in Hin. simpl. lia.
Qed.

Lemma traverse_at_index {X} (l : list X) (places : list nat) :
  (∀ i, i ∈ places → (i < length l)%nat) →
  ∃ xs, Np.traverse (Np.at_index l) places = Ok xs.
Proof.
  induction places as [|i places IH]; intros Hlt; simpl; [by eexists|].
  destruct (lookup_lt_is_Some_2 l i) as [x Hx]; [apply Hlt; left|].
  assert (Hat : Np.at_index l i = Ok x).
  { unfold Np.at_index. by rewrite Hx. }
  destruct IH as [xs Hxs]; [intros i' Hi'; apply Hlt; by right|].
  rewrite Hat, Hxs. by eexists.
Qed.

Lemma elem_of_Counter {X} `{EqDecision X} (l : list X) k f :
  (k, f) ∈ Np.Counter l ↔ k ∈ l ∧ f = length (filter (λ x, x = k) l).
Proof.
  unfold Np.Counter. rewrite list_elem_of_fmap. split.
  - intros (k' & [= -> ->] & Hk'). split; [|done].
    by apply (proj1 (elem_of_set_of k' l)).
  - intros [Hk ->]. exists k. split; [done|]. by apply elem_of_set_of.
Qed.

Lemma fold_returns {X B} (body : B → X → Result B) (l : list X) (acc : B) :
  (∀ acc x, x ∈ l → ∃ acc', body acc x = Ok acc') →
  ∃ r, Np.fold body l acc = Ok r.
Proof.
  revert acc. induction l as [|x l IH]; intros acc Hbody; simpl;
    [by eexists|].
  destruct (Hbody acc x) as [acc' Hx]; [left|].
  unfold mbind, Result_bind. rewrite Hx. apply IH.
  intros acc0 x' Hx'. apply Hbody. by right.
Qed.

Lemma fold_raises {X B} (body : B → X → Result B) (l : list X) (acc : B) e :
  (∀ acc x, x ∈ l → body acc x = Ok acc ∨ body acc x = Raise e) →
  (∃ x, x ∈ l ∧ ∀ acc, body acc x = Raise e) →
  Np.fold body l acc = Raise e.
Proof.
  revert acc. induction l as [|x l IH]; intros acc Hbody (y & Hy & Hraise).
  { by apply elem_of_nil in Hy. }
  simpl. unfold mbind, Result_bind.
  destruct (Hbody acc x) as [Hx|Hx]; [left|..]; rewrite Hx; [|done].
  apply IH; [intros acc0 x' Hx'; apply Hbody; by right|].
  exists y. split; [|done].
  apply elem_of_cons in Hy as [->|Hy]; [|done].
  rewrite Hraise in Hx. done.
Qed.

Lemma traverse_places {X} (g : nat * nat → X) (test : nat → bool)
    (es pre : list (nat * nat)) :
  Np.traverse (Np.at_index (g <$> (pre ++ es)))
    (fst <$> List.filter (λ ix : nat * nat, test ix.2)
                         (zip (seq (length pre) (length es)) (snd <$> es)))
  = Ok (g <$> List.filter (λ e : nat * nat, test e.2) es).
Proof.
  revert pre. induction es as [|e es IH]; intros pre; [done|].
  specialize (IH (pre ++ [e])).
  rewrite length_app, Nat.add_1_r, <- app_assoc in IH. simpl in IH.
  simpl. destruct (test e.2); simpl; [|exact IH].
  assert (Hat : Np.at_index (g <$> (pre ++ e :: es)) (length pre)
                = Ok (g e)).
  { unfold Np.at_index.
    by rewrite list_lookup_fmap, lookup_app_r, Nat.sub_diag. }
  unfold mbind, Result_bind. rewrite Hat.
  match goal with
  | |- match ?t with Ok _ => _ | Raise _ => _ end = _ =>
      replace t with (Ok (g <$> List.filter (λ e : nat * nat, test e.2) es))
        by (symmetry; exact IH)
  end.
  done.
Qed.

(** Reading a list of edges at the positions where the objects pass a
    test gives the edges whose object passes it. *)
Lemma traverse_positions {X} (g : nat * nat → X) (test : nat → bool)
    (es : list (nat * nat)) :
  Np.traverse (Np.at_index (g <$> es)) (Np.positions test (snd <$> es))
  = Ok (g <$> List.filter (λ e : nat * nat, test e.2) es).
Proof.
  unfold Np.positions. rewrite length_fmap. apply (traverse_places g test es []).
Qed.

Lemma fold_total {X B} (body : B → X → Result B) (step : B → X → B)
    (l : list X) (acc : B) :
  (∀ acc x, x ∈ l → body acc x = Ok (step acc x)) →
  Np.fold body l acc = Ok (foldl step acc l).
Proof.
  revert acc. induction l as [|x l IH]; intros acc Hbody; simpl; [done|].
  unfold mbind, Result_bind. rewrite Hbody by left.
  apply IH. intros acc' x' Hx'. apply Hbody. by right.
Qed.

Lemma elem_of_add_supported min_support pattern patterns q :
  q ∈ add_supported min_support pattern patterns
  ↔ q ∈ patterns ∨ (pattern = Some q ∧ min_support ≤ support q).
Proof.
  unfold add_supported. destruct pattern as [pattern|].
  - case_bool_decide as Hs.
    + rewrite elem_of_set_add. split.
      * intros [->|?]; [right|left]; done.
      * intros [?|[[= ->] _]]; [right|left]; done.
    + split; [by left|]. intros [?|[[= ->] ?]]; done.
  - split; [by left|]. by intros [?|[? _]].
Qed.

Lemma elem_of_foldl_add_supported {X} min_support
    (g : X → option GraphPattern) (l : list X) patterns q :
  q ∈ foldl (λ acc x, add_supported min_support (g x) acc) patterns l
  ↔ q ∈ patterns
    ∨ ∃ x, x ∈ l ∧ g x = Some q ∧ min_support ≤ support q.
Proof.
  revert patterns. induction l as [|x l IH]; intros patterns; simpl.
  - split; [by left|]. intros [?|(x & Hx & _)]; [done|].
    by apply elem_of_nil in Hx.
  - rewrite IH, elem_of_add_supported. split.
    + intros [[?|[? ?]]|(y & Hy & ? & ?)].
      * by left.
      * right. exists x. split; [left|done].
      * right. exists y. split; [by right|done].
    + intros [?|(y & [->|Hy]%elem_of_cons & ? & ?)].
      * left. by left.
      * left. by right.
      * right. by exists y.
Qed.

Lemma traverse_get `{Countable K} {V} (d : gmap K V) (l : list K) :
  (∀ k, k ∈ l → is_Some (d !! k)) →
  ∃ vs, Np.traverse (Np.get d) l = Ok vs.
Proof.
  induction l as [|k l IH]; intros Hkeys; simpl; [by eexists|].
  destruct (Hkeys k) as [v Hv]; [left|].
  assert (Hget : Np.get d k = Ok v).
  { unfold Np.get. by rewrite Hv. }
  destruct IH as [vs Hvs]; [intros k' Hk'; apply Hkeys; by right|].
  rewrite Hget, Hvs. by eexists.
Qed.

Section BuilderMore.

Variable infer_type : KnowledgeGraph → nat → nat → Resource * bool.
Variable new_var_graph_pattern :
  Term → Term → list nat → Resource → gmap nat (list nat)
  → option GraphPattern.
Variable new_graph_pattern :
  Term → Resource → PyVal → Resource → list nat → gmap nat (list nat)
  → option GraphPattern.
Variable new_mm_graph_pattern :
  Term → Term → list nat → Resource → gmap nat (list nat)
  → option GraphPattern.
Variable compute_clusters :
  Resource → list string → list nat → list (list nat * string).
Variable SUPPORTED_XSD_TYPES : list Resource.
Variable XSD_STRING XSD_NUMERIC XSD_DATETIME XSD_DATEFRAG : list Resource.

Local Abbreviation compute_root_patterns :=
  (compute_root_patterns infer_type new_var_graph_pattern new_graph_pattern
     new_mm_graph_pattern compute_clusters SUPPORTED_XSD_TYPES XSD_STRING
     XSD_NUMERIC XSD_DATETIME XSD_DATEFRAG).
Local Abbreviation class_root_patterns :=
  (class_root_patterns infer_type new_var_graph_pattern new_graph_pattern
     new_mm_graph_pattern compute_clusters SUPPORTED_XSD_TYPES XSD_STRING
     XSD_NUMERIC XSD_DATETIME XSD_DATEFRAG).
Local Abbreviation init_root_patterns :=
  (init_root_patterns infer_type new_var_graph_pattern new_graph_pattern
     new_mm_graph_pattern compute_clusters SUPPORTED_XSD_TYPES XSD_STRING
     XSD_NUMERIC XSD_DATETIME XSD_DATEFRAG).

(** The type edges that point at a class, and their sources. *)
Local Abbreviation instances kg rdf_type_idx class_idx :=
  (List.filter (λ e : nat * nat, bool_decide (e.2 = class_idx))
               (A kg rdf_type_idx)).

(** X15. Every class that the index of [init_root_patterns] lists has a
    root set that is not empty and holds no pattern twice; the class is
    named after a node with at least [min_support] type edges pointing at
    it; and each of its patterns was returned by [compute_root_patterns]
    for the root variable of the class, its members, and a predicate that
    was submitted for them. *)
Theorem index_entries kg min_support mode
    textual_support numerical_support temporal_support index name patterns :
  init_root_patterns kg min_support mode textual_support numerical_support
    temporal_support = Ok index →
  index !! name = Some patterns →
  patterns ≠ [] ∧ NoDup patterns
  ∧ ∃ rdf_type_idx class_idx,
      r2i kg !! RDF_type = Some rdf_type_idx
      ∧ name = i2n kg class_idx
      ∧ min_support
        ≤ Z.of_nat (length (instances kg rdf_type_idx class_idx))
      ∧ ∀ pattern, pattern ∈ patterns →
          ∃ p_idx returned,
            p_idx ∈ submitted_predicates kg min_support rdf_type_idx
                      (fst <$> instances kg rdf_type_idx class_idx)
            ∧ compute_root_patterns kg min_support mode textual_support
                numerical_support temporal_support p_idx rdf_type_idx
                (ObjectTypeVariable name)
                (fst <$> instances kg rdf_type_idx class_idx)
              = Ok returned
            ∧ pattern ∈ returned.
Proof.
  unfold init_root_patterns, mbind, Result_bind, Np.get.
  destruct (r2i kg !! RDF_type) as [rdf_type_idx|] eqn:Htype; [|done].
  intros Hrun. revert name patterns.
  eapply (fold_rule
            (λ m : RootPatterns,
               ∀ name patterns, m !! name = Some patterns →
                 patterns ≠ [] ∧ NoDup patterns
                 ∧ ∃ rdf_type_idx' class_idx,
                     Some rdf_type_idx = Some rdf_type_idx'
                     ∧ name = i2n kg class_idx
                     ∧ min_support
                       ≤ Z.of_nat
                           (length (instances kg rdf_type_idx' class_idx))
                     ∧ ∀ pattern, pattern ∈ patterns →
                         ∃ p_idx returned,
                           p_idx ∈ submitted_predicates kg min_support
                                     rdf_type_idx'
                                     (fst <$> instances kg rdf_type_idx'
                                                        class_idx)
                           ∧ compute_root_patterns kg min_support mode
                               textual_support numerical_support
                               temporal_support p_idx rdf_type_idx'
                               (ObjectTypeVariable name)
                               (fst <$> instances kg rdf_type_idx' class_idx)
                             = Ok returned
                           ∧ pattern ∈ returned));
    [| |exact Hrun].
  { intros name patterns. by rewrite lookup_empty. }
  intros acc class_idx acc' _ Hacc.
  unfold class_root_patterns, mbind, Result_bind.
  case_bool_decide as Hsupport; [by intros [= <-]|].
  destruct (Np.traverse _ _) as [results|] eqn:Hresults; [|done].
  case_bool_decide as Hsize; intros [= <-] name patterns.
  - intros [_ Hlook]%lookup_delete_Some. by apply Hacc.
  - intros [[<- <-]|[_ Hlook]]%lookup_insert_Some; [|by apply Hacc].
    split_and!.
    + intros Hnil. rewrite Hnil in Hsize. simpl in Hsize. lia.
    + apply NoDup_unions. constructor.
    + exists rdf_type_idx, class_idx. split_and!; [done|done|lia|].
      intros pattern [Hp|(returned & Hreturned & Hp)]%unions_from;
        [by apply elem_of_nil in Hp|].
      destruct (traverse_from _ _ _ Hresults _ Hreturned)
        as (p_idx & Hsubmitted & Hcall).
      by exists p_idx, returned.
Qed.

(** X16. [init_root_patterns] on a graph without the predicate rdf:type
    raises a KeyError; on a graph in which no class has [min_support]
    type edges pointing at it (an empty graph, say) it returns the empty
    index, and [compute_root_patterns] is never submitted. *)
Theorem index_without_classes kg min_support mode
    textual_support numerical_support temporal_support :
  (r2i kg !! RDF_type = None →
   init_root_patterns kg min_support mode textual_support numerical_support
     temporal_support = Raise KeyError)
  ∧ (∀ rdf_type_idx,
       r2i kg !! RDF_type = Some rdf_type_idx →
       (∀ class_idx,
          Z.of_nat (length (instances kg rdf_type_idx class_idx))
          < min_support) →
       init_root_patterns kg min_support mode textual_support
         numerical_support temporal_support = Ok ∅).
Proof.
  unfold init_root_patterns, mbind, Result_bind, Np.get. split.
  - by intros ->.
  - intros rdf_type_idx -> Hfew. apply fold_skips.
    intros class_idx _. unfold class_root_patterns.
    by rewrite bool_decide_eq_true_2 by apply Hfew.
Qed.

(** X17. The guard of line 403 only protects the indexing of lines 468
    and 476 when [min_support] is positive: with [min_support <= 0] a
    predicate with no edge that leaves a member of the class is submitted
    all the same, and [compute_root_patterns] raises an IndexError on
    it. *)
Theorem unguarded_indexing kg min_support mode
    textual_support numerical_support temporal_support
    p_idx rdf_type_idx root_var class_members_idx :
  min_support ≤ 0 →
  (p_idx < num_relations kg)%nat → p_idx ≠ rdf_type_idx →
  (∀ s o, (s, o) ∈ A kg p_idx → s ∉ class_members_idx) →
  p_idx ∈ submitted_predicates kg min_support rdf_type_idx class_members_idx
  ∧ compute_root_patterns kg min_support mode textual_support
      numerical_support temporal_support p_idx rdf_type_idx root_var
      class_members_idx = Raise IndexError.
Proof.
  intros Hmin Hp Hne Hnone. split.
  - apply submitted_predicates_count. split_and!; [done..|lia].
  - unfold compute_root_patterns, o_idx_list, masked.
    rewrite filter_none; [done|].
    intros [s o] Hedge. apply bool_decide_eq_false. by eapply Hnone.
Qed.

(** X18. Without modality flags, on a predicate with an edge that leaves
    a member of the class, [compute_root_patterns] raises exactly when the
    mode has the A-box, [infer_type] says that the objects are literals,
    and some object is the target of at least [min_support] of these
    edges; the exception is then the KeyError of line 524, where
    [o_value_idx_map], keyed by term, is asked for a node index. In every
    other case it returns. *)
Theorem unimodal_outcome kg min_support mode p_idx rdf_type_idx root_var
    class_members_idx o_last :
  let missed :=
    has_A mode = true ∧ (infer_type kg rdf_type_idx o_last).2 = true
    ∧ ∃ o, o ∈ o_idx_list kg p_idx class_members_idx
           ∧ min_support
             ≤ Z.of_nat (length (filter (λ x, x = o)
                                   (o_idx_list kg p_idx class_members_idx)))
  in
  Np.final (o_idx_list kg p_idx class_members_idx) = Ok o_last →
  (missed →
   compute_root_patterns kg min_support mode false false false p_idx
     rdf_type_idx root_var class_members_idx = Raise KeyError)
  ∧ (¬ missed →
     ∃ patterns,
       compute_root_patterns kg min_support mode false false false p_idx
         rdf_type_idx root_var class_members_idx = Ok patterns).
Proof.
  intros missed Hlast.
  assert (Hfirst : ∃ o_first,
            Np.first (o_idx_list kg p_idx class_members_idx) = Ok o_first).
  { destruct (o_idx_list kg p_idx class_members_idx) as [|o os];
      [done|by exists o]. }
  destruct Hfirst as [o_first Hfirst].
  assert (Hlen : length (s_idx_list kg p_idx class_members_idx)
                 = length (o_idx_list kg p_idx class_members_idx)).
  { unfold s_idx_list, o_idx_list. by rewrite !length_fmap. }
  unfold compute_root_patterns, mbind, Result_bind.
  rewrite Hlast, Hfirst. cbv zeta. unfold bound_tables. simpl.
  set (objects := o_idx_list kg p_idx class_members_idx) in *.
  set (subjects := s_idx_list kg p_idx class_members_idx) in *.
  set (typed := typed_pattern _ _ _ _ _ _ _ _ _ _).
  set (counted := Np.Counter objects).
  set (table := Py.dict_of _).
  assert (Hentry : ∀ entry,
    entry ∈ (λ kf : nat * nat, (PyIdx kf.1, kf.2)) <$> counted →
    ∃ k, entry = (PyIdx k, length (filter (λ x, x = k) objects))
         ∧ k ∈ objects).
  { intros entry ([k f] & -> & [Hk ->]%elem_of_Counter)%list_elem_of_fmap.
    by exists k. }
  destruct (has_A mode) eqn:HA.
  2:{ split; [by intros (? & _)|]. intros _. by eexists. }
  destruct (infer_type kg rdf_type_idx o_last).2 eqn:Hliteral.
  - assert (Hbody : ∀ acc entry,
      entry ∈ (λ kf : nat * nat, (PyIdx kf.1, kf.2)) <$> counted →
      bound_pattern new_graph_pattern kg min_support true root_var
        (i2r kg p_idx) typed.2 subjects objects table acc entry
      = if bool_decide (Z.of_nat entry.2 < min_support) then Ok acc
        else Raise KeyError).
    { intros acc entry (k & -> & Hk)%Hentry. unfold bound_pattern.
      case_bool_decide; [done|]. simpl. unfold mbind, Result_bind, Np.get.
      unfold table. rewrite dict_of_lookup_None; [done|].
      by intros kv (kf & -> & _)%list_elem_of_fmap. }
    split.
    + intros (_ & _ & o & Ho & Hfreq).
      rewrite (fold_raises _ _ _ KeyError); [done| |].
      * intros acc entry Hin. rewrite Hbody by done.
        case_bool_decide; eauto.
      * assert (Hin : (PyIdx o, length (filter (λ x, x = o) objects))
                      ∈ (λ kf : nat * nat, (PyIdx kf.1, kf.2)) <$> counted).
        { apply list_elem_of_fmap.
          exists (o, length (filter (λ x, x = o) objects)).
          split; [done|]. by apply elem_of_Counter. }
        eexists. split; [exact Hin|]. intros acc.
        rewrite Hbody by done. simpl.
        by rewrite bool_decide_eq_false_2 by lia.
    + intros Hnot. rewrite fold_skips; [by eexists|].
      intros entry Hin. rewrite Hbody by done.
      destruct (Hentry _ Hin) as (k & -> & Hk). simpl.
      rewrite bool_decide_eq_true_2; [done|].
      destruct (decide (Z.of_nat (length (filter (λ x, x = k) objects))
                        < min_support)) as [|Hge]; [done|].
      destruct Hnot. split_and!; [done..|]. exists k. split; [done|lia].
  - split; [by intros (_ & ? & _)|]. intros _.
    destruct (fold_returns
                (bound_pattern new_graph_pattern kg min_support false
                   root_var (i2r kg p_idx) typed.2 subjects objects table)
                ((λ kf : nat * nat, (PyIdx kf.1, kf.2)) <$> counted)
                (add_supported min_support typed.1 []))
      as [patterns Hpatterns]; [|rewrite Hpatterns; by eexists].
    intros acc entry (k & -> & Hk)%Hentry. unfold bound_pattern.
    case_bool_decide; [by eexists|]. simpl.
    unfold mbind, Result_bind, Np.get.
    destruct (dict_of_lookup_Some
                ((λ kf : nat * nat,
                    (PyNode (i2n kg kf.1),
                     Np.positions (λ o_idx, bool_decide (kf.1 = o_idx))
                                  objects)) <$> counted)
                (PyNode (i2n kg k))) as (places & Hplaces & Hfrom).
    { apply list_elem_of_fmap. eexists (_, _). split; [done|].
      apply list_elem_of_fmap.
      exists (k, length (filter (λ x, x = k) objects)).
      split; [done|]. by apply elem_of_Counter. }
    fold table in Hplaces. rewrite Hplaces.
    assert (Hbound : ∀ i, i ∈ places → (i < length objects)%nat).
    { apply list_elem_of_fmap in Hfrom as (kf & [= _ ->] & _).
      intros i. apply positions_lt. }
    destruct (traverse_at_index subjects places) as [members Hmembers];
      [by rewrite Hlen|].
    destruct (traverse_at_index objects places) as [keys Hkeys]; [done|].
    rewrite Hmembers, Hkeys. by eexists.
Qed.

(** X21. The A-box on entities. Without modality flags, in a mode with
    the A-box, when [infer_type] says that the objects are not literals
    and no two objects have the same term, [compute_root_patterns]
    returns, and its patterns are, among those with a support of at least
    [min_support]: the pattern with a variable as object, if there is one,
    and, for every object that at least [min_support] of the edges point
    at, the pattern that [new_graph_pattern] makes of the term of that
    object and of the members of the class that have an edge to it. *)
Theorem abox_patterns kg min_support mode p_idx rdf_type_idx root_var
    class_members_idx o_last o_first :
  let edges := masked kg p_idx class_members_idx in
  let subjects := s_idx_list kg p_idx class_members_idx in
  let objects := o_idx_list kg p_idx class_members_idx in
  let typed :=
    typed_pattern new_var_graph_pattern kg (has_T mode) rdf_type_idx
      root_var (i2r kg p_idx) subjects o_first
      (infer_type kg rdf_type_idx o_last).1 (inverse_map subjects objects) in
  let bound o :=
    let to_o := List.filter (λ e : nat * nat, bool_decide (o = e.2)) edges in
    let domain := Py.set_of (fst <$> to_o) in
    new_graph_pattern root_var (i2r kg p_idx) (PyNode (i2n kg o)) typed.2
      domain (Py.dict_of ((λ k, (k, domain)) <$> (snd <$> to_o))) in
  has_A mode = true →
  Np.final objects = Ok o_last → Np.first objects = Ok o_first →
  (infer_type kg rdf_type_idx o_last).2 = false →
  (∀ o o', o ∈ objects → o' ∈ objects → i2n kg o = i2n kg o' → o = o') →
  ∃ patterns,
    compute_root_patterns kg min_support mode false false false p_idx
      rdf_type_idx root_var class_members_idx = Ok patterns
    ∧ ∀ pattern,
        pattern ∈ patterns ↔
        min_support ≤ support pattern
        ∧ (typed.1 = Some pattern
           ∨ ∃ o, o ∈ objects
                  ∧ min_support
                    ≤ Z.of_nat (length (filter (λ x, x = o) objects))
                  ∧ bound o = Some pattern).
Proof.
  intros edges subjects objects typed bound HA Hlast Hfirst Hentity Hinj.
  unfold compute_root_patterns, mbind, Result_bind.
  fold objects subjects. rewrite Hlast, Hfirst. cbv zeta.
  rewrite HA, Hentity. unfold bound_tables. simpl. fold typed.
  set (counted := Np.Counter objects).
  set (table := Py.dict_of _).
  set (entries := (λ kf : nat * nat, (PyIdx kf.1, kf.2)) <$> counted).
  pose (made := λ entry : PyVal * nat,
          match entry.1 with
          | PyIdx k =>
              if bool_decide (Z.of_nat entry.2 < min_support) then None
              else bound k
          | _ => None
          end).
  assert (Hentry : ∀ entry, entry ∈ entries →
    ∃ k, entry = (PyIdx k, length (filter (λ x, x = k) objects))
         ∧ k ∈ objects).
  { intros entry ([k f] & -> & [Hk ->]%elem_of_Counter)%list_elem_of_fmap.
    by exists k. }
  assert (Hbody : ∀ acc entry, entry ∈ entries →
    bound_pattern new_graph_pattern kg min_support false root_var
      (i2r kg p_idx) typed.2 subjects objects table acc entry
    = Ok (add_supported min_support (made entry) acc)).
  { intros acc entry (k & -> & Hk)%Hentry. unfold bound_pattern, made.
    simpl. case_bool_decide; [done|].
    unfold mbind, Result_bind, Np.get.
    destruct (dict_of_lookup_Some
                ((λ kf : nat * nat,
                    (PyNode (i2n kg kf.1),
                     Np.positions (λ o_idx, bool_decide (kf.1 = o_idx))
                                  objects)) <$> counted)
                (PyNode (i2n kg k))) as (places & Hplaces & Hfrom).
    { apply list_elem_of_fmap. eexists (_, _). split; [done|].
      apply list_elem_of_fmap.
      exists (k, length (filter (λ x, x = k) objects)).
      split; [done|]. by apply elem_of_Counter. }
    fold table in Hplaces. rewrite Hplaces.
    apply list_elem_of_fmap in Hfrom as ([k' f'] & [= Hname ->] & Hk').
    apply elem_of_Counter in Hk' as [Hk' _]. simpl in *.
    assert (k' = k) as -> by (apply Hinj; done).
    unfold subjects, objects, s_idx_list, o_idx_list. fold edges.
    by rewrite !traverse_positions. }
  rewrite (fold_total _ (λ acc entry,
                           add_supported min_support (made entry) acc))
    by exact Hbody.
  eexists. split; [done|]. intros pattern.
  rewrite elem_of_foldl_add_supported, elem_of_add_supported, elem_of_nil.
  split.
  - intros [[[]|[? ?]]|(entry & Hin & Hmade & ?)]; [by split; [|left]|].
    split; [done|]. right.
    destruct (Hentry _ Hin) as (k & -> & Hk). unfold made in Hmade.
    simpl in Hmade. case_bool_decide; [done|]. exists k.
    split_and!; [done|lia|done].
  - intros [Hs [Htyped|(o & Ho & Hfreq & Hbound)]]; [left; by right|].
    right. exists (PyIdx o, length (filter (λ x, x = o) objects)).
    split_and!; [|unfold made; simpl|done].
    + apply list_elem_of_fmap.
      exists (o, length (filter (λ x, x = o) objects)).
      split; [done|]. by apply elem_of_Counter.
    + by rewrite bool_decide_eq_false_2 by lia.
Qed.

(** X22. With a modality flag set, the lookup of line 524 finds its key:
    on a predicate with an edge that leaves a member of the class,
    [compute_root_patterns] returns in every mode, whether the objects are
    literals or not, provided that the clusters it is given are made of
    objects of the predicate. *)
Theorem multimodal_returns kg min_support mode
    textual_support numerical_support temporal_support
    p_idx rdf_type_idx root_var class_members_idx :
  textual_support || numerical_support || temporal_support = true →
  o_idx_list kg p_idx class_members_idx ≠ [] →
  (∀ o_type o_values c i,
     c ∈ compute_clusters o_type o_values
           (o_idx_list kg p_idx class_members_idx) →
     i ∈ c.1 → i ∈ o_idx_list kg p_idx class_members_idx) →
  ∃ patterns,
    compute_root_patterns kg min_support mode textual_support
      numerical_support temporal_support p_idx rdf_type_idx root_var
      class_members_idx = Ok patterns.
Proof.
  intros Hflag Hne Hclusters.
  assert (Hlen : length (s_idx_list kg p_idx class_members_idx)
                 = length (o_idx_list kg p_idx class_members_idx)).
  { unfold s_idx_list, o_idx_list. by rewrite !length_fmap. }
  assert (Hends : ∃ o_last o_first,
            Np.final (o_idx_list kg p_idx class_members_idx) = Ok o_last
            ∧ Np.first (o_idx_list kg p_idx class_members_idx)
              = Ok o_first).
  { unfold Np.final.
    destruct (o_idx_list kg p_idx class_members_idx) as [|o os] eqn:Hos;
      [done|].
    destruct (last (o :: os)) as [o_last|] eqn:Hlast;
      [by exists o_last, o|by apply last_None in Hlast]. }
  destruct Hends as (o_last & o_first & Hlast & Hfirst).
  unfold compute_root_patterns, mbind, Result_bind.
  rewrite Hlast, Hfirst, Hflag. cbv zeta.
  set (objects := o_idx_list kg p_idx class_members_idx) in *.
  set (subjects := s_idx_list kg p_idx class_members_idx) in *.
  set (typed := typed_pattern _ _ _ _ _ _ _ _ _ _).
  set (is_literal := (infer_type kg rdf_type_idx o_last).2).
  assert (Habox : ∃ bound,
    (if has_A mode
     then Np.fold
            (bound_pattern new_graph_pattern kg min_support is_literal
               root_var (i2r kg p_idx) typed.2 subjects objects
               (bound_tables kg true is_literal objects).2)
            (bound_tables kg true is_literal objects).1
            (add_supported min_support typed.1 [])
     else Ok (add_supported min_support typed.1 [])) = Ok bound).
  { destruct (has_A mode); [|by eexists]. apply fold_returns.
    assert (Hread : ∀ places,
      (∀ i, i ∈ places → (i < length objects)%nat) →
      ∃ members keys,
        Np.traverse (Np.at_index subjects) places = Ok members
        ∧ Np.traverse (Np.at_index objects) places = Ok keys).
    { intros places Hbound.
      destruct (traverse_at_index subjects places) as [members Hmembers];
        [by rewrite Hlen|].
      destruct (traverse_at_index objects places) as [keys Hkeys]; [done|].
      by exists members, keys. }
    unfold bound_tables. destruct is_literal; simpl.
    - intros acc entry Hentry. unfold bound_pattern.
      case_bool_decide; [by eexists|]. simpl.
      unfold mbind, Result_bind, Np.get.
      match goal with
      | |- context [Py.dict_of ?pairs !! entry.1] =>
          destruct (dict_of_lookup_Some pairs entry.1)
            as (places & Hplaces & Hfrom)
      end.
      { apply list_elem_of_fmap. eexists (_, _). split; [done|].
        apply list_elem_of_fmap. by exists entry. }
      rewrite Hplaces.
      destruct (Hread places) as (members & keys & Hmembers & Hkeys).
      { apply list_elem_of_fmap in Hfrom as (vf & [= _ ->] & _).
        intros i. apply positions_lt. }
      rewrite Hmembers, Hkeys. by eexists.
    - intros acc entry ([k f] & -> & [Hk _]%elem_of_Counter)%list_elem_of_fmap.
      unfold bound_pattern. case_bool_decide; [by eexists|]. simpl.
      unfold mbind, Result_bind, Np.get.
      match goal with
      | |- context [Py.dict_of ?pairs !! PyNode (i2n kg k)] =>
          destruct (dict_of_lookup_Some pairs (PyNode (i2n kg k)))
            as (places & Hplaces & Hfrom)
      end.
      { apply list_elem_of_fmap. eexists (_, _). split; [done|].
        apply list_elem_of_fmap.
        exists (k, length (filter (λ x, x = k) objects)).
        split; [done|]. by apply elem_of_Counter. }
      rewrite Hplaces.
      destruct (Hread places) as (members & keys & Hmembers & Hkeys).
      { apply list_elem_of_fmap in Hfrom as (kf & [= _ ->] & _).
        intros i. apply positions_lt. }
      rewrite Hmembers, Hkeys. by eexists. }
  destruct Habox as [bound Hbound]. rewrite Hbound.
  unfold clustered_patterns, mbind, Result_bind. rewrite Hfirst.
  destruct (ni2ai kg !! o_first) as [a_idx|]; [|by eexists].
  repeat match goal with
         | |- ∃ _, (if ?b then Ok _ else _) = _ =>
             destruct b; [by eexists|]
         end.
  case_bool_decide; [|by eexists].
  apply fold_returns. intros acc c Hc.
  unfold cluster_pattern, mbind, Result_bind.
  destruct (traverse_get (Py.dict_of (zip objects subjects)) c.1)
    as [members Hmembers]; [|rewrite Hmembers; by eexists].
  intros i Hi.
  destruct (dict_of_lookup_Some (zip objects subjects) i) as (s & Hs & _);
    [|by exists s].
  rewrite fst_zip by lia. by eapply Hclusters.
Qed.

End BuilderMore.

(** ** The further properties on the sample inputs *)

(** X1 on the root pattern for knows at depth 0. *)
Lemma candidates_from_catalogue_witness :
  ∃ r w',
    Sample.candidates_at 0 Sample.knows_pattern start = (Ok r, w')
    ∧ r.1 = Sample.knows_pattern ∧ NoDup r.2.
Proof.
  destruct (Sample.candidates_at 0 Sample.knows_pattern start)
    as [[r|] w'] eqn:Hrun; [|by vm_compute in Hrun].
  exists r, w'. split; [done|].
  destruct (candidates_from_catalogue Sample.rnd Sample.interleaved
              Sample.predict_hash Sample.contains_at_depth
              Sample.root_patterns Sample.knows_pattern 0 1%Q 1%Q start r w'
              Hrun) as (Hpattern & Hnodup & _).
  by split.
Defined.

(** X3 on one pass over the two root patterns of Person. *)
Lemma pass_accepts_once_witness :
  ∃ rs w',
    map_each (λ pattern, Sample.candidates_at 0 pattern)
             [Sample.knows_pattern; Sample.age_pattern] start = (Ok rs, w')
    ∧ NoDup (r ← rs; (λ c : Candidate, Sample.predict_hash r.1 c.1 c.2)
                        <$> r.2).
Proof.
  destruct (map_each (λ pattern, Sample.candidates_at 0 pattern)
              [Sample.knows_pattern; Sample.age_pattern] start)
    as [[rs|] w'] eqn:Hrun; [|by vm_compute in Hrun].
  exists rs, w'. split; [done|].
  destruct (pass_accepts_once Sample.rnd Sample.interleaved
              Sample.predict_hash Sample.contains_at_depth
              Sample.root_patterns 0 1%Q 1%Q
              [Sample.knows_pattern; Sample.age_pattern] start rs w' Hrun)
    as (_ & Hnodup & _).
  exact Hnodup.
Defined.

(** X4 on a run that no other worker disturbs. *)
Lemma visited_append_only_witness :
  ∃ r w',
    Sample.candidates_at 0 Sample.knows_pattern start = (Ok r, w')
    ∧ visited w'
      = [] ++ ((λ c : Candidate,
                  Sample.predict_hash Sample.knows_pattern c.1 c.2) <$> r.2).
Proof.
  destruct (Sample.candidates_at 0 Sample.knows_pattern start)
    as [[r|] w'] eqn:Hrun; [|by vm_compute in Hrun].
  exists r, w'. split; [done|].
  destruct (visited_append_only Sample.rnd Sample.interleaved
              Sample.predict_hash Sample.contains_at_depth
              Sample.root_patterns Sample.knows_pattern 0 1%Q 1%Q start r w'
              Hrun) as [_ Hexact].
  apply Hexact. intros n. reflexivity.
Defined.

(** X5 with draws of 0.5 and [p_explore = 0.25]. *)
Lemma nothing_sampled_witness :
  ∃ r w',
    compute_candidates Sample.rnd' Sample.interleaved Sample.predict_hash
      Sample.contains_at_depth Sample.root_patterns Sample.knows_pattern 0
      (1 # 4)%Q 1%Q start = (Ok r, w')
    ∧ r = (Sample.knows_pattern, []) ∧ locks w' = 0%nat.
Proof.
  destruct (compute_candidates Sample.rnd' Sample.interleaved
              Sample.predict_hash Sample.contains_at_depth
              Sample.root_patterns Sample.knows_pattern 0 (1 # 4)%Q 1%Q start)
    as [[r|] w'] eqn:Hrun; [|by vm_compute in Hrun].
  exists r, w'. split; [done|].
  assert (Hbelow : (∀ i, (1 # 4 < Sample.rnd' i)%Q)
                   ∨ (∀ i, (1 < Sample.rnd' i)%Q)).
  { left. intros i. reflexivity. }
  destruct (nothing_sampled Sample.rnd' Sample.interleaved
              Sample.predict_hash Sample.contains_at_depth
              Sample.root_patterns Sample.knows_pattern 0 (1 # 4)%Q 1%Q
              start r w' Hbelow Hrun) as (Hr & _ & Hlocks & _).
  by split.
Defined.

(** X6 with an empty index. *)
Lemma no_entry_no_work_witness :
  compute_candidates Sample.rnd Sample.interleaved Sample.predict_hash
    Sample.contains_at_depth ∅ Sample.knows_pattern 0 1%Q 1%Q start
  = (Ok (Sample.knows_pattern, []), start).
Proof.
  apply (no_entry_no_work Sample.rnd Sample.interleaved Sample.predict_hash
           Sample.contains_at_depth ∅ Sample.knows_pattern 0 1%Q 1%Q
           [Sample.person] start); [reflexivity|].
  intros e _. apply lookup_empty.
Defined.

(** X7 on the root pattern for knows at depth 0. *)
Lemma considered_sublist_witness :
  ∃ r w' pairs,
    Sample.candidates_at 0 Sample.knows_pattern start = (Ok r, w')
    ∧ hashed w' = [] ++ pairs
    ∧ locks w' = (0 + length pairs)%nat
    ∧ (length r.2 ≤ length pairs)%nat.
Proof.
  destruct (Sample.candidates_at 0 Sample.knows_pattern start)
    as [[r|] w'] eqn:Hrun; [|by vm_compute in Hrun].
  destruct (considered_sublist Sample.rnd Sample.interleaved
              Sample.predict_hash Sample.contains_at_depth
              Sample.root_patterns Sample.knows_pattern 0 1%Q 1%Q start r w'
              Hrun) as (pairs & Hhashed & _ & Hlocks & _ & Hlength).
  by exists r, w', pairs.
Defined.

(** X8 on the sample depth-first run: the frontier of Person at depth 1
    is what was counted for Person at depth 0. *)
Lemma frontier_chain_witness :
  ∃ frontier submitted shared,
    Exploring Sample.Person 1 frontier submitted shared
      ∈ log (Sample.run DFS).2
    ∧ frontier ≠ []
    ∧ Discovered Sample.Person 0 frontier ∈ log (Sample.run DFS).2.
Proof.
  destruct (log (Sample.run DFS).2 !! 2%nat) as [e2|] eqn:H2;
    [|by vm_compute in H2].
  pose proof (list_elem_of_lookup_2 _ _ _ H2) as He2.
  vm_compute in H2. injection H2 as <-.
  do 3 eexists. split; [exact He2|].
  apply (proj2 (frontier_chain Sample.rnd Sample.interleaved
                  Sample.predict_hash Sample.contains_at_depth Sample.explore
                  Sample.write_query Sample.len Sample.width Sample.name_le
                  Sample.root_patterns 2 5 1%Q 1%Q 4 4 true DFS
                  Sample.Person _ _ _) 0%nat He2).
Defined.

(** X9 on the sample breadth-first run: the root pattern for knows is
    counted at depth 0 as a seed. *)
Lemma derivative_origin_witness :
  ∃ derivatives,
    Discovered Sample.Person 0 derivatives ∈ log (Sample.run BFS).2
    ∧ Sample.knows_pattern ∈ derivatives
    ∧ ((0%nat = 0%nat
        ∧ ∃ patterns,
            Sample.root_patterns !! Sample.Person = Some patterns
            ∧ Sample.knows_pattern ∈ patterns
            ∧ isinstance_ObjectTypeVariable
                (rhs (assertion Sample.knows_pattern)))
       ∨ ∃ frontier submitted shared pattern cands,
           Exploring Sample.Person 0 frontier submitted shared
             ∈ log (Sample.run BFS).2
           ∧ pattern ∈ frontier
           ∧ Z.of_nat (Sample.len pattern) < 4 ∧ Sample.width pattern < 4
           ∧ Sample.knows_pattern ∈ Sample.explore pattern cands 4 4 5).
Proof.
  destruct (log (Sample.run BFS).2 !! 1%nat) as [e1|] eqn:H1;
    [|by vm_compute in H1].
  pose proof (list_elem_of_lookup_2 _ _ _ H1) as He1.
  vm_compute in H1. injection H1 as <-.
  eexists. split; [exact He1|].
  match type of He1 with
  | Discovered _ _ ?derivatives ∈ _ =>
      assert (Hin : Sample.knows_pattern ∈ derivatives) by left
  end.
  split; [exact Hin|].
  exact (derivative_origin Sample.rnd Sample.interleaved Sample.predict_hash
           Sample.contains_at_depth Sample.explore Sample.write_query
           Sample.len Sample.width Sample.name_le Sample.root_patterns 2 5
           1%Q 1%Q 4 4 true BFS Sample.Person 0 _ Sample.knows_pattern
           He1 Hin).
Defined.

(** X11 on the sample breadth-first run without a writer. *)
Lemma count_without_writer_witness :
  false = false
  ∧ ∃ n w',
      Sample.run_on Sample.root_patterns 2 false BFS = (Ok n, w') ∧ n = 0.
Proof.
  split; [reflexivity|].
  destruct (Sample.run_on Sample.root_patterns 2 false BFS)
    as [[n|e] w'] eqn:Hrun; [|by vm_compute in Hrun].
  exists n, w'. split; [done|].
  exact (count_without_writer Sample.rnd Sample.interleaved
           Sample.predict_hash Sample.contains_at_depth Sample.explore
           Sample.write_query Sample.len Sample.width Sample.name_le
           Sample.root_patterns 2 5 1%Q 1%Q 4 4 false BFS n w' eq_refl Hrun).
Defined.

(** X15 on Scenario A of the specification. *)
Lemma index_entries_witness :
  ∃ index patterns,
    SampleGraph.index_of SampleGraph.ages 5 mode_T false false false
    = Ok index
    ∧ index !! SampleGraph.Person = Some patterns
    ∧ patterns ≠ [] ∧ NoDup patterns.
Proof.
  destruct (SampleGraph.index_of SampleGraph.ages 5 mode_T false false false)
    as [index|] eqn:Hrun; [|by vm_compute in Hrun].
  destruct (index !! SampleGraph.Person) as [patterns|] eqn:Hlook.
  - exists index, patterns. split; [done|]. split; [done|].
    destruct (index_entries SampleGraph.infer_type
                SampleGraph.new_var_graph_pattern
                SampleGraph.new_graph_pattern
                SampleGraph.new_mm_graph_pattern SampleGraph.compute_clusters
                [SampleGraph.xsd_integer; SampleGraph.xsd_string]
                [SampleGraph.xsd_string] [SampleGraph.xsd_integer] [] []
                SampleGraph.ages 5 mode_T false false false index
                SampleGraph.Person patterns Hrun Hlook)
      as (Hsome & Hnodup & _).
    by split.
  - vm_compute in Hrun. injection Hrun as <-. by vm_compute in Hlook.
Defined.

(** X16 on Scenario A with a threshold that the ten persons do not
    reach. *)
Lemma index_without_classes_witness :
  SampleGraph.index_of SampleGraph.ages 11 mode_T false false false = Ok ∅.
Proof.
  apply (proj2 (index_without_classes SampleGraph.infer_type
                  SampleGraph.new_var_graph_pattern
                  SampleGraph.new_graph_pattern
                  SampleGraph.new_mm_graph_pattern
                  SampleGraph.compute_clusters
                  [SampleGraph.xsd_integer; SampleGraph.xsd_string]
                  [SampleGraph.xsd_string] [SampleGraph.xsd_integer] [] []
                  SampleGraph.ages 11 mode_T false false false) 0%nat);
    [reflexivity|].
  intros class_idx.
  pose proof (List.filter_length_le
                (λ e : nat * nat, bool_decide (e.2 = class_idx))
                (A SampleGraph.ages 0)) as Hle.
  assert (Hten : length (A SampleGraph.ages 0) = 10%nat) by reflexivity.
  lia.
Defined.

(** X17 on the acquaintances: person 1 knows nobody. *)
Lemma unguarded_indexing_witness :
  SampleGraph.root_patterns_of SampleGraph.acquaintances 0 mode_A false false
    false 1 0 SampleGraph.Person [1%nat]
  = Raise IndexError.
Proof.
  assert (Hmin : 0 ≤ 0) by lia.
  assert (Hp : (1 < num_relations SampleGraph.acquaintances)%nat)
    by (simpl; lia).
  assert (Hne : 1%nat ≠ 0%nat) by lia.
  assert (Hnone : ∀ s o, (s, o) ∈ A SampleGraph.acquaintances 1 →
                         s ∉ [1%nat]).
  { intros s o Hin ->%list_elem_of_singleton. simpl in Hin.
    apply elem_of_cons in Hin as [[=]|Hin].
    apply list_elem_of_singleton in Hin as [=]. }
  apply (unguarded_indexing SampleGraph.infer_type
           SampleGraph.new_var_graph_pattern SampleGraph.new_graph_pattern
           SampleGraph.new_mm_graph_pattern SampleGraph.compute_clusters
           [SampleGraph.xsd_integer; SampleGraph.xsd_string]
           [SampleGraph.xsd_string] [SampleGraph.xsd_integer] [] []
           SampleGraph.acquaintances 0 mode_A false false false 1 0
           (ObjectTypeVariable SampleGraph.Person) [1%nat]
           Hmin Hp Hne Hnone).
Defined.

(** X18 on Scenario B of the specification: the literal 30 is the object
    of six edges. *)
Lemma unimodal_outcome_witness :
  Np.final (o_idx_list SampleGraph.ages 1 (seq 0 10)) = Ok 12%nat
  ∧ SampleGraph.root_patterns_of SampleGraph.ages 5 mode_A false false false
      1 0 SampleGraph.Person (seq 0 10)
    = Raise KeyError.
Proof.
  assert (Hlast : Np.final (o_idx_list SampleGraph.ages 1 (seq 0 10))
                  = Ok 12%nat) by reflexivity.
  split; [exact Hlast|].
  apply (proj1 (unimodal_outcome SampleGraph.infer_type
                  SampleGraph.new_var_graph_pattern
                  SampleGraph.new_graph_pattern
                  SampleGraph.new_mm_graph_pattern
                  SampleGraph.compute_clusters
                  [SampleGraph.xsd_integer; SampleGraph.xsd_string]
                  [SampleGraph.xsd_string] [SampleGraph.xsd_integer] [] []
                  SampleGraph.ages 5 mode_A 1 0
                  (ObjectTypeVariable SampleGraph.Person) (seq 0 10) 12
                  Hlast)).
  split; [reflexivity|]. split; [reflexivity|].
  exists 11%nat. split; [vm_compute; left|by vm_compute].
Defined.

(** X19 on the root pattern for knows at depth 0: the hash of the
    extension by age is recorded. *)
Lemma exhaustive_at_one_witness :
  ∃ r w',
    Sample.candidates_at 0 Sample.knows_pattern start = (Ok r, w')
    ∧ Sample.predict_hash Sample.knows_pattern Sample.person Sample.has_age
      ∈ visited w'.
Proof.
  destruct (Sample.candidates_at 0 Sample.knows_pattern start)
    as [[r|] w'] eqn:Hrun; [|by vm_compute in Hrun].
  exists r, w'. split; [done|].
  assert (Hrnd : ∀ i, (Sample.rnd i < 1)%Q) by (intros i; reflexivity).
  assert (Hone : (1 == 1)%Q) by reflexivity.
  destruct (exhaustive_at_one Sample.rnd Sample.interleaved
              Sample.predict_hash Sample.contains_at_depth
              Sample.root_patterns Sample.knows_pattern 0 1%Q 1%Q start r w'
              Hrnd Hone Hone Hrun) as [Hcover _].
  apply (Hcover (Sample.person, Sample.has_age)); [|reflexivity].
  vm_compute. right. left.
Defined.

(** X21 on the friends, with [min_support = 2]: Bob is known by two. *)
Lemma abox_patterns_witness :
  ∃ patterns,
    SampleGraph.root_patterns_of SampleGraph.friends 2 mode_A false false
      false 1 0 SampleGraph.Person [0; 1]%nat = Ok patterns.
Proof.
  assert (Hobjects : o_idx_list SampleGraph.friends 1 [0; 1]%nat
                     = [0; 1; 1]%nat) by reflexivity.
  assert (Hinj : ∀ o o',
            o ∈ o_idx_list SampleGraph.friends 1 [0; 1]%nat →
            o' ∈ o_idx_list SampleGraph.friends 1 [0; 1]%nat →
            i2n SampleGraph.friends o = i2n SampleGraph.friends o' →
            o = o').
  { rewrite Hobjects. intros o o' Ho Ho' Heq.
    repeat (apply elem_of_cons in Ho as [->|Ho]);
      try (by apply elem_of_nil in Ho);
      repeat (apply elem_of_cons in Ho' as [->|Ho']);
      try (by apply elem_of_nil in Ho'); done. }
  destruct (abox_patterns SampleGraph.infer_type
              SampleGraph.new_var_graph_pattern SampleGraph.new_graph_pattern
              SampleGraph.new_mm_graph_pattern SampleGraph.compute_clusters
              [SampleGraph.xsd_integer; SampleGraph.xsd_string]
              [SampleGraph.xsd_string] [SampleGraph.xsd_integer] [] []
              SampleGraph.friends 2 mode_A 1 0
              (ObjectTypeVariable SampleGraph.Person) [0; 1]%nat 1 0
              eq_refl eq_refl eq_refl eq_refl Hinj)
    as (patterns & Hrun & _).
  by exists patterns.
Defined.

(** X22 on Scenario B of the specification with the textual and the
    numerical flag set. *)
Lemma multimodal_returns_witness :
  ∃ patterns,
    SampleGraph.root_patterns_of SampleGraph.ages 5 mode_A true true false
      1 0 SampleGraph.Person (seq 0 10) = Ok patterns.
Proof.
  assert (Hflag : true || true || false = true) by reflexivity.
  assert (Hne : o_idx_list SampleGraph.ages 1 (seq 0 10) ≠ [])
    by (intros Hnil; by vm_compute in Hnil).
  assert (Hclusters : ∀ o_type o_values c i,
            c ∈ SampleGraph.compute_clusters o_type o_values
                  (o_idx_list SampleGraph.ages 1 (seq 0 10)) →
            i ∈ c.1 → i ∈ o_idx_list SampleGraph.ages 1 (seq 0 10)).
  { intros o_type o_values c i Hc Hi.
    apply list_elem_of_singleton in Hc as ->. exact Hi. }
  exact (multimodal_returns SampleGraph.infer_type
           SampleGraph.new_var_graph_pattern SampleGraph.new_graph_pattern
           SampleGraph.new_mm_graph_pattern SampleGraph.compute_clusters
           [SampleGraph.xsd_integer; SampleGraph.xsd_string]
           [SampleGraph.xsd_string] [SampleGraph.xsd_integer] [] []
           SampleGraph.ages 5 mode_A true true false 1 0
           (ObjectTypeVariable SampleGraph.Person) (seq 0 10)
           Hflag Hne Hclusters).
Defined.

(** * What the drivers hand to the Candidate Generator, and what the
      shared list keeps *)

Section PassFacts.

Variable rnd : nat → Q.
Variable interleaved : nat → list Z.
Variable predict_hash : GraphPattern → Term → Assertion → Z.
Variable contains_at_depth : GraphPattern → Assertion → nat → bool.

Local Abbreviation candidates_of :=
  (compute_candidates rnd interleaved predict_hash contains_at_depth).
Local Abbreviation skips :=
  (skipped interleaved predict_hash contains_at_depth).
Local Abbreviation hash_in pattern :=
  (λ c : Candidate, predict_hash pattern c.1 c.2).

(** The list of hashed pairs only grows, whether a run returns or
    raises. *)
Lemma candidates_hashed_grow root_patterns pattern depth p_explore p_extend
    w :
  hashed w ⊆ hashed (candidates_of root_patterns pattern depth p_explore
                                   p_extend w).2.
Proof.
  destruct (endpoints_of pattern depth) as [eps|e] eqn:Heps;
    [|by rewrite (candidates_raise _ _ _ _ _ _ _ _ _ e)].
  pose proof (candidates_rule rnd interleaved predict_hash contains_at_depth
                (λ _ w1, hashed w ⊆ hashed w1) root_patterns pattern depth
                p_explore p_extend eps w Heps) as Hrule.
  unfold post in Hrule.
  destruct (candidates_of _ _ _ _ _ w) as [[r|exn] w']; simpl.
  - apply Hrule; [done| |done].
    intros cands w1 e b bases _ _ _ Hsub x Hx. simpl. apply elem_of_app.
    left. by apply Hsub.
  - destruct Hrule; [done| |done].
    intros cands w1 e b bases _ _ _ Hsub x Hx. simpl. apply elem_of_app.
    left. by apply Hsub.
Qed.

(** One pass over a frontier: each result is what the Candidate
    Generator returns for its pattern from some world of the pass. *)
Lemma pass_runs root_patterns depth p_explore p_extend patterns w rs w' :
  map_each (λ pattern, candidates_of root_patterns pattern depth
                                     p_explore p_extend) patterns w
  = (Ok rs, w') →
  hashed w ⊆ hashed w' ∧ visited w ⊆ visited w' ∧ log w' = log w
  ∧ Forall2 (λ pattern r,
               ∃ w1 w2,
                 candidates_of root_patterns pattern depth p_explore
                               p_extend w1 = (Ok r, w2)
                 ∧ hashed w2 ⊆ hashed w' ∧ visited w2 ⊆ visited w')
            patterns rs.
Proof.
  revert w rs. induction patterns as [|pattern patterns IH]; intros w rs.
  { intros [= <- <-]. split_and!; [done..|constructor]. }
  simpl. unfold mbind at 1, M_bind at 1.
  destruct (candidates_of _ pattern _ _ _ w) as [[r|exn] w1] eqn:Hrun;
    [|done].
  unfold mbind at 1, M_bind at 1.
  destruct (map_each _ patterns w1) as [[rs'|exn] w2] eqn:Hrest; [|done].
  intros [= <- <-].
  destruct (IH _ _ Hrest) as (Hh & Hv & Hl & Hall).
  pose proof (candidates_hashed_grow root_patterns pattern depth p_explore
                p_extend w) as Hgrow.
  rewrite Hrun in Hgrow. simpl in Hgrow.
  pose proof (accepted_fresh rnd interleaved predict_hash contains_at_depth
                _ _ _ _ _ _ _ _ Hrun) as (_ & Hvis & Hlog & _).
  split_and!.
  - by etrans.
  - by etrans.
  - congruence.
  - constructor; [|done]. by exists w, w1.
Qed.

Lemma pass_raises root_patterns depth p_explore p_extend patterns w e w' :
  map_each (λ pattern, candidates_of root_patterns pattern depth
                                     p_explore p_extend) patterns w
  = (Raise e, w') →
  hashed w ⊆ hashed w' ∧ visited w ⊆ visited w' ∧ log w' = log w.
Proof.
  revert w. induction patterns as [|pattern patterns IH]; intros w; [done|].
  simpl. unfold mbind at 1, M_bind at 1.
  pose proof (candidates_hashed_grow root_patterns pattern depth p_explore
                p_extend w) as Hgrow.
  pose proof (candidates_world rnd interleaved predict_hash contains_at_depth
                root_patterns pattern depth p_explore p_extend w) as Hworld.
  unfold post in Hworld.
  destruct (candidates_of _ pattern _ _ _ w) as [[r|exn] w1] eqn:Hrun.
  - unfold mbind at 1, M_bind at 1.
    destruct (map_each _ patterns w1) as [[rs'|exn] w2] eqn:Hrest; [done|].
    intros [= <- <-]. destruct (IH _ Hrest) as (Hh & Hv & Hl).
    simpl in Hgrow. destruct Hworld as [Hv1 Hl1].
    split_and!; [by etrans|by etrans|congruence].
  - intros [= <- <-]. by subst.
Qed.

(** With both probabilities at one no draw skips anything, and whatever
    a run could accept is in the shared list when it ends. *)
Section Unsampled.

Hypothesis rnd_below_one : ∀ i, (rnd i < 1)%Q.
Variables p_explore p_extend : Q.
Hypothesis explore_all : (p_explore == 1)%Q.
Hypothesis extend_all : (p_extend == 1)%Q.

Lemma candidates_cover root_patterns pattern depth w r w' :
  candidates_of root_patterns pattern depth p_explore p_extend w
  = (Ok r, w') →
  ∀ c, (pattern, c) ∈ all_pairs root_patterns pattern depth →
       contains_at_depth pattern c.2 depth = false →
       hash_in pattern c ∈ visited w'.
Proof.
  intros Hrun.
  pose proof (candidates_loops rnd interleaved predict_hash
    contains_at_depth
    (λ passed _ w1,
       ∀ c, (pattern, c) ∈ passed →
            contains_at_depth pattern c.2 depth = false →
            hash_in pattern c ∈ visited w1)
    root_patterns pattern depth p_explore p_extend w) as Hrule.
  unfold post in Hrule. rewrite Hrun in Hrule.
  destruct Hrule as [_ Hcover]; try done.
  - intros passed pair cands w1 i [Hskip|Hskip] _;
      by rewrite never_skipped in Hskip.
  - intros passed cands w1 e b rest i j _ _ _ Hcover c
      [Hc| [= ->]%list_elem_of_singleton]%elem_of_app Hcad.
    + by apply (considered_visited interleaved predict_hash
                  contains_at_depth), Hcover.
    + unfold considered, skipped. simpl in *. rewrite Hcad, orb_false_r.
      case_bool_decide as Hseen; [done|]. apply elem_of_app. right. left.
  - intros c Hc. by apply elem_of_nil in Hc.
Qed.

Lemma pass_covers root_patterns depth patterns w rs w' :
  map_each (λ pattern, candidates_of root_patterns pattern depth
                                     p_explore p_extend) patterns w
  = (Ok rs, w') →
  ∀ pattern c,
    pattern ∈ patterns →
    (pattern, c) ∈ all_pairs root_patterns pattern depth →
    contains_at_depth pattern c.2 depth = false →
    hash_in pattern c ∈ visited w'.
Proof.
  intros Hpass pattern c Hin Hpair Hcad.
  destruct (pass_runs _ _ _ _ _ _ _ _ Hpass) as (_ & _ & _ & Hall).
  apply list_elem_of_lookup in Hin as [i Hi].
  destruct (Forall2_lookup_l _ _ _ _ _ Hall Hi)
    as (r & _ & w1 & w2 & Hrun & _ & Hvis).
  by eapply Hvis, candidates_cover.
Qed.

End Unsampled.

End PassFacts.

Section DriverScope.

Variable rnd : nat → Q.
Variable interleaved : nat → list Z.
Variable predict_hash : GraphPattern → Term → Assertion → Z.
Variable contains_at_depth : GraphPattern → Assertion → nat → bool.
Variable explore :
  GraphPattern → list Candidate → Z → Z → Z → list GraphPattern.
Variable write_query : GraphPattern → Z → Z.
Variable len : GraphPattern → nat.
Variable width : GraphPattern → Z.
Variable name_le : Resource → Resource → bool.
Variable root_patterns : RootPatterns.
Variable depths_stop : nat.
Variable min_support : Z.
Variable p_explore p_extend : Q.
Variable max_length max_width : Z.
Variable out : bool.

Local Abbreviation extendable :=
  (extendable len width max_length max_width).
Local Abbreviation candidates_of :=
  (compute_candidates rnd interleaved predict_hash contains_at_depth
                      root_patterns).
Local Abbreviation pool :=
  (pool rnd interleaved predict_hash contains_at_depth explore write_query
        len width root_patterns min_support p_explore p_extend max_length
        max_width out).
Local Abbreviation df_depths :=
  (df_depths rnd interleaved predict_hash contains_at_depth explore
             write_query len width root_patterns min_support p_explore
             p_extend max_length max_width out).
Local Abbreviation df_class :=
  (df_class rnd interleaved predict_hash contains_at_depth explore
            write_query len width root_patterns depths_stop min_support
            p_explore p_extend max_length max_width out).
Local Abbreviation generate_df :=
  (generate_df rnd interleaved predict_hash contains_at_depth explore
               write_query len width name_le root_patterns depths_stop
               min_support p_explore p_extend max_length max_width out).
Local Abbreviation bf_class :=
  (bf_class rnd interleaved predict_hash contains_at_depth explore
            write_query len width root_patterns min_support p_explore
            p_extend max_length max_width out).
Local Abbreviation bf_depths :=
  (bf_depths rnd interleaved predict_hash contains_at_depth explore
             write_query len width name_le root_patterns min_support
             p_explore p_extend max_length max_width out).
Local Abbreviation generate_bf :=
  (generate_bf rnd interleaved predict_hash contains_at_depth explore
               write_query len width name_le root_patterns depths_stop
               min_support p_explore p_extend max_length max_width out).
Local Abbreviation generate :=
  (generate rnd interleaved predict_hash contains_at_depth explore
            write_query len width name_le root_patterns depths_stop
            min_support p_explore p_extend max_length max_width out).

(** The world in which the workers of a pool start, and the world after
    the count of its derivatives is printed. *)
Local Abbreviation submitted_in w name depth patterns :=
  (mkWorld (draws w) (locks w) (visited w) (hashed w)
           (log w ++ [Exploring name depth patterns
                                (List.filter extendable patterns)
                                (visited w)])).
Local Abbreviation counted_in w name depth derivatives :=
  (mkWorld (draws w) (locks w) (visited w) (hashed w)
           (log w ++ [Discovered name depth derivatives])).

Lemma derivatives_iff (fextensions : list (list GraphPattern))
    (derivatives : list GraphPattern) (num_patterns : Z) p :
  p ∈ (foldl (λ acc extensions,
                (Py.set_union acc.1 extensions,
                 write_all write_query out extensions acc.2))
             (derivatives, num_patterns) fextensions).1
  ↔ p ∈ derivatives ∨ ∃ extensions, extensions ∈ fextensions ∧ p ∈ extensions.
Proof.
  revert derivatives num_patterns.
  induction fextensions as [|exts l IH]; intros derivs n; simpl.
  { split; [by left|]. intros [?|(exts & Hin & _)]; [done|].
    by apply elem_of_nil in Hin. }
  rewrite IH. simpl. rewrite elem_of_set_union. split.
  - intros [[?|?]|(exts' & Hin & Hp)].
    + by left.
    + right. exists exts. split; [left|done].
    + right. exists exts'. split; [by right|done].
  - intros [?|(exts' & [->|Hin]%elem_of_cons & Hp)].
    + left. by left.
    + left. by right.
    + right. by exists exts'.
Qed.

(** A pool that returns has run the Candidate Generator on the
    extendable patterns of its frontier, in their order, and has put the
    Pattern Extension of each result among its derivatives. *)
Lemma pool_returns name depth patterns derivatives num_patterns w r w' :
  pool name depth patterns derivatives num_patterns w = (Ok r, w') →
  ∃ rs,
    map_each (λ pattern, candidates_of pattern depth p_explore p_extend)
             (List.filter extendable patterns)
             (submitted_in w name depth patterns)
    = (Ok rs, w')
    ∧ ∀ p, p ∈ r.1 ↔
           p ∈ derivatives
           ∨ ∃ rc, rc ∈ rs
                   ∧ p ∈ explore rc.1 rc.2 max_length max_width min_support.
Proof.
  unfold pool, mbind, M_bind, submit.
  destruct (map_each _ _ _) as [[rs|e] w1] eqn:Hpass; [|done].
  intros [= <- <-]. exists rs. split; [done|]. intros p.
  rewrite derivatives_iff. apply or_iff_compat_l. split.
  - intros (exts & (rc & -> & Hrc)%list_elem_of_fmap & Hp). by exists rc.
  - intros (rc & Hrc & Hp). eexists. split; [|exact Hp].
    apply list_elem_of_fmap. by exists rc.
Qed.

Lemma pool_fails name depth patterns derivatives num_patterns w e w' :
  pool name depth patterns derivatives num_patterns w = (Raise e, w') →
  map_each (λ pattern, candidates_of pattern depth p_explore p_extend)
           (List.filter extendable patterns)
           (submitted_in w name depth patterns)
  = (Raise e, w').
Proof.
  unfold pool, mbind, M_bind, submit.
  destruct (map_each _ _ _) as [[rs|e'] w1] eqn:Hpass; [done|].
  by intros [= <- <-].
Qed.

(** The rule of the two drivers: what holds at the start, survives a
    new shared list, and survives a pool followed by the count of its
    derivatives, holds when a driver returns. *)
Lemma driver_rule (I J : World → Prop) strategy :
  I start →
  (∀ w, I w → I (mkWorld (draws w) (locks w) [] (hashed w) (log w))) →
  (∀ name depth frontier num_patterns w,
     I w → (depth = 0%nat → root_patterns !! name = Some frontier) →
     outcome (pool name depth frontier (seeds depth frontier) num_patterns) w
       (λ r w', I (counted_in w' name depth r.1)) (λ _ w', J w')) →
  outcome (generate strategy) start (λ _ w', I w') (λ _ w', J w').
Proof.
  intros Hstart Hreset Hiter.
  assert (Hdf : ∀ remaining depth name patterns num_patterns w,
    I w → is_Some (root_patterns !! name) →
    outcome (df_depths remaining depth name patterns num_patterns) w
      (λ _ w', I w') (λ _ w', J w')).
  { induction remaining as [|remaining IH];
      intros depth name patterns num_patterns w Hw [roots Hroots]; simpl.
    { by apply outcome_ret. }
    assert (Hstep : ∀ frontier,
      (depth = 0%nat → root_patterns !! name = Some frontier) →
      outcome (r ← pool name depth frontier (seeds depth frontier)
                         num_patterns;
               _ ← tell (Discovered name depth r.1);
               if bool_decide (0 < length r.1)%nat
               then df_depths remaining (S depth) name r.1 r.2
               else mret r.2) w
        (λ _ w', I w') (λ _ w', J w')).
    { intros frontier H0. apply outcome_bind.
      eapply outcome_mono; [by apply Hiter| |done].
      intros r w1 Hw1. apply outcome_bind. unfold outcome at 1, tell.
      case_bool_decide; [|by apply outcome_ret].
      apply IH; [done|by exists roots]. }
    apply outcome_bind. case_bool_decide as Hdepth.
    - unfold outcome at 1, lift, item. rewrite Hroots. by apply Hstep.
    - apply outcome_ret, Hstep. done. }
  assert (Hbf : ∀ remaining depth parents num_patterns w,
    I w →
    outcome (bf_depths remaining depth parents num_patterns) w
      (λ _ w', I w') (λ _ w', J w')).
  { induction remaining as [|remaining IH];
      intros depth parents num_patterns w Hw; simpl.
    { by apply outcome_ret. }
    set (frontiers := if bool_decide (depth = 0)%nat
                      then root_patterns else parents).
    apply outcome_bind. unfold outcome at 1, new_visited.
    apply outcome_bind.
    eapply outcome_mono;
      [apply (outcome_for_each (λ _ (_ : RootPatterns * Z) w1, I w1)
                               (λ _ w', J w'))| |done].
    - by apply Hreset.
    - intros past name rest acc w1 Hl Hw1.
      unfold bf_class. apply outcome_bind. unfold outcome at 1, lift, item.
      assert (Hin : is_Some (frontiers !! name)).
      { apply (elem_of_sorted_names name_le).
        rewrite Hl, elem_of_app, elem_of_cons. tauto. }
      destruct Hin as [fr Hfr]. rewrite Hfr. apply outcome_bind.
      eapply outcome_mono; [apply Hiter| |done].
      + exact Hw1.
      + intros ->. exact Hfr.
      + intros r w2 Hw2. apply outcome_bind. unfold outcome at 1, tell.
        by apply outcome_ret.
    - intros acc w1 Hw1. by apply IH. }
  destruct strategy; simpl.
  - by apply Hbf.
  - unfold generate_df.
    apply (outcome_for_each (λ _ (_ : Z) w', I w') (λ _ w', J w'));
      [done|].
    intros past name rest n w1 Hl Hw1. unfold df_class.
    apply outcome_bind. unfold outcome at 1, new_visited.
    apply Hdf; [by apply Hreset|].
    apply (elem_of_sorted_names name_le).
    rewrite Hl, elem_of_app, elem_of_cons. tauto.
Qed.

(** Every count of derivatives in the log comes with the submission
    of its frontier and with the results of the Candidate Generator for
    the extendable patterns of that frontier. *)
Local Abbreviation handed w :=
  (∀ name depth derivatives,
     Discovered name depth derivatives ∈ log w →
     ∃ frontier shared results,
       Exploring name depth frontier (List.filter extendable frontier) shared
         ∈ log w
       ∧ Forall2 (λ pattern result,
                    ∃ w1 w2,
                      candidates_of pattern depth p_explore p_extend w1
                      = (Ok result, w2)
                      ∧ hashed w2 ⊆ hashed w)
                 (List.filter extendable frontier) results
       ∧ ∀ p, p ∈ derivatives ↔
              p ∈ seeds depth frontier
              ∨ ∃ result,
                  result ∈ results
                  ∧ p ∈ explore result.1 result.2 max_length max_width
                                min_support).




(** ** What the shared list keeps when nothing is sampled *)

Section Exhaustive.

Hypothesis rnd_below_one : ∀ i, (rnd i < 1)%Q.
Hypothesis explore_all : (p_explore == 1)%Q.
Hypothesis extend_all : (p_extend == 1)%Q.

(** The hashes that the Candidate Generator records or finds recorded
    for the patterns [sub] at depth [d] are all in [vis]. *)
Local Abbreviation recorded sub d vis :=
  (∀ pattern (c : Candidate),
     pattern ∈ sub →
     (pattern, c) ∈ all_pairs root_patterns pattern d →
     contains_at_depth pattern c.2 d = false →
     predict_hash pattern c.1 c.2 ∈ vis).

(** Depth first: a later depth of a class finds the hashes of the
    earlier depths of that class in the list. *)
Local Abbreviation kept evs :=
  (∀ name d d' fr fr' sub sub' sh sh',
     Exploring name d fr sub sh ∈ evs →
     Exploring name d' fr' sub' sh' ∈ evs →
     (d < d')%nat → recorded sub d sh').

Local Abbreviation covered evs vis name depth :=
  (∀ d fr sub sh,
     Exploring name d fr sub sh ∈ evs →
     (d < depth)%nat ∧ recorded sub d vis).

Lemma pool_kept name depth frontier derivatives num_patterns w :
  kept (log w) → covered (log w) (visited w) name depth →
  outcome (pool name depth frontier derivatives num_patterns) w
    (λ r w',
       kept (log w' ++ [Discovered name depth r.1])
       ∧ covered (log w' ++ [Discovered name depth r.1]) (visited w') name
                 (S depth)
       ∧ ∀ ev, ev ∈ log w' ++ [Discovered name depth r.1] →
               event_name ev ≠ name → ev ∈ log w)
    (λ _ w', kept (log w')).
Proof.
  intros Hkept Hcov.
  assert (Hnew : ∀ evs : list Event,
    (∀ ev, ev ∈ evs →
       ev ∈ log w
       ∨ ev = Exploring name depth frontier
                        (List.filter extendable frontier) (visited w)
       ∨ ∃ ds, ev = Discovered name depth ds) →
    kept evs).
  { intros evs Hevs n d d' fr fr' sub sub' sh sh' H1 H2 Hlt.
    destruct (Hevs _ H1) as [H1'|[H1'|[ds H1']]]; [| |done];
      (destruct (Hevs _ H2) as [H2'|[H2'|[ds' H2']]]; [| |done]).
    - by eapply Hkept.
    - simplify_eq. by destruct (Hcov _ _ _ _ H1') as [_ Hrec].
    - simplify_eq. destruct (Hcov _ _ _ _ H2') as [Hd _]. lia.
    - simplify_eq. lia. }
  unfold outcome.
  destruct (pool name depth frontier derivatives num_patterns w)
    as [[r|e] w'] eqn:Hpool.
  - apply pool_returns in Hpool as (rs & Hpass & _).
    destruct (pass_runs _ _ _ _ _ _ _ _ _ _ _ _ Hpass) as (_ & Hv & Hl & _).
    simpl in Hv, Hl.
    pose proof (pass_covers rnd interleaved predict_hash contains_at_depth
                  rnd_below_one p_explore p_extend explore_all extend_all
                  root_patterns depth _ _ _ _ Hpass) as Hrec.
    split_and!.
    + apply Hnew. intros ev.
      rewrite Hl, !elem_of_app, !list_elem_of_singleton.
      intros [[?|?]|?]; eauto.
    + intros d fr sub sh.
      rewrite Hl, !elem_of_app, !list_elem_of_singleton.
      intros [[Hin|Heq]|Heq]; [| |done].
      * destruct (Hcov _ _ _ _ Hin) as [Hd Hr]. split; [lia|].
        intros pattern c ? ? ?. apply Hv. by apply Hr.
      * simplify_eq. split; [lia|].
        intros pattern c ? ? ?. by apply Hrec.
    + intros ev. rewrite Hl, !elem_of_app, !list_elem_of_singleton.
      by intros [[? | ->] | ->] Hne.
  - apply pool_fails in Hpool.
    destruct (pass_raises _ _ _ _ _ _ _ _ _ _ _ _ Hpool) as (_ & _ & Hl).
    simpl in Hl. apply Hnew. intros ev.
    rewrite Hl, elem_of_app, list_elem_of_singleton.
    intros [?|?]; eauto.
Qed.

Lemma df_depths_kept remaining : ∀ depth name patterns num_patterns w,
  kept (log w) → covered (log w) (visited w) name depth →
  outcome (df_depths remaining depth name patterns num_patterns) w
    (λ _ w', kept (log w')
             ∧ ∀ ev, ev ∈ log w' → event_name ev ≠ name → ev ∈ log w)
    (λ _ w', kept (log w')).
Proof.
  induction remaining as [|remaining IH];
    intros depth name patterns num_patterns w Hkept Hcov; simpl.
  { by apply outcome_ret. }
  assert (Hstep : ∀ frontier,
    outcome (r ← pool name depth frontier (seeds depth frontier)
                       num_patterns;
             _ ← tell (Discovered name depth r.1);
             if bool_decide (0 < length r.1)%nat
             then df_depths remaining (S depth) name r.1 r.2
             else mret r.2) w
      (λ _ w', kept (log w')
               ∧ ∀ ev, ev ∈ log w' → event_name ev ≠ name → ev ∈ log w)
      (λ _ w', kept (log w'))).
  { intros frontier. apply outcome_bind.
    eapply outcome_mono; [by apply pool_kept| |done].
    intros r w1 (Hk1 & Hc1 & Ho1). apply outcome_bind.
    unfold outcome at 1, tell.
    case_bool_decide.
    - eapply outcome_mono; [apply IH; [exact Hk1|exact Hc1]| |done].
      intros _ w2 [Hk2 Ho2]. split; [done|].
      intros ev Hev Hne. apply Ho1; [|done]. by apply Ho2.
    - apply outcome_ret. split; [exact Hk1|exact Ho1]. }
  apply outcome_bind. case_bool_decide as Hdepth.
  - unfold outcome at 1, lift, item.
    destruct (root_patterns !! name) as [roots|]; [by apply Hstep|].
    exact Hkept.
  - apply outcome_ret, Hstep.
Qed.

Lemma generate_df_kept :
  outcome generate_df start (λ _ w', kept (log w')) (λ _ w', kept (log w')).
Proof.
  unfold generate_df.
  eapply outcome_mono;
    [apply (outcome_for_each
       (λ past (_ : Z) w,
          kept (log w) ∧ ∀ ev, ev ∈ log w → event_name ev ∈ past)
       (λ _ w', kept (log w')))| |done].
  - split.
    + intros name d d' fr fr' sub sub' sh sh' Hin.
      by apply elem_of_nil in Hin.
    + intros ev Hin. by apply elem_of_nil in Hin.
  - intros past name rest acc w Hl [Hkept Hpast].
    unfold df_class. apply outcome_bind. unfold outcome at 1, new_visited.
    eapply outcome_mono; [apply df_depths_kept| |done].
    + exact Hkept.
    + intros d fr sub sh Hin. simpl in Hin. apply Hpast in Hin.
      simpl in Hin.
      pose proof (NoDup_sorted_names name_le root_patterns) as Hnd.
      rewrite Hl in Hnd. apply NoDup_app in Hnd as (_ & Hnot & _).
      destruct (Hnot _ Hin). left.
    + intros _ w' [Hk Ho]. split; [done|]. intros ev Hev.
      destruct (decide (event_name ev = name)) as [->|Hne].
      * apply elem_of_app. right. left.
      * apply elem_of_app. left. apply Hpast. by apply Ho.
  - by intros ? ? [? _].
Qed.

(** Breadth first: of two submissions at one depth, the later finds the
    hashes of the earlier in the list. *)
Local Abbreviation passed_on evs :=
  (∀ i j n n' d fr fr' sub sub' sh sh',
     (i < j)%nat →
     evs !! i = Some (Exploring n d fr sub sh) →
     evs !! j = Some (Exploring n' d fr' sub' sh') →
     recorded sub d sh').

Lemma passed_on_exploring (evs : list Event) n d fr sub sh :
  passed_on evs →
  (∀ n' fr' sub' sh', Exploring n' d fr' sub' sh' ∈ evs → recorded sub' d sh) →
  passed_on (evs ++ [Exploring n d fr sub sh]).
Proof.
  intros Hevs Hold i j n1 n2 d' fr1 fr2 sub1 sub2 sh1 sh2 Hij Hi Hj.
  apply lookup_snoc_Some in Hj as [[Hlt Hj]|[-> Heq]].
  - apply lookup_snoc_Some in Hi as [[_ Hi]|[-> _]]; [|lia].
    by eapply (Hevs i j).
  - simplify_eq.
    apply lookup_snoc_Some in Hi as [[_ Hi]|[? _]]; [|lia].
    eapply Hold, list_elem_of_lookup_2, Hi.
Qed.

Lemma passed_on_discovered (evs : list Event) n d derivatives :
  passed_on evs → passed_on (evs ++ [Discovered n d derivatives]).
Proof.
  intros Hevs i j n1 n2 d' fr1 fr2 sub1 sub2 sh1 sh2 Hij Hi Hj.
  apply lookup_snoc_Some in Hj as [[Hlt Hj]|[_ Heq]]; [|done].
  apply lookup_snoc_Some in Hi as [[_ Hi]|[-> _]]; [|lia].
  by eapply (Hevs i j).
Qed.

Lemma bf_depths_passed_on remaining : ∀ depth parents num_patterns w,
  passed_on (log w) → Forall (λ ev, event_depth ev < depth)%nat (log w) →
  outcome (bf_depths remaining depth parents num_patterns) w
    (λ _ w', passed_on (log w')) (λ _ w', passed_on (log w')).
Proof.
  induction remaining as [|remaining IH];
    intros depth parents num_patterns w Hpassed Hbelow; simpl.
  { by apply outcome_ret. }
  apply outcome_bind. unfold outcome at 1, new_visited.
  set (w0 := mkWorld _ _ _ _ _). apply outcome_bind.
  eapply outcome_mono;
    [apply (outcome_for_each
       (λ _ (_ : RootPatterns * Z) w1,
          passed_on (log w1)
          ∧ Forall (λ ev, event_depth ev ≤ depth)%nat (log w1)
          ∧ ∀ n fr sub sh,
              Exploring n depth fr sub sh ∈ log w1 →
              recorded sub depth (visited w1))
       (λ _ w', passed_on (log w')))| |done].
  - split; [exact Hpassed|]. split.
    + eapply Forall_impl; [exact Hbelow|]. simpl. intros; lia.
    + intros n fr sub sh Hin. rewrite Forall_forall in Hbelow.
      apply Hbelow in Hin. simpl in Hin. lia.
  - intros past name rest acc w1 _ (Hpassed1 & Hbelow1 & Hheld).
    unfold bf_class. apply outcome_bind. unfold outcome at 1, lift, item.
    destruct (_ !! name) as [fr|]; [|done].
    pose proof (passed_on_exploring (log w1) name depth fr
                  (List.filter extendable fr) (visited w1) Hpassed1 Hheld)
      as Hpassed2.
    apply outcome_bind. unfold outcome at 1.
    destruct (pool name depth fr (seeds depth fr) acc.2 w1)
      as [[r|e] w2] eqn:Hpool.
    + apply pool_returns in Hpool as (rs & Hpass & _).
      destruct (pass_runs _ _ _ _ _ _ _ _ _ _ _ _ Hpass)
        as (_ & Hv & Hl & _).
      simpl in Hv, Hl.
      pose proof (pass_covers rnd interleaved predict_hash contains_at_depth
                    rnd_below_one p_explore p_extend explore_all extend_all
                    root_patterns depth _ _ _ _ Hpass) as Hrec.
      apply outcome_bind. unfold outcome at 1, tell.
      apply outcome_ret. simpl. rewrite Hl.
      split; [by apply passed_on_discovered|]. split.
      * rewrite !Forall_app. split_and!; [done|..]; by repeat constructor.
      * intros n fr' sub sh
          [[Hin| [= _ _ -> _]%list_elem_of_singleton]%elem_of_app
          | [=]%list_elem_of_singleton]%elem_of_app.
        -- intros pattern c ? ? ?. apply Hv. by eapply Hheld.
        -- intros pattern c ? ? ?. by apply Hrec.
    + apply pool_fails in Hpool.
      destruct (pass_raises _ _ _ _ _ _ _ _ _ _ _ _ Hpool) as (_ & _ & Hl).
      simpl in Hl. by rewrite Hl.
  - intros acc w1 (Hpassed1 & Hbelow1 & _). apply IH; [done|].
    eapply Forall_impl; [exact Hbelow1|]. simpl. intros; lia.
Qed.

End Exhaustive.

(** A driver that returns has found, for every pattern that it
    submitted at a depth above 0, the endpoints of the depth before. *)
Local Abbreviation grounded w :=
  (∀ name depth frontier submitted shared pattern,
     Exploring name depth frontier submitted shared ∈ log w →
     pattern ∈ submitted → (0 < depth)%nat →
     is_Some (distances pattern !! (depth - 1)%nat)).

Lemma generate_grounded strategy :
  outcome (generate strategy) start (λ _ w', grounded w') (λ _ _, True).
Proof.
  apply (driver_rule (λ w, grounded w) (λ _, True)).
  - intros name depth frontier submitted shared pattern Hin.
    by apply elem_of_nil in Hin.
  - intros w Hw. exact Hw.
  - intros name depth frontier num_patterns w Hw _. unfold outcome.
    destruct (pool name depth frontier (seeds depth frontier) num_patterns w)
      as [[r|e] w'] eqn:Hpool; [|done].
    apply pool_returns in Hpool as (rs & Hpass & _).
    destruct (pass_runs _ _ _ _ _ _ _ _ _ _ _ _ Hpass) as (_ & _ & Hl & Hall).
    simpl in Hl.
    intros n d fr sub sh pattern. simpl.
    rewrite Hl, !elem_of_app, !list_elem_of_singleton.
    intros [[Hin|Heq]|Heq] Hsub Hd; [by eapply Hw| |done].
    simplify_eq.
    apply list_elem_of_lookup in Hsub as [i Hi].
    destruct (Forall2_lookup_l _ _ _ _ _ Hall Hi)
      as (rc & _ & w1 & w2 & Hrun & _).
    destruct (distances pattern !! (depth - 1)%nat) as [introduced|]
      eqn:Hlook; [done|].
    rewrite (candidates_raise rnd interleaved predict_hash contains_at_depth
               root_patterns pattern depth p_explore p_extend KeyError w1)
      in Hrun; [done|].
    unfold endpoints_of. rewrite bool_decide_eq_false_2 by lia.
    by rewrite Hlook.
Qed.

(** C2. Breadth first the shared list is created once for each depth:
    the first submission of every depth finds it empty, so nothing
    recorded at one depth is present at the next. Depth first the list
    is created once for each class and kept across the depths of that
    class: it is empty when the class is submitted at depth 0, what it
    holds at one depth it holds at every greater depth, and with
    [p_explore = p_extend = 1] the hash of every pair that the Candidate
    Generator met for a pattern submitted at depth [d], and that the
    pattern did not contain, is in the list when the class is submitted
    at any greater depth. *)
Theorem visited_scope :
  (∀ d sh, head (shared_at d (log (generate BFS start).2)) = Some sh →
           sh = [])
  ∧ (∀ name fr sub sh,
       Exploring name 0 fr sub sh ∈ log (generate DFS start).2 → sh = [])
  ∧ (∀ name d fr sub sh d' fr' sub' sh',
       Exploring name d fr sub sh ∈ log (generate DFS start).2 →
       Exploring name d' fr' sub' sh' ∈ log (generate DFS start).2 →
       (d ≤ d')%nat → sh ⊆ sh')
  ∧ ((∀ i, (rnd i < 1)%Q) → (p_explore == 1)%Q → (p_extend == 1)%Q →
     ∀ name d fr sub sh d' fr' sub' sh' pattern c,
       Exploring name d fr sub sh ∈ log (generate DFS start).2 →
       Exploring name d' fr' sub' sh' ∈ log (generate DFS start).2 →
       (d < d')%nat →
       pattern ∈ sub →
       (pattern, c) ∈ all_pairs root_patterns pattern d →
       contains_at_depth pattern c.2 d = false →
       predict_hash pattern c.1 c.2 ∈ sh').
Proof.
  pose proof (generate_df_class rnd interleaved predict_hash
                contains_at_depth explore write_query len width name_le
                root_patterns depths_stop min_support p_explore p_extend
                max_length max_width out) as Htrace.
  split_and!.
  - apply (generate_bf_class rnd interleaved predict_hash contains_at_depth
             explore write_query len width name_le root_patterns depths_stop
             min_support p_explore p_extend max_length max_width out
             RDF_type).
  - intros name fr sub sh Hin.
    eapply (df_trace_held len width root_patterns max_length max_width
              name 0); [apply (Htrace name)| |done].
    unfold events_of. apply list_elem_of_filter. by split.
  - intros name d fr sub sh d' fr' sub' sh' H1 H2 Hle.
    eapply (df_trace_monotone len width root_patterns max_length max_width
              name 0); [apply (Htrace name)| | |exact Hle];
      unfold events_of; apply list_elem_of_filter; by split.
  - intros Hrnd Hexplore Hextend
      name d fr sub sh d' fr' sub' sh' pattern c H1 H2 Hlt.
    pose proof (generate_df_kept Hrnd Hexplore Hextend) as Hrun.
    unfold outcome in Hrun. simpl in H1, H2.
    destruct (generate_df start) as [[n|e] w']; by eapply Hrun.
Qed.

(** X10. A driver that returns has found, for every pattern that it
    submitted to the Candidate Generator at a depth above 0, an entry of
    [pattern.distances] for the depth before: a pattern without that
    entry makes the run end in the exception of the worker. *)
Theorem driver_failure strategy n w' :
  generate strategy start = (Ok n, w') →
  ∀ name depth frontier submitted shared pattern,
    Exploring name depth frontier submitted shared ∈ log w' →
    pattern ∈ submitted → (0 < depth)%nat →
    is_Some (distances pattern !! (depth - 1)%nat).
Proof.
  intros Hrun. pose proof (generate_grounded strategy) as Hout.
  unfold outcome in Hout. by rewrite Hrun in Hout.
Qed.

(** X12. With an empty index, or a range of depths that stops at 0, a
    driver returns 0 and no worker runs: nothing is drawn, the lock is
    never taken, and no hash is recorded. *)
Theorem nothing_to_explore strategy :
  depths_stop = 0%nat ∨ root_patterns = ∅ →
  ∃ w', generate strategy start = (Ok 0, w')
        ∧ draws w' = 0%nat ∧ locks w' = 0%nat
        ∧ hashed w' = [] ∧ visited w' = [].
Proof.
  intros Hidle. exists start. split; [|done].
  destruct strategy; simpl.
  - unfold generate_bf. destruct Hidle as [->|Hempty]; [done|].
    generalize 0%nat at 1. induction depths_stop as [|remaining IH];
      intros depth; [done|].
    simpl. rewrite Hempty.
    assert (Hfrontiers : (if bool_decide (depth = 0%nat)
                          then (∅ : RootPatterns) else ∅) = ∅)
      by by case_bool_decide.
    rewrite Hfrontiers, sorted_names_empty.
    unfold mbind, M_bind, new_visited. simpl.
    rewrite map_filter_empty. fold start. rewrite <- Hempty at 1.
    apply IH.
  - unfold generate_df. destruct Hidle as [Hstop|Hempty].
    + rewrite Hstop.
      induction (sorted_names name_le root_patterns) as [|name names IH];
        [done|].
      exact IH.
    + by rewrite Hempty, sorted_names_empty.
Qed.

(** X20. Breadth first, the classes of one depth share the list. Of two
    submissions at the same depth, the later one finds in the list
    everything that the earlier one found; and with
    [p_explore = p_extend = 1] it also finds the hash of every pair that
    the Candidate Generator met for a pattern of the earlier submission
    and that the pattern did not contain, so a hash accepted for one
    class is refused for the classes after it. *)
Theorem breadth_first_sharing i j name name' depth frontier frontier'
    submitted submitted' shared shared' :
  log (generate BFS start).2 !! i
  = Some (Exploring name depth frontier submitted shared) →
  log (generate BFS start).2 !! j
  = Some (Exploring name' depth frontier' submitted' shared') →
  ((i ≤ j)%nat → shared ⊆ shared')
  ∧ ((i < j)%nat →
     (∀ k, (rnd k < 1)%Q) → (p_explore == 1)%Q → (p_extend == 1)%Q →
     ∀ pattern c,
       pattern ∈ submitted →
       (pattern, c) ∈ all_pairs root_patterns pattern depth →
       contains_at_depth pattern c.2 depth = false →
       predict_hash pattern c.1 c.2 ∈ shared').
Proof.
  intros Hi Hj. simpl in Hi, Hj. unfold generate_bf in Hi, Hj. split.
  - intros Hij.
    pose proof (bf_depths_sharing rnd interleaved predict_hash
                  contains_at_depth explore write_query len width name_le
                  root_patterns min_support p_explore p_extend max_length
                  max_width out depths_stop 0 ∅ 0 start) as Hrun.
    unfold outcome in Hrun.
    assert (Hempty : ∀ (i j : nat) (n n' : Resource) (d : nat)
                       (fr fr' sub sub' : list GraphPattern)
                       (sh sh' : list Z),
               (i ≤ j)%nat →
               log start !! i = Some (Exploring n d fr sub sh) →
               log start !! j = Some (Exploring n' d fr' sub' sh') →
               sh ⊆ sh').
    { intros ? ? ? ? ? ? ? ? ? ? ? _ Hl. simpl in Hl.
      by rewrite lookup_nil in Hl. }
    destruct (bf_depths depths_stop 0 ∅ 0 start) as [[n|e] w'];
      eapply (Hrun Hempty); done || constructor.
  - intros Hij Hrnd Hexplore Hextend pattern c.
    pose proof (bf_depths_passed_on Hrnd Hexplore Hextend depths_stop 0 ∅ 0
                  start) as Hrun.
    unfold outcome in Hrun.
    destruct (bf_depths depths_stop 0 ∅ 0 start) as [[n|e] w'];
      eapply Hrun; try done; try constructor;
      intros ? ? ? ? ? ? ? ? ? ? ? _ Hl; simpl in Hl;
      by rewrite lookup_nil in Hl.
Qed.

End DriverScope.


(** C2 on the sample runs: breadth first the list is empty at depth 1;
    depth first the class Person is submitted at depth 1 with the hash
    that was recorded at depth 0, for the root pattern for knows and its
    extension by age, still in the list. *)
Lemma visited_scope_witness :
  head (shared_at 1 (log (Sample.run BFS).2)) = Some []
  ∧ ∃ fr sub fr' sub' sh',
      Exploring Sample.Person 0 fr sub [] ∈ log (Sample.run DFS).2
      ∧ Exploring Sample.Person 1 fr' sub' sh' ∈ log (Sample.run DFS).2
      ∧ Sample.knows_pattern ∈ sub
      ∧ Sample.predict_hash Sample.knows_pattern Sample.person Sample.has_age
        ∈ sh'.
Proof.
  split; [vm_compute; reflexivity|].
  destruct (log (Sample.run DFS).2 !! 0%nat) as [e0|] eqn:H0;
    [|by vm_compute in H0].
  destruct (log (Sample.run DFS).2 !! 2%nat) as [e2|] eqn:H2;
    [|by vm_compute in H2].
  pose proof (list_elem_of_lookup_2 _ _ _ H0) as He0.
  pose proof (list_elem_of_lookup_2 _ _ _ H2) as He2.
  vm_compute in H0, H2. injection H0 as <-. injection H2 as <-.
  assert (Hsub : Sample.knows_pattern
                 ∈ [Sample.knows_pattern; Sample.age_pattern]) by left.
  assert (Hpair : (Sample.knows_pattern, (Sample.person, Sample.has_age))
                  ∈ all_pairs Sample.root_patterns Sample.knows_pattern 0).
  { assert (Hpairs : all_pairs Sample.root_patterns Sample.knows_pattern 0
                     = [(Sample.knows_pattern,
                         (Sample.person, Sample.knows_person));
                        (Sample.knows_pattern,
                         (Sample.person, Sample.has_age))])
      by (vm_compute; reflexivity).
    rewrite Hpairs. right. left. }
  do 5 eexists. split; [exact He0|]. split; [exact He2|].
  split; [exact Hsub|].
  destruct (visited_scope Sample.rnd Sample.interleaved Sample.predict_hash
              Sample.contains_at_depth Sample.explore Sample.write_query
              Sample.len Sample.width Sample.name_le Sample.root_patterns 2 5
              1%Q 1%Q 4 4 true) as (_ & _ & _ & Hkept).
  apply (Hkept (λ _, eq_refl) (reflexivity _) (reflexivity _)
               _ _ _ _ _ _ _ _ _ Sample.knows_pattern
               (Sample.person, Sample.has_age) He0 He2 Nat.lt_0_1 Hsub Hpair).
  reflexivity.
Defined.

(** X10 on the sample depth-first run, which returns: the patterns
    submitted at depth 1 have an entry for depth 0. *)
Lemma driver_failure_witness :
  ∃ n w' fr sub sh,
    Sample.run DFS = (Ok n, w')
    ∧ Exploring Sample.Person 1 fr sub sh ∈ log w'
    ∧ Forall (λ pattern, is_Some (distances pattern !! 0%nat)) sub.
Proof.
  set (w' := (Sample.run DFS).2).
  destruct ((Sample.run DFS).1) as [n|e] eqn:Hres; [|by vm_compute in Hres].
  assert (Hrun : Sample.run DFS = (Ok n, w')).
  { rewrite <- Hres. apply surjective_pairing. }
  destruct (log w' !! 2%nat) as [e2|] eqn:H2; [|by vm_compute in H2].
  pose proof (list_elem_of_lookup_2 _ _ _ H2) as He2.
  vm_compute in H2. injection H2 as <-.
  exists n, w'. do 3 eexists. split; [exact Hrun|]. split; [exact He2|].
  apply Forall_forall. intros pattern Hin.
  exact (driver_failure Sample.rnd Sample.interleaved Sample.predict_hash
           Sample.contains_at_depth Sample.explore Sample.write_query
           Sample.len Sample.width Sample.name_le Sample.root_patterns 2 5
           1%Q 1%Q 4 4 true DFS n w' Hrun _ _ _ _ _ pattern He2 Hin
           Nat.lt_0_1).
Defined.

(** X12 on the sample index with a range of depths that stops at 0. *)
Lemma nothing_to_explore_witness :
  ∃ w', Sample.run_on Sample.root_patterns 0 true DFS = (Ok 0, w')
        ∧ draws w' = 0%nat ∧ locks w' = 0%nat
        ∧ hashed w' = [] ∧ visited w' = [].
Proof.
  exact (nothing_to_explore Sample.rnd Sample.interleaved Sample.predict_hash
           Sample.contains_at_depth Sample.explore Sample.write_query
           Sample.len Sample.width Sample.name_le Sample.root_patterns 0 5
           1%Q 1%Q 4 4 true DFS (or_introl eq_refl)).
Defined.

(** X20 on the breadth-first run over the two classes: at depth 0 Robot
    is submitted after Person, with the hash that was recorded for the
    root pattern for knows of Person and its extension by age in the
    list. *)
Lemma breadth_first_sharing_witness :
  ∃ frontier submitted shared frontier' submitted' shared',
    log (Sample.run_on Sample.two_roots 2 true BFS).2 !! 0%nat
    = Some (Exploring Sample.Person 0 frontier submitted shared)
    ∧ log (Sample.run_on Sample.two_roots 2 true BFS).2 !! 2%nat
      = Some (Exploring Sample.Robot 0 frontier' submitted' shared')
    ∧ shared ⊆ shared'
    ∧ Sample.knows_pattern ∈ submitted
    ∧ Sample.predict_hash Sample.knows_pattern Sample.person Sample.has_age
      ∈ shared'.
Proof.
  destruct (log (Sample.run_on Sample.two_roots 2 true BFS).2 !! 0%nat)
    as [e0|] eqn:H0; [|by vm_compute in H0].
  destruct (log (Sample.run_on Sample.two_roots 2 true BFS).2 !! 2%nat)
    as [e2|] eqn:H2; [|by vm_compute in H2].
  pose proof H0 as He0. pose proof H2 as He2.
  vm_compute in H0, H2. injection H0 as <-. injection H2 as <-.
  assert (Hsub : Sample.knows_pattern
                 ∈ [Sample.knows_pattern; Sample.age_pattern]) by left.
  assert (Hpair : (Sample.knows_pattern, (Sample.person, Sample.has_age))
                  ∈ all_pairs Sample.two_roots Sample.knows_pattern 0).
  { assert (Hpairs : all_pairs Sample.two_roots Sample.knows_pattern 0
                     = [(Sample.knows_pattern,
                         (Sample.person, Sample.knows_person));
                        (Sample.knows_pattern,
                         (Sample.person, Sample.has_age))])
      by (vm_compute; reflexivity).
    rewrite Hpairs. right. left. }
  destruct (breadth_first_sharing Sample.rnd Sample.interleaved
              Sample.predict_hash Sample.contains_at_depth Sample.explore
              Sample.write_query Sample.len Sample.width Sample.name_le
              Sample.two_roots 2 5 1%Q 1%Q 4 4 true 0 2 _ _ _ _ _ _ _ _ _
              He0 He2) as [Hfound Hpassed].
  do 6 eexists. split; [reflexivity|]. split; [reflexivity|].
  split; [exact (Hfound (Nat.le_0_l 2))|]. split; [exact Hsub|].
  apply (Hpassed Nat.lt_0_2 (λ _, eq_refl) (reflexivity _) (reflexivity _)
                 Sample.knows_pattern (Sample.person, Sample.has_age)
                 Hsub Hpair).
  reflexivity.
Defined.

(** * Which predicates the Root Pattern Builder evaluates *)

Lemma traverse_all {X Y} (f : X → Result Y) (l : list X) (ys : list Y) :
  Np.traverse f l = Ok ys → Forall2 (λ x y, f x = Ok y) l ys.
Proof.
  revert ys. induction l as [|x l IH]; intros ys; simpl.
  - intros [= <-]. constructor.
  - unfold mbind, Result_bind, mret, Result_ret.
    destruct (f x) as [y|] eqn:Hx; [|done].
    destruct (Np.traverse f l) as [ys'|] eqn:Hl; [|done].
    intros [= <-]. constructor; [done|]. by apply IH.
Qed.

Lemma fold_steps {X B} (body : B → X → Result B) (l : list X) (acc r : B) :
  Np.fold body l acc = Ok r →
  ∀ x, x ∈ l → ∃ acc0 acc1, body acc0 x = Ok acc1.
Proof.
  revert acc. induction l as [|x l IH]; intros acc; simpl.
  - intros _ x Hx. by apply elem_of_nil in Hx.
  - unfold mbind, Result_bind. destruct (body acc x) as [acc'|] eqn:Hx; [|done].
    intros Hrest x' [->|Hx']%elem_of_cons; [by eauto|].
    by eapply IH.
Qed.

Section BuilderScope.

Variable infer_type : KnowledgeGraph → nat → nat → Resource * bool.
Variable new_var_graph_pattern :
  Term → Term → list nat → Resource → gmap nat (list nat)
  → option GraphPattern.
Variable new_graph_pattern :
  Term → Resource → PyVal → Resource → list nat → gmap nat (list nat)
  → option GraphPattern.
Variable new_mm_graph_pattern :
  Term → Term → list nat → Resource → gmap nat (list nat)
  → option GraphPattern.
Variable compute_clusters :
  Resource → list string → list nat → list (list nat * string).
Variable SUPPORTED_XSD_TYPES : list Resource.
Variable XSD_STRING XSD_NUMERIC XSD_DATETIME XSD_DATEFRAG : list Resource.

Local Abbreviation compute_root_patterns :=
  (compute_root_patterns infer_type new_var_graph_pattern new_graph_pattern
     new_mm_graph_pattern compute_clusters SUPPORTED_XSD_TYPES XSD_STRING
     XSD_NUMERIC XSD_DATETIME XSD_DATEFRAG).
Local Abbreviation class_root_patterns :=
  (class_root_patterns infer_type new_var_graph_pattern new_graph_pattern
     new_mm_graph_pattern compute_clusters SUPPORTED_XSD_TYPES XSD_STRING
     XSD_NUMERIC XSD_DATETIME XSD_DATEFRAG).
Local Abbreviation init_root_patterns :=
  (init_root_patterns infer_type new_var_graph_pattern new_graph_pattern
     new_mm_graph_pattern compute_clusters SUPPORTED_XSD_TYPES XSD_STRING
     XSD_NUMERIC XSD_DATETIME XSD_DATEFRAG).

(** The members of a class: the sources of the type edges that point
    at it. *)
Local Abbreviation members_of kg rdf_type_idx class_idx :=
  (fst <$> List.filter (λ e : nat * nat, bool_decide (e.2 = class_idx))
                       (A kg rdf_type_idx)).

(** The condition of lines 400-403 on a predicate: it is not the type
    predicate, and at least [min_support] distinct members of the class
    have an outgoing edge of it. *)
Lemma submitted_iff_eligible kg min_support rdf_type_idx class_members_idx
    p_idx :
  p_idx ∈ submitted_predicates kg min_support rdf_type_idx class_members_idx
  ↔ (p_idx < num_relations kg)%nat ∧ p_idx ≠ rdf_type_idx
    ∧ ∃ subjects,
        NoDup subjects
        ∧ (∀ s, s ∈ subjects ↔
                s ∈ class_members_idx ∧ ∃ o, (s, o) ∈ A kg p_idx)
        ∧ min_support ≤ Z.of_nat (length subjects).
Proof.
  rewrite submitted_predicates_count.
  set (sharing := Py.set_inter _ _).
  assert (Hnodup : NoDup sharing) by apply NoDup_set_inter, NoDup_set_of.
  split.
  - intros (Hp & Hne & Hcount). split_and!; [done..|].
    exists sharing. split_and!; [done| |done].
    intros s. apply members_with_edge.
  - intros (Hp & Hne & subjects & Hnd & Hchar & Hcount).
    split_and!; [done..|].
    assert (Hperm : sharing ≡ₚ subjects).
    { apply NoDup_Permutation; [done..|]. intros s.
      unfold sharing. by rewrite members_with_edge, Hchar. }
    by rewrite Hperm.
Qed.

(** C6, as the code has it. The predicates for which [init_root_patterns]
    submits [compute_root_patterns] for a class are exactly those that
    are not the type predicate and for which the number of distinct
    members of the class with an outgoing edge of the predicate is at
    least [min_support]. In a run of [init_root_patterns] that returns,
    [compute_root_patterns] was evaluated, for every class with at least
    [min_support] members, on each of the submitted predicates in their
    order; and every root pattern of the index was returned by
    [compute_root_patterns] for a submitted predicate of its class, so a
    predicate below the threshold contributes no root pattern. *)
Theorem submitted_predicates_spec kg min_support mode
    textual_support numerical_support temporal_support :
  (∀ rdf_type_idx class_members_idx p_idx,
     p_idx ∈ submitted_predicates kg min_support rdf_type_idx
               class_members_idx
     ↔ (p_idx < num_relations kg)%nat ∧ p_idx ≠ rdf_type_idx
       ∧ ∃ subjects,
           NoDup subjects
           ∧ (∀ s, s ∈ subjects ↔
                   s ∈ class_members_idx ∧ ∃ o, (s, o) ∈ A kg p_idx)
           ∧ min_support ≤ Z.of_nat (length subjects))
  ∧ (∀ index,
       init_root_patterns kg min_support mode textual_support
         numerical_support temporal_support = Ok index →
       ∃ rdf_type_idx,
         r2i kg !! RDF_type = Some rdf_type_idx
         ∧ (∀ class_idx,
              class_idx ∈ snd <$> A kg rdf_type_idx →
              min_support
              ≤ Z.of_nat (length (members_of kg rdf_type_idx class_idx)) →
              ∃ results,
                Forall2
                  (λ p_idx returned,
                     compute_root_patterns kg min_support mode
                       textual_support numerical_support temporal_support
                       p_idx rdf_type_idx
                       (ObjectTypeVariable (i2n kg class_idx))
                       (members_of kg rdf_type_idx class_idx)
                     = Ok returned)
                  (submitted_predicates kg min_support rdf_type_idx
                     (members_of kg rdf_type_idx class_idx))
                  results)
         ∧ (∀ name patterns pattern,
              index !! name = Some patterns → pattern ∈ patterns →
              ∃ class_idx p_idx returned,
                name = i2n kg class_idx
                ∧ p_idx ∈ submitted_predicates kg min_support rdf_type_idx
                            (members_of kg rdf_type_idx class_idx)
                ∧ compute_root_patterns kg min_support mode textual_support
                    numerical_support temporal_support p_idx rdf_type_idx
                    (ObjectTypeVariable name)
                    (members_of kg rdf_type_idx class_idx)
                  = Ok returned
                ∧ pattern ∈ returned)).
Proof.
  split; [intros; apply submitted_iff_eligible|].
  intros index.
  unfold init_root_patterns, mbind, Result_bind, Np.get.
  destruct (r2i kg !! RDF_type) as [rdf_type_idx|] eqn:Htype; [|done].
  intros Hrun. exists rdf_type_idx. split; [done|]. split.
  - intros class_idx Hclass Hsupport.
    assert (Hin : class_idx
                  ∈ merge_sort Nat.le
                      (Py.set_of (snd <$> A kg rdf_type_idx))).
    { rewrite merge_sort_Permutation. by apply elem_of_set_of. }
    destruct (fold_steps _ _ _ _ Hrun _ Hin) as (acc0 & acc1 & Hbody).
    revert Hbody. unfold class_root_patterns, mbind, Result_bind.
    rewrite length_fmap in Hsupport.
    case_bool_decide as Hbelow; [lia|].
    destruct (Np.traverse _ _) as [results|] eqn:Hresults; [|done].
    intros _. exists results. by apply traverse_all.
  - revert Hrun.
    apply (fold_rule
             (λ m : RootPatterns,
                ∀ name patterns pattern,
                  m !! name = Some patterns → pattern ∈ patterns →
                  ∃ class_idx p_idx returned,
                    name = i2n kg class_idx
                    ∧ p_idx ∈ submitted_predicates kg min_support
                                rdf_type_idx
                                (members_of kg rdf_type_idx class_idx)
                    ∧ compute_root_patterns kg min_support mode
                        textual_support numerical_support temporal_support
                        p_idx rdf_type_idx (ObjectTypeVariable name)
                        (members_of kg rdf_type_idx class_idx)
                      = Ok returned
                    ∧ pattern ∈ returned)).
    { intros name patterns pattern. by rewrite lookup_empty. }
    intros acc class_idx acc' _ Hacc.
    unfold class_root_patterns, mbind, Result_bind.
    case_bool_decide as Hsupport; [by intros [= <-]|].
    destruct (Np.traverse _ _) as [results|] eqn:Hresults; [|done].
    case_bool_decide as Hsize; intros [= <-] name patterns pattern.
    + intros [_ Hlook]%lookup_delete_Some. by apply Hacc.
    + intros [[<- <-]|[_ Hlook]]%lookup_insert_Some; [|by apply Hacc].
      intros [Hp|(returned & Hreturned & Hp)]%unions_from;
        [by apply elem_of_nil in Hp|].
      destruct (traverse_from _ _ _ Hresults _ Hreturned)
        as (p_idx & Hsubmitted & Hcall).
      by exists class_idx, p_idx, returned.
Qed.

End BuilderScope.

(** C6 on Scenario A of the specification: for the class Person of the
    ten persons, every submitted predicate was evaluated. *)
Lemma submitted_predicates_spec_witness :
  ∃ index rdf_type_idx results,
    SampleGraph.index_of SampleGraph.ages 5 mode_T false false false
    = Ok index
    ∧ r2i SampleGraph.ages !! RDF_type = Some rdf_type_idx
    ∧ Forall2
        (λ p_idx returned,
           SampleGraph.root_patterns_of SampleGraph.ages 5 mode_T false false
             false p_idx rdf_type_idx SampleGraph.Person
             (fst <$> List.filter
                        (λ e : nat * nat, bool_decide (e.2 = 10%nat))
                        (A SampleGraph.ages rdf_type_idx))
           = Ok returned)
        (submitted_predicates SampleGraph.ages 5 rdf_type_idx
           (fst <$> List.filter
                      (λ e : nat * nat, bool_decide (e.2 = 10%nat))
                      (A SampleGraph.ages rdf_type_idx)))
        results.
Proof.
  destruct (SampleGraph.index_of SampleGraph.ages 5 mode_T false false false)
    as [index|] eqn:Hrun; [|by vm_compute in Hrun].
  destruct (submitted_predicates_spec SampleGraph.infer_type
              SampleGraph.new_var_graph_pattern
              SampleGraph.new_graph_pattern
              SampleGraph.new_mm_graph_pattern SampleGraph.compute_clusters
              [SampleGraph.xsd_integer; SampleGraph.xsd_string]
              [SampleGraph.xsd_string] [SampleGraph.xsd_integer] [] []
              SampleGraph.ages 5 mode_T false false false)
    as [_ Hindex].
  destruct (Hindex index Hrun) as (rdf_type_idx & Htype & Hclasses & _).
  assert (Hzero : rdf_type_idx = 0%nat).
  { vm_compute in Htype. by injection Htype as <-. }
  subst rdf_type_idx.
  destruct (Hclasses 10%nat) as [results Hresults].
  - simpl. left.
  - vm_compute. discriminate.
  - exists index, 0%nat, results. split; [done|]. split; [done|].
    exact Hresults.
Defined.
